(** * quintctl: register decoding, range scanning and change monitoring

    A shallow embedding of [quintctl.py], the command line tool that polls a
    Phoenix Contact QUINT DC-UPS over Modbus RTU.  The Modbus client
    ([pymodbus]) is outside the program: it is modelled as an oracle that
    answers every request, and every request, every [print] and every [sleep]
    the program performs is recorded in a trace. *)

From Stdlib Require Import PrimFloat SpecFloat FloatOps.
From Stdlib Require Import ZArith List String Ascii HexString Bool Lia.
From stdpp Require Import base option list strings gmap.

Local Open Scope Z_scope.

(** ** Python values that reach [print] *)

(** What [readRegister] hands to its callers and what [print_value] receives
    as [values]: a list of register words, a single integer, or [None]. *)
Inductive PyVal :=
| PList (l : list Z)
| PInt (z : Z)
| PNone.

(** One positional argument of a [print] call. *)
Inductive Item :=
| IStr (s : string)
| IVal (v : PyVal).

(** Exceptions that leave the program's own code uncaught. *)
Inductive PyExn :=
| TypeError
| KeyError
| ValueError
| ZeroDivisionError
| OverflowError
| SystemExit (code : Z)
| LibraryError (msg : string).

(** ** The Modbus client as an oracle *)

(** The part of a pymodbus response object the program looks at:
    [resp.isError()], [isinstance(resp, ExceptionResponse)], [resp.registers]
    and the text [f"{resp}"] used in diagnostics. *)
Record Response := {
  isError : bool;
  isExceptionResponse : bool;
  registers : list Z;
  resp_repr : string
}.

(** Outcome of one client call: a [ModbusException] raised by the library,
    any other exception (which the program's [except] clauses do not catch),
    or a response object. *)
Inductive Reply :=
| RaisesModbusException (e : string)
| RaisesOther (e : string)
| Responds (resp : Response).

(** Everything observable the program does, in order. *)
Inductive Event :=
| EvRead (addr count slave : Z)            (* mbclient.read_input_registers *)
| EvWrite (addr : Z) (vals : list Z) (slave : Z) (* mbclient.write_registers *)
| EvClose                                  (* mbclient.close() *)
| EvPrint (items : list Item)              (* print(...) *)
| EvPrintErr (items : list Item)           (* print(..., file=sys.stderr) *)
| EvSleep.                                 (* time.sleep(1) *)

#[global] Instance PyVal_eq_dec : EqDecision PyVal.
Proof. solve_decision. Defined.
#[global] Instance Item_eq_dec : EqDecision Item.
Proof. solve_decision. Defined.
#[global] Instance Event_eq_dec : EqDecision Event.
Proof. solve_decision. Defined.

(** The device side: the reply to the [n]-th client call, given the call. *)
Definition Transport := nat -> Event -> Reply.

Record World := {
  calls : nat;          (* number of client calls made so far *)
  trace : list Event    (* events so far, oldest first *)
}.

(** ** The monad of the program: state, exceptions and fuel *)

Inductive Res (A : Type) :=
| Val (a : A)
| Exc (e : PyExn)
| OutOfFuel.
Arguments Val {A} a.
Arguments Exc {A} e.
Arguments OutOfFuel {A}.

Definition M (A : Type) : Type := World -> Res A * World.

#[global] Instance M_ret : MRet M := fun A a w => (Val a, w).
#[global] Instance M_bind : MBind M := fun A B f m w =>
  match m w with
  | (Val a, w') => f a w'
  | (Exc e, w') => (Exc e, w')
  | (OutOfFuel, w') => (OutOfFuel, w')
  end.

Definition raise {A} (e : PyExn) : M A := fun w => (Exc e, w).
Definition out_of_fuel {A} : M A := fun w => (OutOfFuel, w).
Definition lift {A} (r : Res A) : M A := fun w => (r, w).

Definition emit (ev : Event) : M unit := fun w =>
  (Val tt, {| calls := calls w; trace := trace w ++ [ev] |}).

(** Nothing to do: the branch not taken of an [if] without [else]. *)
Definition pass : M unit := mret tt.

Definition print (items : list Item) : M unit := emit (EvPrint items).
Definition print_err (items : list Item) : M unit := emit (EvPrintErr items).

(** Events added by running [m] from [w]. *)
Definition new_events {A} (m : M A) (w : World) : list Event :=
  drop (length (trace w)) (trace (snd (m w))).

Definition is_print (ev : Event) : bool :=
  match ev with EvPrint _ => true | _ => false end.
Definition is_read (ev : Event) : bool :=
  match ev with EvRead _ _ _ => true | _ => false end.
Definition is_write (ev : Event) : bool :=
  match ev with EvWrite _ _ _ => true | _ => false end.

(** ** class QuintUPS *)

Section QuintUPS.

Variable dev : Transport.

Definition slave_id : Z := 192.

(** One call into the client: the request is recorded, the oracle answers. *)
Definition request (ev : Event) : M Reply := fun w =>
  (Val (dev (calls w) ev), {| calls := S (calls w); trace := trace w ++ [ev] |}).

(** [QuintUPS.readRegister(addr, count=1)]; the result is [None] or
    [resp.registers]. *)
Definition readRegister (addr : Z) (count : Z) : M (option (list Z)) :=
  let count := if count =? 0 then 0x10 else count in
  r ← request (EvRead addr count slave_id);
  match r with
  | RaisesModbusException e =>
      print [IStr ("Received ModbusException(" +:+ e +:+ ") from library")];;
      emit EvClose;;
      mret None
  | RaisesOther e => raise (LibraryError e)
  | Responds resp =>
      if isError resp then
        print [IStr ("Received Modbus library error(" +:+ resp_repr resp +:+ ")")];;
        emit EvClose;;
        mret None
      else if isExceptionResponse resp then
        print [IStr ("Received Modbus library exception (" +:+ resp_repr resp +:+ ")")];;
        emit EvClose;;
        mret None
      else mret (Some (registers resp))
  end.

(** [QuintUPS.writeRegister(addr, value)]; the result is [None] or [True]. *)
Definition writeRegister (addr : Z) (value : Z) : M (option bool) :=
  r ← request (EvWrite addr [value] slave_id);
  match r with
  | RaisesModbusException e =>
      print [IStr ("Received ModbusException(" +:+ e +:+ ") from library")];;
      emit EvClose;;
      mret None
  | RaisesOther e => raise (LibraryError e)
  | Responds resp =>
      if isError resp then
        print [IStr ("Received Modbus library error(" +:+ resp_repr resp +:+ ")")];;
        emit EvClose;;
        mret None
      else if isExceptionResponse resp then
        print [IStr ("Received Modbus library exception (" +:+ resp_repr resp +:+ ")")];;
        emit EvClose;;
        mret None
      else mret (Some true)
  end.

End QuintUPS.

(** ** The register catalog *)

(** The ["values"] key of a catalog entry: a dict from raw value to label, or
    a callable.  The only callable of the catalog compares its argument with
    integers first, so calling it on [None] raises [TypeError]. *)
Inductive Values :=
| VDict (d : list (Z * string))
| VFun (f : Z -> string).

(** A catalog entry.  Every key but ["addr"] is optional. *)
Record RegDict := {
  reg_addr : Z;
  reg_type : option string;
  reg_values : option Values;
  reg_unit : option string;
  reg_min : option Z;
  reg_max : option Z;
  reg_length : option nat;
  reg_bits : option (list (Z * string));
  reg_mode : option string;
  reg_description : option string
}.

Definition entry (a : Z) : RegDict :=
  {| reg_addr := a; reg_type := None; reg_values := None; reg_unit := None;
     reg_min := None; reg_max := None; reg_length := None; reg_bits := None;
     reg_mode := None; reg_description := None |}.

Definition set_type (t : string) (r : RegDict) : RegDict :=
  {| reg_addr := reg_addr r; reg_type := Some t; reg_values := reg_values r;
     reg_unit := reg_unit r; reg_min := reg_min r; reg_max := reg_max r;
     reg_length := reg_length r; reg_bits := reg_bits r; reg_mode := reg_mode r;
     reg_description := reg_description r |}.
Definition set_values (v : Values) (r : RegDict) : RegDict :=
  {| reg_addr := reg_addr r; reg_type := reg_type r; reg_values := Some v;
     reg_unit := reg_unit r; reg_min := reg_min r; reg_max := reg_max r;
     reg_length := reg_length r; reg_bits := reg_bits r; reg_mode := reg_mode r;
     reg_description := reg_description r |}.
Definition set_unit (u : string) (r : RegDict) : RegDict :=
  {| reg_addr := reg_addr r; reg_type := reg_type r; reg_values := reg_values r;
     reg_unit := Some u; reg_min := reg_min r; reg_max := reg_max r;
     reg_length := reg_length r; reg_bits := reg_bits r; reg_mode := reg_mode r;
     reg_description := reg_description r |}.
Definition set_min (n : Z) (r : RegDict) : RegDict :=
  {| reg_addr := reg_addr r; reg_type := reg_type r; reg_values := reg_values r;
     reg_unit := reg_unit r; reg_min := Some n; reg_max := reg_max r;
     reg_length := reg_length r; reg_bits := reg_bits r; reg_mode := reg_mode r;
     reg_description := reg_description r |}.
Definition set_max (n : Z) (r : RegDict) : RegDict :=
  {| reg_addr := reg_addr r; reg_type := reg_type r; reg_values := reg_values r;
     reg_unit := reg_unit r; reg_min := reg_min r; reg_max := Some n;
     reg_length := reg_length r; reg_bits := reg_bits r; reg_mode := reg_mode r;
     reg_description := reg_description r |}.
Definition set_length (n : nat) (r : RegDict) : RegDict :=
  {| reg_addr := reg_addr r; reg_type := reg_type r; reg_values := reg_values r;
     reg_unit := reg_unit r; reg_min := reg_min r; reg_max := reg_max r;
     reg_length := Some n; reg_bits := reg_bits r; reg_mode := reg_mode r;
     reg_description := reg_description r |}.
Definition set_bits (b : list (Z * string)) (r : RegDict) : RegDict :=
  {| reg_addr := reg_addr r; reg_type := reg_type r; reg_values := reg_values r;
     reg_unit := reg_unit r; reg_min := reg_min r; reg_max := reg_max r;
     reg_length := reg_length r; reg_bits := Some b; reg_mode := reg_mode r;
     reg_description := reg_description r |}.
Definition set_mode (m : option string) (r : RegDict) : RegDict :=
  {| reg_addr := reg_addr r; reg_type := reg_type r; reg_values := reg_values r;
     reg_unit := reg_unit r; reg_min := reg_min r; reg_max := reg_max r;
     reg_length := reg_length r; reg_bits := reg_bits r; reg_mode := m;
     reg_description := reg_description r |}.
Definition set_description (d : string) (r : RegDict) : RegDict :=
  {| reg_addr := reg_addr r; reg_type := reg_type r; reg_values := reg_values r;
     reg_unit := reg_unit r; reg_min := reg_min r; reg_max := reg_max r;
     reg_length := reg_length r; reg_bits := reg_bits r; reg_mode := reg_mode r;
     reg_description := Some d |}.

(** [e // f] reads "entry [e], and key [f]". *)
Local Notation "e // f" := (f e) (at level 50, left associativity, only parsing).

(** A Python dict keeps insertion order; assigning an existing key replaces
    its value in place.  A dict display with a repeated key therefore keeps
    the first position and the last value. *)
Section PyDict.
Context {K V : Type} `{EqDecision K}.

Fixpoint dict_set (k : K) (v : V) (d : list (K * V)) : list (K * V) :=
  match d with
  | [] => [(k, v)]
  | (k', v') :: d' =>
      if decide (k = k') then (k, v) :: d' else (k', v') :: dict_set k v d'
  end.

Definition dict_update (d : list (K * V)) (items : list (K * V)) : list (K * V) :=
  fold_left (fun acc kv => dict_set (fst kv) (snd kv) acc) items d.

Definition pydict (items : list (K * V)) : list (K * V) := dict_update [] items.

Fixpoint dict_get (k : K) (d : list (K * V)) : option V :=
  match d with
  | [] => None
  | (k', v) :: d' => if decide (k = k') then Some v else dict_get k d'
  end.
End PyDict.

Definition Catalog := list (string * RegDict).

(** The classification callable of ["OUT_LUI_BatteryInstalledType"]. *)
Definition battery_installed_type (value : Z) : string :=
  if 18000 <? value then "Capacitor"
  else if 11000 <? value then "Lithium battery"
  else if 1000 <? value then "Lead battery"
  else "unknown".

(** [Quint24DCRegisters], first the dict display ("from official modbus
    documentation"), then the [update] ("from XML in the driver package"). *)
Definition Quint24DCRegisters : Catalog :=
  dict_update
    (pydict
      [ ("OUT_LX_Remote",
          entry 0x7400 // set_type "bool"
            // set_values (VDict (pydict [(0, "on"); (1, "off")])));
        ("OUT_LX_BatteryMode", entry 0x7401 // set_type "bool");
        ("OUT_LX_ShutdownEvent", entry 0x7402 // set_type "bool");
        ("OUT_LX_BatteryCharging", entry 0x7403 // set_type "bool");
        ("OUT_LUI_PowerSourceBoost",
          entry 0x7406 // set_type "state"
            // set_values (VDict (pydict
                 [(0, "I > Inominal"); (1, "I < Inominal"); (2, "not connected")])));
        ("OUT_LUI_OutputVoltage",
          entry 0x7431 // set_type "int" // set_unit "mV" // set_max 30000);
        ("OUT_LUI_SocStateOfCharge",
          entry 0x7435 // set_type "int" // set_unit "%"
            // set_values (VDict (pydict [(65535, "not initialized")])));
        ("OUT_LUI_SocStateResidualBackupTime",
          entry 0x7436 // set_type "int" // set_unit "minutes"
            // set_values (VDict (pydict [(65535, "not initialized")])));
        ("OUT_LUI_BatteryVoltage",
          entry 0x7460 // set_type "int" // set_unit "mV" // set_max 30000);
        ("OUT_LUI_BatteryTemperature",
          entry 0x7461 // set_type "int" // set_unit "Kelvin"
            // set_min 200 // set_max 400);
        ("OUT_LUI_OutputVoltage2",
          entry 0x7462 // set_type "int" // set_unit "mV" // set_max 3000);
        ("OUT_LUI_SocStateResidualBackupTimeS",
          entry 0x7463 // set_type "int" // set_unit "seconds"
            // set_values (VDict (pydict [(65535, "not initialized")])));
        ("OUT_LUDI_BatteryNormCapacityWs",
          entry 0x7464 // set_type "int" // set_unit "100Ws"
            // set_values (VDict (pydict [(65535, "not detected")])));
        ("OUT_LUI_BatteryDischaCurrent",
          entry 0x7466 // set_type "int" // set_unit "mA");
        ("OUT_LUI_BatteryDetectedUnits",
          entry 0x7467 // set_type "int" // set_max 15);
        ("OUT_LUDI_BatteryNormCapacitymAh",
          entry 0x7468 // set_type "int" // set_unit "100mAh"
            // set_values (VDict (pydict [(65535, "not detected")])));
        ("OUT_LUI_BatteryInstalledType",
          entry 0x7469 // set_type "state"
            // set_values (VFun battery_installed_type));
        ("OUT_LUDW_ActualAlarm",
          entry 0x7490 // set_type "bits" // set_length 2
            // set_bits (pydict
                 [ (0, "end of life (SOH)");
                   (4, "end of life (Resistance)");
                   (5, "end of life (Resistance)");
                   (6, "end of life (Time)");
                   (7, "end of life (Voltage)");
                   (9, "no battery");
                   (10, "inconsistent technology");
                   (11, "overload cutoff");
                   (12, "low battery (Voltage)");
                   (13, "low battery (Charge)");
                   (14, "low battery (Time)");
                   (16, "service") ]));
        ("OUT_LUDW_ActualWarning",
          entry 0x7494 // set_type "bits"
            // set_bits (pydict
                 [ (0, "end of life (SOH)");
                   (7, "inconsistent capacity");
                   (8, "notify more batteries");
                   (8, "less batteries");
                   (12, "low battery (Voltage)");
                   (13, "low battery (Charge)");
                   (14, "low battery (Time)");
                   (15, "service without battery registration") ])) ])
    [ (* 0x1000 *)
      ("FW_VERSION", entry 0x1602);
      ("BAT_INSTALLED_CAPACITY_NOMINAL", entry 0x1611 // set_unit "100mAh");
      (* 0x3000 *)
      ("TIME_LIMIT_MODE_CUSTOM_BUFFER_TIME",
        entry 0x3203 // set_mode (Some "rw")
          // set_description
               "seconds after power loss until output voltage is turned off (in custom mode only)");
      (* 0x6000 *)
      ("COUNTER_BATTERY_MODE_EVENT", entry 0x6C00 // set_length 2);
      ("COUNTER_OPERATION_TIME", entry 0x6c0c // set_length 2);
      ("COUNTER_USER_OPERATION_TIME", entry 0x6c10 // set_length 2);
      (* 0x7400 *)
      ("STATUS_SERVICE",
        entry 0x7405
          // set_values (VDict (pydict
               [ (0, "not in service mode");
                 (1, "service mode by key");
                 (2, "service mode by stick");
                 (3, "service mode by PC") ])));
      ("INPUT_ACTUAL_VOLTAGE", entry 0x7430 // set_type "int" // set_unit "mV");
      ("ACTUAL_CURRENT_CHARGING", entry 0x7465 // set_type "int" // set_unit "mA");
      ("BATTERY_ACTUAL_TEMPERATURE",
        entry 0x7473 // set_type "int" // set_unit "Kelvin");
      ("BATTERY_ACTUAL_ALL_VOLTAGE", entry 0x7472 // set_type "int" // set_unit "mV");
      ("BATTERY_ACTUAL_INTERNAL_VOLTAGE",
        entry 0x7477 // set_type "int" // set_unit "mV");
      ("ERROR_CODE_COUNTER", entry 0x749A);
      (* 0x7800 *)
      ("SET_SERVICE_MODE_BY_PC", entry 0x7873) ].

Definition Quint24DCMonitorRegisters : list (Z * Z) :=
  [ (0x6c00, 0x6c50); (0x7400, 0x74a0); (0x7800, 0x78a0) ].

(** Entries of [default_skip] are register names or plain addresses. *)
Definition default_skip : list (string + Z) :=
  [ inl "COUNTER_OPERATION_TIME";
    inl "COUNTER_USER_OPERATION_TIME";
    inl "INPUT_ACTUAL_VOLTAGE";
    inl "BATTERY_ACTUAL_INTERNAL_VOLTAGE";
    inl "OUT_LUI_OutputVoltage";
    inr 0x740b; inr 0x740c; inr 0x740d; inr 0x7432;
    inr 0x743c; inr 0x743d; inr 0x746c; inr 0x7478 ].

(** The first entry at address [a], in iteration order:
    [for reg, regdict in Quint24DCRegisters.items(): if regdict["addr"] == a: ... break]. *)
Fixpoint find_addr (regs : Catalog) (a : Z) : option (string * RegDict) :=
  match regs with
  | [] => None
  | (reg, regdict) :: rest =>
      if reg_addr regdict =? a then Some (reg, regdict) else find_addr rest a
  end.

(** [regdict.get("length", 1)] *)
Definition get_length (regdict : RegDict) : nat := default 1%nat (reg_length regdict).

(** ** print_value *)

(** [value = 0; for i in range(len(values)): value |= (values[i] << (16*i))],
    with the one-element case returned unchanged.  The decoder
    ([print_value]) and the monitor loop contain the same statements. *)
Definition or_words (values : list Z) : Z :=
  fold_left
    (fun value i => Z.lor value (Z.shiftl (nth i values 0) (16 * Z.of_nat i)))
    (seq 0 (length values)) 0.

Definition assemble (values : list Z) : Z :=
  match values with
  | [v] => v
  | _ => or_words values
  end.

(** ["0x%02x" % n] *)
Definition hex02 (n : Z) : string :=
  match n with
  | Z0 => "0x00"
  | Zpos p =>
      let digits := HexString.Raw.of_pos p "" in
      if (String.length digits <? 2)%nat then "0x0" +:+ digits else "0x" +:+ digits
  | Zneg p => "0x-" +:+ HexString.Raw.of_pos p ""
  end.

(** [regdict["unit"] if "unit" in regdict else ""] *)
Definition unit_or_empty (regdict : RegDict) : string := default "" (reg_unit regdict).

Definition type_is (regdict : RegDict) (t : string) : bool :=
  match reg_type regdict with
  | Some t' => String.eqb t' t
  | None => false
  end.

(** Python truth value of an integer or [None]. *)
Definition truthy (value : option Z) : bool :=
  match value with
  | Some v => negb (v =? 0)
  | None => false
  end.

Definition item_of (value : option Z) : Item :=
  match value with
  | Some v => IVal (PInt v)
  | None => IVal PNone
  end.

(** [for bit, descr in regdict["bits"].items():
       if ((value >> bit) & 1) == 1: print(" - "+descr)] *)
Fixpoint print_bits (value : option Z) (bits : list (Z * string)) : M unit :=
  match bits with
  | [] => mret tt
  | (bit, descr) :: rest =>
      match value with
      | None => raise TypeError
      | Some v =>
          (if Z.land (Z.shiftr v bit) 1 =? 1
           then print [IStr (" - " +:+ descr)] else mret tt);;
          print_bits value rest
      end
  end.

(** The head of [print_value]: a list is assembled, anything else is taken
    as it is. *)
Definition value_of (values : PyVal) : option Z :=
  match values with
  | PList l => Some (assemble l)
  | PInt z => Some z
  | PNone => None
  end.

(** The first argument of [print_value]: a catalog entry or an address. *)
Inductive Info :=
| InfoDict (regdict : RegDict)
| InfoAddr (a : Z).

(** [print_value(info, values, prefix="")].  The function reads the global
    [reg], the loop variable of the caller's catalog search; it is passed
    here explicitly. *)
Definition print_value (reg : string) (info : Info) (values : PyVal)
    (prefix : string) : M unit :=
  match info with
  | InfoDict regdict =>
      let value := value_of values in
      let mapped : option string :=
        match reg_values regdict, value with
        | Some (VDict d), Some v => dict_get v d
        | _, _ => None
        end in
      match mapped with
      | Some label => print [IStr (prefix +:+ reg +:+ ":"); IStr label]
      | None =>
          match reg_values regdict with
          | Some (VFun f) =>
              match value with
              | Some v => print [IStr (prefix +:+ reg +:+ ":"); IStr (f v)]
              | None => raise TypeError
              end
          | _ =>
              if type_is regdict "bool" then
                print [IStr (prefix +:+ reg +:+ ":");
                       IStr (if truthy value then "on" else "off")]
              else if type_is regdict "int" then
                print [IStr (prefix +:+ reg +:+ ":"); item_of value;
                       IStr (unit_or_empty regdict)]
              else if type_is regdict "bits" then
                print [IStr (prefix +:+ reg +:+ ":"); item_of value];;
                match reg_bits regdict with
                | Some bits => print_bits value bits
                | None => raise KeyError
                end
              else
                print [IStr (prefix +:+ reg +:+ ":"); item_of value;
                       IStr (unit_or_empty regdict)]
          end
      end
  | InfoAddr a => print [IStr (prefix +:+ hex02 a); IVal values]
  end.

(** The world before the first event. *)
Definition world0 : World := {| calls := 0; trace := [] |}.

(** ** Command line arguments *)

(** The options the actions read.  [--skip-addr] values are held after
    [a.split(",")] and [int(a, 0)]; [--min-change-rel] and [--min-change-abs]
    are Python floats, that is IEEE 754 binary64 numbers. *)
Record Args := {
  raw : bool;
  min_change_rel : option PrimFloat.float;
  min_change_abs : option PrimFloat.float;
  skip_addr_arg : list Z
}.

(** ** The actions of [__main__] *)

Section Actions.

Variable dev : Transport.
Variable regs : Catalog.

(** The value of the global [reg] once a catalog search has run to its end
    without [break]: the last key. *)
Definition last_reg : string :=
  match last regs with
  | Some (reg, _) => reg
  | None => ""
  end.

Definition pyval_of (values : option (list Z)) : PyVal :=
  match values with
  | Some l => PList l
  | None => PNone
  end.

(** *** dump *)

Definition dump_entry (args : Args) (reg : string) (regdict : RegDict) : M unit :=
  values ← readRegister dev (reg_addr regdict) (Z.of_nat (get_length regdict));
  match values with
  | Some ((_ :: _) as l) =>
      if raw args then
        print [IStr (reg +:+ ":"); IVal (PList l); IStr (unit_or_empty regdict)]
      else print_value reg (InfoDict regdict) (PList l) ""
  | _ => mret tt
  end.

Fixpoint dump_from (args : Args) (items : Catalog) : M unit :=
  match items with
  | [] => mret tt
  | (reg, regdict) :: rest => dump_entry args reg regdict;; dump_from args rest
  end.

Definition dump (args : Args) : M unit := dump_from args regs.

(** *** dumpall *)

(** One turn of [while i < 0x7500]; the result is the next [i]. *)
Definition dumpall_body (i : Z) : M Z :=
  values ← readRegister dev i 1;
  match find_addr regs i with
  | Some (reg, regdict) =>
      let i := i + Z.of_nat (get_length regdict) - 1 in
      print_value reg (InfoDict regdict) (pyval_of values) "";;
      mret (i + 1)
  | None =>
      (if bool_decide (values = Some [65535]) then mret tt
       else print_value last_reg (InfoAddr i) (pyval_of values) "");;
      mret (i + 1)
  end.

Fixpoint dumpall_loop (fuel : nat) (i : Z) : M unit :=
  match fuel with
  | O => out_of_fuel
  | S fuel' =>
      if i <? 0x7500 then i' ← dumpall_body i; dumpall_loop fuel' i'
      else mret tt
  end.

Definition dumpall (fuel : nat) : M unit := dumpall_loop fuel 0x7400.

End Actions.

(** ** monitor *)

(** A Python [int] as a number with mantissa and exponent, with no
    rounding. *)
Definition sf_of_int (z : Z) : spec_float :=
  match z with
  | Z0 => S754_zero false
  | Zpos m => S754_finite false m 0
  | Zneg m => S754_finite true m 0
  end.

(** The binary64 number nearest to [a / b], ties to even. *)
Definition nearest_quotient (a b : Z) : PrimFloat.float :=
  SF2Prim (SFdiv prec emax (sf_of_int a) (sf_of_int b)).

(** The least quotient that rounds to no binary64 number: half an ulp above
    the largest one. *)
Definition overflow_bound : Z := 2 ^ 1024 - 2 ^ 970.

(** [a / b] on two Python [int]s: the quotient is rounded once, from its
    exact value; [ZeroDivisionError] for [b == 0], [OverflowError] when the
    rounded quotient is too large for a [float]. *)
Definition true_divide (a b : Z) : Res PrimFloat.float :=
  if b =? 0 then Exc ZeroDivisionError
  else if overflow_bound * Z.abs b <=? Z.abs a then Exc OverflowError
  else Val (nearest_quotient a b).

(** [n > t] for a Python [int] and a [float]: the two numbers are compared
    by their exact values, the [int] is not rounded. *)
Definition int_gt_float (n : Z) (t : PrimFloat.float) : bool :=
  match Prim2SF t with
  | S754_nan => false
  | S754_infinity negative => negative
  | S754_zero _ => 0 <? n
  | S754_finite negative m e =>
      let m := if negative then Z.neg m else Z.pos m in
      if 0 <=? e then m * 2 ^ e <? n else m <? n * 2 ^ (- e)
  end.

(** [def rel_change(old, new): return abs(new - old)/old] *)
Definition rel_change (old new : Z) : Res PrimFloat.float :=
  true_divide (Z.abs (new - old)) old.

(** The three statements that compute [show], once a warm-up pass is over.
    They appear twice in the source, for catalog registers and for plain
    addresses, word for word; [prior_addr] is [prior.get(addr, None)].
    [abs(None - value)] raises [TypeError]. *)
Definition compute_show (args : Args) (prior_addr : option Z) (value : Z) : Res bool :=
  let show := negb (bool_decide (prior_addr = Some value)) in
  let show :=
    match min_change_rel args, prior_addr with
    | Some r, Some p =>
        if show && truthy prior_addr then
          match rel_change p value with
          | Val change => Val (PrimFloat.ltb r change)
          | Exc e => Exc e
          | OutOfFuel => OutOfFuel
          end
        else Val show
    | _, _ => Val show
    end in
  match show with
  | Val show =>
      match min_change_abs args with
      | Some t =>
          if show then
            match prior_addr with
            | Some p => Val (int_gt_float (Z.abs (p - value)) t)
            | None => Exc TypeError
            end
          else Val show
      | None => Val show
      end
  | Exc e => Exc e
  | OutOfFuel => OutOfFuel
  end.

(** The monitor's variables that live across polling passes. *)
Record MonState := {
  prior : gmap Z Z;
  first : bool
}.

Section Monitor.

Variable dev : Transport.
Variable regs : Catalog.
Variable args : Args.

(** [skip_addr]: the [--skip-addr] addresses, then [default_skip] with names
    resolved through the catalog ([KeyError] for an unknown name). *)
Fixpoint extend_default_skip (skip_addr : list Z) (entries : list (string + Z))
    : M (list Z) :=
  match entries with
  | [] => mret skip_addr
  | inl name :: rest =>
      match dict_get name regs with
      | Some regdict => extend_default_skip (skip_addr ++ [reg_addr regdict]) rest
      | None => raise KeyError
      end
  | inr a :: rest => extend_default_skip (skip_addr ++ [a]) rest
  end.

Definition monitor_skip_addr : M (list Z) :=
  extend_default_skip (skip_addr_arg args) default_skip.

(** [values = []; while len(values) < end - start:
       values.extend(quintups.readRegister(start + len(values), count=0))].
    [list.extend(None)] raises [TypeError]. *)
Fixpoint read_range (fuel : nat) (start end_ : Z) (values : list Z) : M (list Z) :=
  match fuel with
  | O => out_of_fuel
  | S fuel' =>
      if Z.of_nat (length values) <? end_ - start then
        r ← readRegister dev (start + Z.of_nat (length values)) 0;
        match r with
        | Some words => read_range fuel' start end_ (values ++ words)
        | None => raise TypeError
        end
      else mret values
  end.

(** One turn of [while idx < len(values)], for an address outside
    [skip_addr]: the value at [idx], the report, the new [prior].  [now]
    stands for [datetime.now().strftime("%H:%M:%S")]. *)
Definition sample (st : MonState) (now : string) (addr : Z)
    (cur : option (string * RegDict)) (values : list Z) (idx : nat) : M (gmap Z Z) :=
  match cur with
  | Some (reg, cur_regdict) =>
      let vals := take (get_length cur_regdict) (drop idx values) in
      let value := assemble vals in
      (if first st then pass
       else
         lift (compute_show args (prior st !! addr) value) ≫= λ show : bool,
         if show then print_value reg (InfoDict cur_regdict) (PInt value) (now +:+ " ")
         else pass);;
      mret (<[addr := value]> (prior st))
  | None =>
      let value := nth idx values 0 in
      (if first st then pass
       else
         lift (compute_show args (prior st !! addr) value) ≫= λ show : bool,
         if show then print_value (last_reg regs) (InfoAddr addr) (PInt value) (now +:+ " ")
         else pass);;
      mret (<[addr := value]> (prior st))
  end.

(** [idx = 0; while idx < len(values): ...] over one range's buffer. *)
Fixpoint walk (fuel : nat) (first_ : bool) (now : Z -> string) (skip_addr : list Z)
    (start : Z) (values : list Z) (idx : nat) (prior_ : gmap Z Z) : M (gmap Z Z) :=
  match fuel with
  | O => out_of_fuel
  | S fuel' =>
      if (idx <? length values)%nat then
        let addr := start + Z.of_nat idx in
        let cur := find_addr regs addr in
        let idx_inc :=
          match cur with
          | Some (_, cur_regdict) => get_length cur_regdict
          | None => 1%nat
          end in
        if bool_decide (addr ∈ skip_addr) then
          walk fuel' first_ now skip_addr start values (idx + idx_inc)%nat prior_
        else
          prior' ← sample {| prior := prior_; first := first_ |} (now addr) addr
                     cur values idx;
          walk fuel' first_ now skip_addr start values (idx + idx_inc)%nat prior'
      else mret prior_
  end.

(** The body of [for start, end in Quint24DCMonitorRegisters]. *)
Definition monitor_range (fuel : nat) (first_ : bool) (now : Z -> string)
    (skip_addr : list Z) (range : Z * Z) (prior_ : gmap Z Z) : M (gmap Z Z) :=
  let '(start, end_) := range in
  values ← read_range fuel start end_ [];
  walk fuel first_ now skip_addr start values 0 prior_.

Fixpoint monitor_ranges (fuel : nat) (first_ : bool) (now : Z -> string)
    (skip_addr : list Z) (ranges : list (Z * Z)) (prior_ : gmap Z Z)
    : M (gmap Z Z) :=
  match ranges with
  | [] => mret prior_
  | range :: rest =>
      prior' ← monitor_range fuel first_ now skip_addr range prior_;
      monitor_ranges fuel first_ now skip_addr rest prior'
  end.

(** One turn of [while True]: every range, then [time.sleep(1)] and
    [first = False]. *)
Definition monitor_cycle (fuel : nat) (now : Z -> string) (skip_addr : list Z)
    (st : MonState) : M MonState :=
  prior' ← monitor_ranges fuel (first st) now skip_addr Quint24DCMonitorRegisters
             (prior st);
  emit EvSleep;;
  mret {| prior := prior'; first := false |}.

(** The first [n] turns of [while True]; [now k] gives the clock readings of
    turn [k]. *)
Fixpoint monitor_cycles (n : nat) (k : nat) (fuel : nat) (now : nat -> Z -> string)
    (skip_addr : list Z) (st : MonState) : M MonState :=
  match n with
  | O => mret st
  | S n' =>
      st' ← monitor_cycle fuel (now k) skip_addr st;
      monitor_cycles n' (S k) fuel now skip_addr st'
  end.

(** The monitor action, cut after [n] polling passes. *)
Definition monitor (n : nat) (fuel : nat) (now : nat -> Z -> string) : M MonState :=
  skip_addr ← monitor_skip_addr;
  monitor_cycles n 0 fuel now skip_addr {| prior := ∅; first := true |}.

End Monitor.

(** ** set *)

Section SetAction.

Variable dev : Transport.
Variable regs : Catalog.

(** [int(s, 0)] of the standard library: the integer a literal denotes, or
    [None] where Python raises [ValueError]. *)
Variable int0 : string -> option Z.

(** The catalog search of the set branch:
    [if args.action_params[0] == reg or param_addr == regdict["addr"]]. *)
Fixpoint find_target (items : Catalog) (param : string) (param_addr : option Z)
    : option (string * RegDict) :=
  match items with
  | [] => None
  | (reg, regdict) :: rest =>
      if bool_decide (param = reg) || bool_decide (param_addr = Some (reg_addr regdict))
      then Some (reg, regdict)
      else find_target rest param param_addr
  end.

Definition set_action (action_params : list string) : M unit :=
  match action_params with
  | [param; value_param] =>
      let param_addr := int0 param in
      match int0 value_param with
      | None => raise ValueError
      | Some value =>
          match find_target regs param param_addr with
          | Some (reg, regdict) =>
              writeRegister dev (reg_addr regdict) value;; mret tt
          | None =>
              match param_addr with
              | None =>
                  print [IStr "error, register not found"];;
                  raise (SystemExit 1)
              | Some a => writeRegister dev a value;; mret tt
              end
          end
      end
  | _ =>
      print_err [IStr "wrong parameter"];;
      raise (SystemExit 1)
  end.

End SetAction.

(** ** get *)

Section GetAction.

Variable dev : Transport.
Variable regs : Catalog.
Variable int0 : string -> option Z.

(** [quintups.readRegister(param_addr)] when [param_addr] is [None]: what
    the client library does with an address that is not a number is not
    fixed here. *)
Variable read_none : M (option (list Z)).

(** The body of [for param in args.action_params].  The catalog search is
    that of the set branch.  When the catalog read gave [None], [values] is
    still [None] after the search and the plain read follows;
    ["0x%02x" % None] raises [TypeError]. *)
Definition get_param (param : string) : M unit :=
  let param_addr := int0 param in
  found ← match find_target regs param param_addr with
          | Some (reg, regdict) =>
              values ← readRegister dev (reg_addr regdict)
                         (Z.of_nat (get_length regdict));
              print_value reg (InfoDict regdict) (pyval_of values) "";;
              mret (reg, values)
          | None => mret (last_reg regs, None)
          end;
  match snd found with
  | Some _ => mret tt
  | None =>
      match param_addr with
      | Some a =>
          values ← readRegister dev a 1;
          print_value (fst found) (InfoAddr a) (pyval_of values) ""
      | None => read_none;; raise TypeError
      end
  end.

Fixpoint get_params (params : list string) : M unit :=
  match params with
  | [] => mret tt
  | param :: rest => get_param param;; get_params rest
  end.

(** [while repeat != 0: ...; if repeat > 0: repeat -= 1; time.sleep(0.1)].
    The trace keeps a sleep without its duration. *)
Fixpoint get_loop (fuel : nat) (repeat : Z) (params : list string) : M unit :=
  match fuel with
  | O => out_of_fuel
  | S fuel' =>
      if repeat =? 0 then mret tt
      else
        get_params params;;
        emit EvSleep;;
        get_loop fuel' (if 0 <? repeat then repeat - 1 else repeat) params
  end.

(** The get action; [repeat_arg] is [args.repeat]. *)
Definition get_action (fuel : nat) (repeat_arg : option Z) (params : list string)
    : M unit :=
  match params with
  | [] => print_err [IStr "missing parameter"];; raise (SystemExit 1)
  | _ => get_loop fuel (default 1 repeat_arg) params
  end.

End GetAction.

(** * Vocabulary of the properties *)

(** ** Words and changes *)

(** A register word as the client delivers it. *)
Definition word16 (w : Z) : Prop := 0 <= w < 65536.

(** The sum of [words[i] * 2^(16*i)] over all indices, least significant
    word first. *)
Definition weighted_sum (words : list Z) : Z :=
  foldr Z.add 0
    (map (fun i => nth i words 0 * 2 ^ (16 * Z.of_nat i)) (seq 0 (length words))).

(** [|v - p| / |p|] and [|v - p|] as the specification words them: the
    quotient as a binary64 number, the difference as an integer. *)
Definition relative_delta (p v : Z) : PrimFloat.float :=
  nearest_quotient (Z.abs (v - p)) (Z.abs p).

Definition absolute_delta (p v : Z) : Z := Z.abs (v - p).

(** [x > y] on floats. *)
Definition float_gt (x y : PrimFloat.float) : bool := PrimFloat.ltb y x.

(** The quotient [|v - p| / |p|] is within the range of binary64; it always
    is for values of up to 63 register words. *)
Definition quotient_fits (p v : Z) : Prop :=
  Z.abs (v - p) < overflow_bound * Z.abs p.

(** The relative threshold lets a sample through when it is not configured,
    when the prior value is zero, or when the relative change exceeds it. *)
Definition rel_passes (args : Args) (p v : Z) : bool :=
  match min_change_rel args with
  | Some r => (p =? 0) || float_gt (relative_delta p v) r
  | None => true
  end.

(** The absolute threshold lets a sample through when it is not configured
    or when the absolute change exceeds it. *)
Definition abs_passes (args : Args) (p v : Z) : bool :=
  match min_change_abs args with
  | Some t => int_gt_float (absolute_delta p v) t
  | None => true
  end.

Definition report_rule (args : Args) (p v : Z) : bool :=
  negb (v =? p) && rel_passes args p v && abs_passes args p v.

(** Python's [0.05], the binary64 number nearest to one twentieth. *)
Definition py_0_05 : PrimFloat.float := 0x1.999999999999ap-5%float.

(** Arguments with the given thresholds and nothing else. *)
Definition thresholds (rel abs_ : option PrimFloat.float) : Args :=
  {| raw := false; min_change_rel := rel; min_change_abs := abs_;
     skip_addr_arg := [] |}.

(** ** Traces *)

(** [w'] continues [w]: its trace is the trace of [w] followed by [evs]. *)
Definition continues (w w' : World) (evs : list Event) : Prop :=
  trace w' = trace w ++ evs.

(** [m] only adds events that satisfy [P], whatever it returns. *)
Definition only_emits {A} (P : Event -> Prop) (m : M A) : Prop :=
  forall w, exists evs, continues w (snd (m w)) evs /\ Forall P evs.

(** [m] returns a value satisfying [Q], adding only events satisfying [P]. *)
Definition completes {A} (P : Event -> Prop) (Q : A -> Prop) (m : M A) : Prop :=
  forall w, exists a w' evs,
    m w = (Val a, w') /\ Q a /\ continues w w' evs /\ Forall P evs.

(** [m] first emits [ev] and then only events satisfying [P]. *)
Definition starts_with {A} (ev : Event) (P : Event -> Prop) (m : M A) : Prop :=
  forall w, exists evs, continues w (snd (m w)) (ev :: evs) /\ Forall P evs.

(** A line printed by [readRegister] or [writeRegister] on a failure. *)
Definition diagnostic (items : list Item) : Prop :=
  exists s, items = [IStr ("Received Modbus" +:+ s)].

(** Events that are not value reports: client calls, [sleep], and the
    diagnostics of a failed call. *)
Definition no_report (ev : Event) : Prop :=
  match ev with
  | EvPrint items => diagnostic items
  | EvPrintErr _ => False
  | _ => True
  end.

Definition reads_only (ev : Event) : Prop := is_read ev = true.

Definition no_print (ev : Event) : Prop := is_print ev = false.

(** Events that are not calls into the Modbus client. *)
Definition no_client_call (ev : Event) : Prop :=
  is_read ev = false /\ is_write ev = false.

(** The world after one more client call [ev] followed by [evs]. *)
Definition after_call (w : World) (ev : Event) (evs : list Event) : World :=
  {| calls := S (calls w); trace := trace w ++ ev :: evs |}.

(** What [m] adds to the trace of the empty world. *)
Definition printed {A} (m : M A) : list Event := trace (snd (m world0)).

(** The value the monitor derives at position [idx] of a buffer, for the
    catalog entry found at the address, if any. *)
Definition sample_value (cur : option (string * RegDict)) (values : list Z)
    (idx : nat) : Z :=
  match cur with
  | Some (_, cur_regdict) => assemble (take (get_length cur_regdict) (drop idx values))
  | None => nth idx values 0
  end.

(** ** Positions of the monitor walk *)

Section Positions.

Variable regs : Catalog.

(** The step of [idx] at an address, and the value the loop derives at a
    position of the buffer. *)
Definition idx_inc (addr : Z) : nat :=
  match find_addr regs addr with
  | Some (_, cur_regdict) => get_length cur_regdict
  | None => 1%nat
  end.

Definition value_at (start : Z) (values : list Z) (idx : nat) : Z :=
  match find_addr regs (start + Z.of_nat idx) with
  | Some (_, cur_regdict) => assemble (take (get_length cur_regdict) (drop idx values))
  | None => nth idx values 0
  end.

(** [reaches start values i j]: the loop variable [idx], once it is [i],
    later is [j]. *)
Inductive reaches (start : Z) (values : list Z) : nat -> nat -> Prop :=
| reaches_here i : reaches start values i i
| reaches_step i j :
    (i < length values)%nat ->
    reaches start values (i + idx_inc (start + Z.of_nat i)) j ->
    reaches start values i j.

End Positions.

(** ** Devices and catalogs *)

(** A device that answers every read with as many words as were asked for
    and never reports an error. *)
Definition healthy (dev : Transport) : Prop :=
  forall n addr count slave, exists resp,
    dev n (EvRead addr count slave) = Responds resp
    /\ isError resp = false
    /\ isExceptionResponse resp = false
    /\ length (registers resp) = Z.to_nat count.

(** Every catalog entry occupies at least one word. *)
Definition lengths_positive (regs : Catalog) : Prop :=
  forall addr, (1 <= idx_inc regs addr)%nat.

(** The device answers the next call, a read of [count] words at [addr],
    with [words] and no error. *)
Definition answers (dev : Transport) (w : World) (addr count : Z) (words : list Z)
    : Prop :=
  exists resp,
    dev (calls w) (EvRead addr count slave_id) = Responds resp
    /\ isError resp = false
    /\ isExceptionResponse resp = false
    /\ registers resp = words.

(** The replies [readRegister] and [writeRegister] turn into [None]: a
    [ModbusException] from the library, a response whose [isError()] holds,
    an [ExceptionResponse]. *)
Definition failure (r : Reply) : Prop :=
  match r with
  | RaisesModbusException _ => True
  | RaisesOther _ => False
  | Responds resp => isError resp = true \/ isExceptionResponse resp = true
  end.

(** A device whose register at [addr] holds [mem n addr] when the [n]-th
    client call arrives; writes are acknowledged. *)
Definition device_of (mem : nat -> Z -> Z) : Transport := fun n ev =>
  match ev with
  | EvRead addr count _ =>
      Responds {| isError := false; isExceptionResponse := false;
                  registers := map (fun i => mem n (addr + Z.of_nat i))
                                 (seq 0 (Z.to_nat count));
                  resp_repr := "ReadInputRegistersResponse" |}
  | _ =>
      Responds {| isError := false; isExceptionResponse := false;
                  registers := []; resp_repr := "WriteMultipleRegistersResponse" |}
  end.

(** A device that does not answer: every call raises [ModbusException]. *)
Definition silent_device : Transport := fun _ _ =>
  RaisesModbusException "Modbus Error: [Input/Output] No response received".

Definition silent_diagnostic : Event :=
  EvPrint [IStr "Received ModbusException(Modbus Error: [Input/Output] No response received) from library"].

(** A device in service mode and nothing else: bit 16 of the alarm value,
    that is bit 0 of the word at [0x7491]. *)
Definition service_alarm_memory (n : nat) (addr : Z) : Z :=
  if addr =? 0x7491 then 1 else 0.

(** The state the monitor starts from. *)
Definition initial_state : MonState := {| prior := ∅; first := true |}.

(** The generic rule for a boolean register. *)
Definition on_off (v : Z) : string := if v =? 0 then "off" else "on".

(** Catalog entries the properties refer to, as the catalog holds them. *)
Definition OUT_LX_Remote : RegDict :=
  entry 0x7400 // set_type "bool" // set_values (VDict [(0, "on"); (1, "off")]).

Definition OUT_LUI_BatteryInstalledType : RegDict :=
  entry 0x7469 // set_type "state" // set_values (VFun battery_installed_type).

(** The alarm register spans two words. *)
Definition OUT_LUDW_ActualAlarm : RegDict :=
  entry 0x7490 // set_type "bits" // set_length 2
    // set_bits
         [ (0, "end of life (SOH)"); (4, "end of life (Resistance)");
           (5, "end of life (Resistance)"); (6, "end of life (Time)");
           (7, "end of life (Voltage)"); (9, "no battery");
           (10, "inconsistent technology"); (11, "overload cutoff");
           (12, "low battery (Voltage)"); (13, "low battery (Charge)");
           (14, "low battery (Time)"); (16, "service") ].

(** A writable entry without type. *)
Definition TIME_LIMIT_MODE_CUSTOM_BUFFER_TIME : RegDict :=
  entry 0x3203 // set_mode (Some "rw")
    // set_description
         "seconds after power loss until output voltage is turned off (in custom mode only)".

(** The address a set target resolves to: that of the first catalog entry
    with the target's name or address, else the target's own numeric value. *)
Definition resolved_address (regs : Catalog) (param : string) (param_addr : option Z)
    : option Z :=
  match find_target regs param param_addr with
  | Some (_, regdict) => Some (reg_addr regdict)
  | None => param_addr
  end.

(** The catalog with every ["mode"] key replaced. *)
Definition with_modes (modes : string -> option string) (regs : Catalog) : Catalog :=
  map (fun kv => (fst kv, set_mode (modes (fst kv)) (snd kv))) regs.

(** [int(s, 0)] on the literals of the examples. *)
Definition int0_examples (s : string) : option Z :=
  dict_get s [("0x3203", 0x3203); ("120", 120); ("0x7000", 0x7000)].

(** ** Further vocabulary *)

(** The count [readRegister] hands to the client: 0 stands for 16. *)
Definition effective_count (count : Z) : Z := if count =? 0 then 0x10 else count.

(** The lines [print_value] adds for the bits of [v] that carry a label, in
    the order of the ["bits"] dict. *)
Definition bit_lines (v : Z) (bits : list (Z * string)) : list Event :=
  map (fun kv => EvPrint [IStr (" - " +:+ snd kv)])
    (filter (fun kv => Z.testbit v (fst kv) = true) bits).

(** An entry of type ["bits"] has a ["bits"] key. *)
Definition bits_key_present (regdict : RegDict) : Prop :=
  type_is regdict "bits" = true -> reg_bits regdict <> None.

(** No entry lies inside the words of another entry. *)
Definition no_overlap (regs : Catalog) : Prop :=
  forall addr k, (0 < k < idx_inc regs addr)%nat ->
    find_addr regs (addr + Z.of_nat k) = None.

(** A library that raises nothing but [ModbusException]. *)
Definition modbus_only (dev : Transport) : Prop :=
  forall n ev e, dev n ev <> RaisesOther e.

(** A device that answers every read with an empty register list. *)
Definition answers_nothing (dev : Transport) : Prop :=
  forall n addr count slave, exists resp,
    dev n (EvRead addr count slave) = Responds resp
    /\ isError resp = false
    /\ isExceptionResponse resp = false
    /\ registers resp = [].

(** The read dump issues for a catalog entry. *)
Definition entry_read (kv : string * RegDict) : Event :=
  EvRead (reg_addr (snd kv)) (effective_count (Z.of_nat (get_length (snd kv))))
    slave_id.

(** Events that are not writes to the client. *)
Definition no_write (ev : Event) : Prop := is_write ev = false.

(** The number of 16-word reads that cover [n] words. *)
Definition batches (n : Z) : nat := Z.to_nat ((n + 15) / 16).

(** Whether a run ended normally, with a value. *)
Definition returned {A} (r : Res A * World) : bool :=
  match fst r with
  | Val _ => true
  | _ => false
  end.

(** [m] run [n] times in a row; an exception in one run ends the row. *)
Fixpoint rounds (n : nat) (m : M unit) : M unit :=
  match n with
  | O => mret tt
  | S n' => m;; rounds n' m
  end.

(** One round of the get loop: every parameter, then the sleep. *)
Definition get_round (dev : Transport) (regs : Catalog) (int0 : string -> option Z)
    (read_none : M (option (list Z))) (params : list string) : M unit :=
  get_params dev regs int0 read_none params;; emit EvSleep.

(** ** The run of the monitor *)

(** The device delivers register words: every word of every answer is an
    unsigned 16-bit number. *)
Definition sends_words (dev : Transport) : Prop :=
  forall n ev resp, dev n ev = Responds resp -> Forall word16 (registers resp).

(** No catalog entry is longer than 63 words. *)
Definition lengths_bounded (regs : Catalog) : Prop :=
  forall addr, (idx_inc regs addr <= 63)%nat.

(** Every ["bits"] entry of the catalog has its ["bits"] key. *)
Definition decodable (regs : Catalog) : Prop :=
  Forall (fun kv => bits_key_present (snd kv)) regs.

(** The ranges lie one after the other, each buffer of whole 16-word reads
    ending before the next range starts. *)
Fixpoint separated (ranges : list (Z * Z)) : Prop :=
  match ranges with
  | [] => True
  | range :: rest =>
      Forall (fun later =>
                fst range + 16 * Z.of_nat (batches (snd range - fst range)) <= fst later)
        rest
      /\ separated rest
  end.

(** The addresses [default_skip] stands for in the catalog. *)
Definition default_skip_addresses : list Z :=
  [0x6c0c; 0x6c10; 0x7430; 0x7477; 0x7431;
   0x740b; 0x740c; 0x740d; 0x7432; 0x743c; 0x743d; 0x746c; 0x7478].

(** The skip set of a monitor run. *)
Definition skip_set (args : Args) : list Z := skip_addr_arg args ++ default_skip_addresses.

(** The client calls of one polling pass: five, ten and ten reads. *)
Definition reads_per_pass (ranges : list (Z * Z)) : nat :=
  foldr (fun range n => (batches (snd range - fst range) + n)%nat) 0%nat ranges.

Section MonitorRun.

Variable dev : Transport.
Variable regs : Catalog.

(** [rule p v]: whether a change from the prior value [p] to the new value
    [v] is reported. *)
Variable rule : Z -> Z -> bool.
Variable skip : list Z.

(** The words the device hands to the 16-word read that is client call
    [n]. *)
Definition delivered (n : nat) (addr : Z) : list Z :=
  match dev n (EvRead addr 16 slave_id) with
  | Responds resp => registers resp
  | _ => []
  end.

(** The reads that fill the buffer of a range, and the buffer when the first
    of them is client call [c]. *)
Definition range_reads (range : Z * Z) : list Event :=
  map (fun k => EvRead (fst range + 16 * Z.of_nat k) 16 slave_id)
    (seq 0 (batches (snd range - fst range))).

Definition buffer (c : nat) (range : Z * Z) : list Z :=
  flat_map (fun k => delivered (c + k) (fst range + 16 * Z.of_nat k))
    (seq 0 (batches (snd range - fst range))).

(** The positions of a buffer of [len] words at which a value is derived,
    from [idx] on: a catalog entry takes as many positions as it has words.
    With entries of at least one word, [len] steps reach the end. *)
Fixpoint visited (start : Z) (len : nat) (fuel idx : nat) : list nat :=
  match fuel with
  | O => []
  | S fuel' =>
      if (idx <? len)%nat then
        idx :: visited start len fuel' (idx + idx_inc regs (start + Z.of_nat idx))
      else []
  end.

(** The positions whose address is not in the skip set. *)
Definition sampled (start : Z) (len : nat) : list nat :=
  filter (fun j => start + Z.of_nat j ∉ skip) (visited start len len 0).

(** The line, or lines, that report the value [v] of an address. *)
Definition report_lines (now : Z -> string) (addr v : Z) : list Event :=
  match find_addr regs addr with
  | Some (reg, regdict) =>
      printed (print_value reg (InfoDict regdict) (PInt v) (now addr +:+ " "))
  | None => [EvPrint [IStr ((now addr +:+ " ") +:+ hex02 addr); IVal (PInt v)]]
  end.

(** What is reported at position [j] of a range: the value [v] of this pass
    against the value [p] of the pass before. *)
Definition report_at (now : Z -> string) (start : Z) (before values : list Z)
    (j : nat) : list Event :=
  let p := value_at regs start before j in
  let v := value_at regs start values j in
  if rule p v then report_lines now (start + Z.of_nat j) v else [].

Definition range_reports (now : Z -> string) (start : Z) (before values : list Z)
    : list Event :=
  flat_map (report_at now start before values) (sampled start (length values)).

(** The events of one pass over [ranges] whose first read is client call
    [c], the pass before having started at call [c_prev]: for each range its
    reads and then, unless the pass is the warm-up, its reports. *)
Fixpoint ranges_events (now : Z -> string) (warm : bool) (ranges : list (Z * Z))
    (c_prev c : nat) : list Event :=
  match ranges with
  | [] => []
  | range :: rest =>
      range_reads range
      ++ (if warm
          then range_reports now (fst range) (buffer c_prev range) (buffer c range)
          else [])
      ++ ranges_events now warm rest
           (c_prev + batches (snd range - fst range))
           (c + batches (snd range - fst range))
  end.

Definition pass_events (now : Z -> string) (warm : bool) (ranges : list (Z * Z))
    (c_prev c : nat) : list Event :=
  ranges_events now warm ranges c_prev c ++ [EvSleep].



(** [prior_] holds, for every sampled position of every range, the value of
    the pass whose first read was client call [c]. *)
Fixpoint baseline (ranges : list (Z * Z)) (c : nat) (prior_ : gmap Z Z) : Prop :=
  match ranges with
  | [] => True
  | range :: rest =>
      (forall j, In j (sampled (fst range) (length (buffer c range))) ->
         prior_ !! (fst range + Z.of_nat j)
         = Some (value_at regs (fst range) (buffer c range) j))
      /\ baseline rest (c + batches (snd range - fst range)) prior_
  end.

End MonitorRun.




(** What the passes after the warm-up rely on: register words, and a
    catalog whose entries can be decoded and are not too long. *)
Definition warm_conditions (dev : Transport) (regs : Catalog) : Prop :=
  sends_words dev /\ lengths_bounded regs /\ decodable regs.


(** ** The scan of dumpall *)

Section Scan.

Variable dev : Transport.
Variable regs : Catalog.

(** The addresses the scan reads from [i] on: below [0x7500], and the words
    of a catalog entry after its first are passed over. *)
Fixpoint scanned (fuel : nat) (i : Z) : list Z :=
  match fuel with
  | O => []
  | S fuel' =>
      if i <? 0x7500 then i :: scanned fuel' (i + Z.of_nat (idx_inc regs i)) else []
  end.

(** The words the device hands to the one-word read that is client call
    [n]. *)
Definition answer (n : nat) (i : Z) : list Z :=
  match dev n (EvRead i 1 slave_id) with
  | Responds resp => registers resp
  | _ => []
  end.

(** The output for an address that answered [words]: a catalog address is
    decoded; any other address gives a raw line, unless the answer is the
    single word [0xFFFF]. *)
Definition scan_lines (i : Z) (words : list Z) : list Event :=
  match find_addr regs i with
  | Some (reg, regdict) => printed (print_value reg (InfoDict regdict) (PList words) "")
  | None =>
      if bool_decide (words = [65535]) then []
      else [EvPrint [IStr (hex02 i); IVal (PList words)]]
  end.

(** The events of the scan over [addrs], the first read being client call
    [c]. *)
Fixpoint scan_events (c : nat) (addrs : list Z) : list Event :=
  match addrs with
  | [] => []
  | i :: rest =>
      EvRead i 1 slave_id :: scan_lines i (answer c i) ++ scan_events (S c) rest
  end.

End Scan.

(** A device whose words are all 0, except for [word] at address [a]. *)
Definition holding (a word : Z) : Transport :=
  device_of (fun _ i => if i =? a then word else 0).

(** The lines at the head of a list of events. *)
Fixpoint leading_lines (evs : list Event) : list Event :=
  match evs with
  | EvPrint items :: rest => EvPrint items :: leading_lines rest
  | _ => []
  end.

(** What a run printed between its read of address [i] and its next client
    call. *)
Fixpoint output_at (i : Z) (evs : list Event) : list Event :=
  match evs with
  | [] => []
  | ev :: rest =>
      if bool_decide (ev = EvRead i 1 slave_id) then leading_lines rest
      else output_at i rest
  end.

(** * Properties *)

(** ** The catalog and the printer on examples *)

Example catalog_size : length Quint24DCRegisters = 33%nat.
Proof. reflexivity. Qed.

Example hex02_examples :
  hex02 0x7400 = "0x7400" /\ hex02 5 = "0x05" /\ hex02 0xab = "0xab" /\ hex02 0 = "0x00".
Proof. repeat split. Qed.

Example print_remote_0 :
  match find_addr Quint24DCRegisters 0x7400 with
  | Some (reg, regdict) =>
      trace (snd (print_value reg (InfoDict regdict) (PList [0]) "" world0))
  | None => []
  end = [EvPrint [IStr "OUT_LX_Remote:"; IStr "on"]].
Proof. reflexivity. Qed.

(** ** Word assembly *)

Lemma lor_shiftl_add (a b n : Z) :
  0 <= n -> 0 <= a < 2 ^ n -> 0 <= b -> Z.lor a (Z.shiftl b n) = a + b * 2 ^ n.
Proof.
  intros Hn Ha Hb.
  rewrite Z.shiftl_mul_pow2 by lia.
  assert (Hland : Z.land a (b * 2 ^ n) = 0).
  { apply Z.bits_inj'. intros m Hm.
    rewrite Z.land_spec, Z.bits_0.
    destruct (Z_lt_le_dec m n) as [Hlt | Hge].
    - rewrite Z.mul_pow2_bits_low by lia. apply andb_false_r.
    - replace a with (a mod 2 ^ n) by (apply Z.mod_small; lia).
      rewrite Z.mod_pow2_bits_high by lia. reflexivity. }
  rewrite <- (Z.lxor_lor _ _ Hland).
  symmetry. apply Z.add_nocarry_lxor. exact Hland.
Qed.

Lemma foldr_add_snoc (l : list Z) (x : Z) :
  foldr Z.add 0 (l ++ [x]) = foldr Z.add 0 l + x.
Proof. induction l as [| y l IH]; simpl; lia. Qed.

Lemma nth_word16 (words : list Z) (i : nat) :
  Forall word16 words -> 0 <= nth i words 0 < 65536.
Proof.
  intros H. revert i. induction H as [| w l Hw _ IH]; intros [| i]; simpl;
    try lia; [exact Hw | apply IH].
Qed.

(** The loop invariant of the [|=] loop: after [k] turns the accumulator is
    the sum of the first [k] terms and fits in [16*k] bits. *)
Lemma or_loop_invariant (words : list Z) (k : nat) :
  Forall word16 words ->
  let acc :=
    fold_left
      (fun value i => Z.lor value (Z.shiftl (nth i words 0) (16 * Z.of_nat i)))
      (seq 0 k) 0 in
  acc = foldr Z.add 0 (map (fun i => nth i words 0 * 2 ^ (16 * Z.of_nat i)) (seq 0 k))
  /\ 0 <= acc < 2 ^ (16 * Z.of_nat k).
Proof.
  intros Hw. induction k as [| k [IHeq IHb]].
  - simpl. split; [reflexivity | lia].
  - cbv zeta in *. rewrite seq_S, fold_left_app, map_app.
    cbn [map fold_left Nat.add]. rewrite foldr_add_snoc.
    pose proof (nth_word16 words k Hw) as Hk.
    rewrite lor_shiftl_add by lia.
    split; [rewrite IHeq; reflexivity |].
    replace (16 * Z.of_nat (S k)) with (16 * Z.of_nat k + 16) by lia.
    rewrite Z.pow_add_r by lia.
    change (2 ^ 16) with 65536. nia.
Qed.

Lemma or_words_sum (words : list Z) :
  Forall word16 words -> or_words words = weighted_sum words.
Proof. intros Hw. apply (or_loop_invariant words (length words) Hw). Qed.

Lemma assemble_sum (words : list Z) :
  Forall word16 words -> assemble words = weighted_sum words.
Proof.
  intros Hw. destruct words as [| w [| w' rest]].
  - reflexivity.
  - unfold weighted_sum. simpl. lia.
  - apply (or_words_sum _ Hw).
Qed.

(** On a warm-up pass [sample] only records the value. *)
Lemma sample_first regs args st now addr cur values idx w :
  first st = true ->
  sample regs args st now addr cur values idx w =
  (Val (<[addr :=
           match cur with
           | Some (_, cur_regdict) =>
               assemble (take (get_length cur_regdict) (drop idx values))
           | None => nth idx values 0
           end]> (prior st)), w).
Proof.
  intros Hf. unfold sample. destruct cur as [[reg rd] |]; rewrite Hf; reflexivity.
Qed.



(** ** The change gate of the monitor *)

Lemma abs_sub_swap (p v : Z) : Z.abs (p - v) = Z.abs (v - p).
Proof. lia. Qed.

Lemma true_divide_fits (a p : Z) :
  0 < p -> Z.abs a < overflow_bound * p ->
  true_divide (Z.abs a) p = Val (nearest_quotient (Z.abs a) p).
Proof.
  intros Hp Hfit. unfold true_divide.
  destruct (Z.eqb_spec p 0) as [-> | _]; [lia |].
  rewrite Z.abs_idemp, (Z.abs_eq p) by lia.
  destruct (Z.leb_spec (overflow_bound * p) (Z.abs a)); [lia | reflexivity].
Qed.

Lemma compute_show_prior (args : Args) (p v : Z) :
  0 <= p -> (p <> 0 -> quotient_fits p v) ->
  compute_show args (Some p) v = Val (report_rule args p v).
Proof.
  intros Hp Hfit. unfold compute_show, report_rule, rel_passes, abs_passes,
    float_gt, relative_delta, absolute_delta, rel_change, truthy. cbv zeta.
  rewrite (Z.abs_eq p Hp), (abs_sub_swap p v).
  assert (Hne : negb (bool_decide (Some p = Some v)) = negb (v =? p)).
  { f_equal. case_bool_decide as H; destruct (Z.eqb_spec v p); congruence. }
  rewrite Hne.
  destruct (Z.eqb_spec p 0) as [-> | Hp0].
  - cbn [negb]. rewrite andb_false_r.
    destruct (negb (v =? 0)), (min_change_rel args) as [r |],
      (min_change_abs args) as [t |]; reflexivity.
  - assert (Hdiv : true_divide (Z.abs (v - p)) p
                   = Val (nearest_quotient (Z.abs (v - p)) p)).
    { apply true_divide_fits; [lia |]. specialize (Hfit Hp0).
      unfold quotient_fits in Hfit. rewrite (Z.abs_eq p Hp) in Hfit. exact Hfit. }
    rewrite Hdiv.
    destruct (negb (v =? p)), (min_change_rel args) as [r |],
      (min_change_abs args) as [t |]; cbn; try reflexivity;
      destruct (PrimFloat.ltb r _); reflexivity.
Qed.

(** After the warm-up pass a sample with a prior value is printed exactly
    when [report_rule] holds; the value is stored either way. *)
Lemma sample_after_warmup regs args st now addr cur values idx w p :
  first st = false -> prior st !! addr = Some p -> 0 <= p ->
  (p <> 0 -> quotient_fits p (sample_value cur values idx)) ->
  sample regs args st now addr cur values idx w =
  let value := sample_value cur values idx in
  if report_rule args p value then
    (match cur with
     | Some (reg, cur_regdict) =>
         print_value reg (InfoDict cur_regdict) (PInt value) (now +:+ " ")
     | None => print_value (last_reg regs) (InfoAddr addr) (PInt value) (now +:+ " ")
     end;;
     mret (<[addr := value]> (prior st))) w
  else (Val (<[addr := value]> (prior st)), w).
Proof.
  intros Hf Hp Hp0 Hfit. unfold sample, sample_value in *.
  destruct cur as [[reg rd] |]; rewrite Hf, Hp; cbv zeta;
    unfold lift, mbind, M_bind; rewrite (compute_show_prior _ _ _ Hp0 Hfit);
    destruct (report_rule args p _); reflexivity.
Qed.

(** ** Traces *)

Lemma only_emits_ret {A} P (a : A) : only_emits P (mret a).
Proof. intros w. exists []. split; [symmetry; apply app_nil_r | constructor]. Qed.

Lemma only_emits_raise {A} P e : only_emits P (@raise A e).
Proof. intros w. exists []. split; [symmetry; apply app_nil_r | constructor]. Qed.

Lemma only_emits_fuel {A} P : only_emits P (@out_of_fuel A).
Proof. intros w. exists []. split; [symmetry; apply app_nil_r | constructor]. Qed.

Lemma only_emits_emit P ev : P ev -> only_emits P (emit ev).
Proof. intros H w. exists [ev]. split; [reflexivity | repeat constructor; exact H]. Qed.

Lemma only_emits_bind {A B} P (m : M A) (f : A -> M B) :
  only_emits P m -> (forall a, only_emits P (f a)) -> only_emits P (m ≫= f).
Proof.
  intros Hm Hf w. destruct (Hm w) as (evs & Hc & HP).
  unfold mbind, M_bind. destruct (m w) as [[a | e |] w1] eqn:E; simpl in *.
  - destruct (Hf a w1) as (evs' & Hc' & HP').
    exists (evs ++ evs'). split.
    + unfold continues in *. rewrite Hc', Hc. symmetry. apply app_assoc.
    + apply Forall_app. split; assumption.
  - exists evs. split; assumption.
  - exists evs. split; assumption.
Qed.

Lemma new_events_continues {A} (m : M A) w evs :
  continues w (snd (m w)) evs -> new_events m w = evs.
Proof.
  unfold continues, new_events. intros ->. apply drop_app_length.
Qed.

Lemma only_emits_new_events {A} P (m : M A) w :
  only_emits P m -> Forall P (new_events m w).
Proof.
  intros H. destruct (H w) as (evs & Hc & HP).
  rewrite (new_events_continues _ _ _ Hc). exact HP.
Qed.

Lemma only_emits_request dev P ev : P ev -> only_emits P (request dev ev).
Proof. intros H w. exists [ev]. split; [reflexivity | repeat constructor; exact H]. Qed.

Lemma readRegister_no_report dev addr count :
  only_emits no_report (readRegister dev addr count).
Proof.
  unfold readRegister. apply only_emits_bind; [apply only_emits_request; exact I |].
  intros [e | e | resp].
  - repeat (apply only_emits_bind; [| intros _]);
      [apply only_emits_emit | apply only_emits_emit; exact I | apply only_emits_ret].
    exists ("Exception(" +:+ e +:+ ") from library"). reflexivity.
  - apply only_emits_raise.
  - destruct (isError resp); [| destruct (isExceptionResponse resp)].
    + repeat (apply only_emits_bind; [| intros _]);
        [apply only_emits_emit | apply only_emits_emit; exact I | apply only_emits_ret].
      exists (" library error(" +:+ resp_repr resp +:+ ")"). reflexivity.
    + repeat (apply only_emits_bind; [| intros _]);
        [apply only_emits_emit | apply only_emits_emit; exact I | apply only_emits_ret].
      exists (" library exception (" +:+ resp_repr resp +:+ ")"). reflexivity.
    + apply only_emits_ret.
Qed.

(** ** The warm-up pass *)

Section WarmUp.

Variable dev : Transport.
Variable regs : Catalog.
Variable args : Args.

Lemma sample_val st now addr cur values idx w p1 w1 :
  sample regs args st now addr cur values idx w = (Val p1, w1) ->
  exists v, p1 = <[addr := v]> (prior st).
Proof.
  unfold sample. destruct cur as [[reg rd] |]; intros H.
  - exists (assemble (take (get_length rd) (drop idx values))).
    unfold mbind, M_bind in H.
    repeat match type of H with
           | context [match ?x with _ => _ end] => destruct x
           end; inversion H; reflexivity.
  - exists (nth idx values 0).
    unfold mbind, M_bind in H.
    repeat match type of H with
           | context [match ?x with _ => _ end] => destruct x
           end; inversion H; reflexivity.
Qed.

Lemma walk_unfold fuel first_ now skip start values idx prior_ :
  walk regs args (S fuel) first_ now skip start values idx prior_ =
  if (idx <? length values)%nat then
    let addr := start + Z.of_nat idx in
    if bool_decide (addr ∈ skip) then
      walk regs args fuel first_ now skip start values (idx + idx_inc regs addr) prior_
    else
      sample regs args {| prior := prior_; first := first_ |} (now addr) addr
        (find_addr regs addr) values idx
      ≫= λ prior', walk regs args fuel first_ now skip start values
                      (idx + idx_inc regs addr) prior'
  else mret prior_.
Proof. reflexivity. Qed.

(** Below the current position the walk leaves [prior] alone. *)
Lemma walk_frame fuel first_ now skip start values :
  forall idx prior_ w prior' w',
  walk regs args fuel first_ now skip start values idx prior_ w = (Val prior', w') ->
  forall a, a < start + Z.of_nat idx -> prior' !! a = prior_ !! a.
Proof.
  induction fuel as [| fuel IH]; intros idx prior_ w prior' w' H a Ha;
    [discriminate |].
  rewrite walk_unfold in H. destruct (idx <? length values)%nat.
  - cbv zeta in H. destruct (bool_decide _).
    + apply (IH _ _ _ _ _ H). lia.
    + unfold mbind, M_bind in H.
      destruct (sample _ _ _ _ _ _ _ _ w) as [[p1 | e |] w1] eqn:Es;
        try discriminate.
      apply sample_val in Es as [v ->]. simpl in H.
      rewrite (IH _ _ _ _ _ H) by lia.
      apply lookup_insert_ne. lia.
  - inversion H. reflexivity.
Qed.

(** On a warm-up pass the walk adds no event and raises nothing. *)
Lemma walk_first_silent fuel now skip start values :
  forall idx prior_ w,
  snd (walk regs args fuel true now skip start values idx prior_ w) = w
  /\ forall e, fst (walk regs args fuel true now skip start values idx prior_ w) <> Exc e.
Proof.
  induction fuel as [| fuel IH]; intros idx prior_ w; [split; [reflexivity | discriminate] |].
  rewrite walk_unfold. destruct (idx <? length values)%nat;
    [| split; [reflexivity | discriminate]].
  cbv zeta. destruct (bool_decide _); [apply IH |].
  unfold mbind, M_bind. rewrite sample_first by reflexivity. apply IH.
Qed.

(** On a warm-up pass every position the loop reaches, outside the skip
    set, has its value recorded as the prior. *)
Lemma walk_first_records fuel now skip start values :
  forall idx prior_ w prior' w',
  walk regs args fuel true now skip start values idx prior_ w = (Val prior', w') ->
  forall j, reaches regs start values idx j -> (j < length values)%nat ->
  start + Z.of_nat j ∉ skip ->
  prior' !! (start + Z.of_nat j) = Some (value_at regs start values j).
Proof.
  induction fuel as [| fuel IH]; intros idx prior_ w prior' w' H j Hr Hj Hskip;
    [discriminate |].
  rewrite walk_unfold in H.
  destruct (Nat.ltb_spec idx (length values)) as [Hlt | Hge].
  - cbv zeta in H. destruct Hr as [i | i j Hi Hr].
    + rewrite bool_decide_eq_false_2 in H by exact Hskip.
      unfold mbind, M_bind in H. rewrite sample_first in H by reflexivity.
      simpl in H.
      destruct (idx_inc regs (start + Z.of_nat i)) as [| n] eqn:Einc.
      * rewrite Nat.add_0_r in H.
        apply (IH _ _ _ _ _ H i (reaches_here _ _ _ _) Hj Hskip).
      * rewrite (walk_frame _ _ _ _ _ _ _ _ _ _ _ H) by lia.
        rewrite lookup_insert_eq. reflexivity.
    + destruct (bool_decide _).
      * apply (IH _ _ _ _ _ H j Hr Hj Hskip).
      * unfold mbind, M_bind in H. rewrite sample_first in H by reflexivity.
        apply (IH _ _ _ _ _ H j Hr Hj Hskip).
  - destruct Hr; lia.
Qed.

End WarmUp.

(** ** Runs that complete *)

Lemma completes_ret {A} P (Q : A -> Prop) a : Q a -> completes P Q (mret a).
Proof.
  intros H w. exists a, w, []. repeat split; try assumption.
  - symmetry. apply app_nil_r.
  - constructor.
Qed.

Lemma completes_emit P ev : P ev -> completes P (fun _ => True) (emit ev).
Proof.
  intros H w. eexists tt, _, [ev]. repeat split. repeat constructor. exact H.
Qed.

Lemma completes_bind {A B} P (Q : A -> Prop) (R : B -> Prop) (m : M A) (f : A -> M B) :
  completes P Q m -> (forall a, Q a -> completes P R (f a)) -> completes P R (m ≫= f).
Proof.
  intros Hm Hf w. destruct (Hm w) as (a & w1 & evs & E & Ha & Hc & HP).
  destruct (Hf a Ha w1) as (b & w2 & evs' & E' & Hb & Hc' & HP').
  exists b, w2, (evs ++ evs'). split; [| split; [exact Hb | split]].
  - unfold mbind, M_bind. rewrite E. exact E'.
  - unfold continues in *. rewrite Hc', Hc. symmetry. apply app_assoc.
  - apply Forall_app. split; assumption.
Qed.

Lemma Quint24DC_lengths_positive : lengths_positive Quint24DCRegisters.
Proof.
  assert (H : forallb (fun kv => (1 <=? get_length (snd kv))%nat)
                Quint24DCRegisters = true) by (vm_compute; reflexivity).
  intros addr. unfold idx_inc.
  induction Quint24DCRegisters as [| [reg rd] rest IH]; simpl; [lia |].
  simpl in H. apply andb_prop in H as [H1 H2].
  destruct (reg_addr rd =? addr); [apply Nat.leb_le; exact H1 | apply IH; exact H2].
Qed.

Section Completion.

Variable dev : Transport.
Variable regs : Catalog.
Variable args : Args.
Hypothesis Hdev : healthy dev.
Hypothesis Hregs : lengths_positive regs.

Lemma readRegister_healthy addr :
  completes reads_only (fun r => exists l, r = Some l /\ length l = 16%nat)
    (readRegister dev addr 0).
Proof.
  intros w. unfold readRegister. change (0 =? 0) with true. cbv iota.
  destruct (Hdev (calls w) addr 16 slave_id) as (resp & E & He & Hx & Hl).
  exists (Some (registers resp)),
    {| calls := S (calls w); trace := trace w ++ [EvRead addr 16 slave_id] |},
    [EvRead addr 16 slave_id].
  split; [| split; [| split]].
  - unfold mbind, M_bind, request. rewrite E, He, Hx. reflexivity.
  - exists (registers resp). split; [reflexivity | exact Hl].
  - reflexivity.
  - repeat constructor.
Qed.

Lemma read_range_healthy start end_ :
  forall fuel values,
  (Z.to_nat (end_ - start) - length values < fuel)%nat ->
  completes reads_only
    (fun vs => (length vs <= Nat.max (length values) (Z.to_nat (end_ - start) + 15))%nat)
    (read_range dev fuel start end_ values).
Proof.
  induction fuel as [| fuel IH]; intros values Hfuel; [lia |].
  simpl. destruct (Z.ltb_spec (Z.of_nat (length values)) (end_ - start)) as [Hlt | Hge].
  - eapply completes_bind; [apply readRegister_healthy |].
    intros r (l & -> & Hl).
    assert (Hlen : length (values ++ l) = (length values + 16)%nat)
      by (rewrite length_app, Hl; reflexivity).
    intros w. destruct (IH (values ++ l)) with (w := w)
      as (vs & w' & evs & E & Hvs & Hc & HP); [rewrite Hlen; lia |].
    exists vs, w', evs. repeat split; try assumption. rewrite Hlen in Hvs. lia.
  - apply completes_ret. lia.
Qed.

Lemma walk_first_total now skip start values :
  forall fuel idx prior_,
  (length values - idx < fuel)%nat ->
  completes (fun _ => False) (fun _ => True)
    (walk regs args fuel true now skip start values idx prior_).
Proof.
  induction fuel as [| fuel IH]; intros idx prior_ Hfuel; [lia |].
  rewrite walk_unfold.
  destruct (Nat.ltb_spec idx (length values)) as [Hlt | Hge];
    [| apply completes_ret; exact I].
  cbv zeta. pose proof (Hregs (start + Z.of_nat idx)) as Hinc.
  destruct (bool_decide _); [apply IH; lia |].
  intros w. unfold mbind, M_bind. rewrite sample_first by reflexivity.
  apply IH. lia.
Qed.

End Completion.

Lemma completes_weaken {A} (P P' : Event -> Prop) (Q Q' : A -> Prop) (m : M A) :
  (forall ev, P ev -> P' ev) -> (forall a, Q a -> Q' a) ->
  completes P Q m -> completes P' Q' m.
Proof.
  intros HPP HQQ H w. destruct (H w) as (a & w' & evs & E & Ha & Hc & HP).
  exists a, w', evs. repeat split; auto. eapply Forall_impl; eauto.
Qed.

Section WarmUpPass.

Variable dev : Transport.
Variable regs : Catalog.
Variable args : Args.

Lemma read_range_no_report start end_ :
  forall fuel values, only_emits no_report (read_range dev fuel start end_ values).
Proof.
  induction fuel as [| fuel IH]; intros values; [apply only_emits_fuel |].
  simpl. destruct (_ <? _); [| apply only_emits_ret].
  apply only_emits_bind; [apply readRegister_no_report |].
  intros [words |]; [apply IH | apply only_emits_raise].
Qed.

Lemma walk_first_no_report fuel now skip start values idx prior_ :
  only_emits no_report (walk regs args fuel true now skip start values idx prior_).
Proof.
  intros w. exists [].
  destruct (walk_first_silent regs args fuel now skip start values idx prior_ w)
    as [Hw _].
  split; [unfold continues; rewrite Hw; symmetry; apply app_nil_r | constructor].
Qed.

Lemma monitor_range_first_no_report fuel now skip range prior_ :
  only_emits no_report (monitor_range dev regs args fuel true now skip range prior_).
Proof.
  destruct range as [start end_]. unfold monitor_range.
  apply only_emits_bind; [apply read_range_no_report |].
  intros values. apply walk_first_no_report.
Qed.

Lemma monitor_ranges_first_no_report fuel now skip ranges :
  forall prior_,
  only_emits no_report (monitor_ranges dev regs args fuel true now skip ranges prior_).
Proof.
  induction ranges as [| range rest IH]; intros prior_; simpl;
    [apply only_emits_ret |].
  apply only_emits_bind; [apply monitor_range_first_no_report | exact IH].
Qed.

Lemma monitor_cycle_first_no_report fuel now skip st :
  first st = true ->
  only_emits no_report (monitor_cycle dev regs args fuel now skip st).
Proof.
  intros Hf. unfold monitor_cycle. rewrite Hf.
  apply only_emits_bind; [apply monitor_ranges_first_no_report |].
  intros prior'. apply only_emits_bind; [apply only_emits_emit; exact I |].
  intros _. apply only_emits_ret.
Qed.

Lemma extend_default_skip_silent entries :
  forall skip, only_emits no_report (extend_default_skip regs skip entries).
Proof.
  induction entries as [| [name | a] rest IH]; intros skip; simpl.
  - apply only_emits_ret.
  - destruct (dict_get name regs); [apply IH | apply only_emits_raise].
  - apply IH.
Qed.

Lemma monitor_cycle_flag fuel now skip st w st' w' :
  monitor_cycle dev regs args fuel now skip st w = (Val st', w') -> first st' = false.
Proof.
  unfold monitor_cycle, mbind, M_bind. intros H.
  destruct (monitor_ranges _ _ _ _ _ _ _ _ _ w) as [[p | e |] w1]; try discriminate.
  simpl in H. inversion H. reflexivity.
Qed.

(** The monitor action cut after its first pass reports nothing. *)
Lemma monitor_first_pass_no_report fuel now :
  only_emits no_report (monitor dev regs args 1 fuel now).
Proof.
  unfold monitor, monitor_skip_addr.
  apply only_emits_bind; [apply extend_default_skip_silent |].
  intros skip. cbn [monitor_cycles].
  apply only_emits_bind; [apply monitor_cycle_first_no_report; reflexivity |].
  intros st'. apply only_emits_ret.
Qed.

Hypothesis Hdev : healthy dev.
Hypothesis Hregs : lengths_positive regs.

Lemma monitor_range_first_completes fuel now skip start end_ prior_ :
  (Z.to_nat (end_ - start) + 16 <= fuel)%nat ->
  completes no_print (fun _ => True)
    (monitor_range dev regs args fuel true now skip (start, end_) prior_).
Proof.
  intros Hfuel. unfold monitor_range.
  eapply completes_bind.
  - eapply completes_weaken;
      [| | apply (read_range_healthy dev Hdev start end_ fuel [])]; simpl.
    + intros [] H; try discriminate H; reflexivity.
    + intros vs Hvs. exact Hvs.
    + lia.
  - intros values Hvs. simpl in Hvs.
    eapply completes_weaken;
      [| | apply (walk_first_total regs args Hregs now skip start values)].
    + intros ev [].
    + trivial.
    + lia.
Qed.

Lemma monitor_cycle_first_completes fuel now skip st :
  first st = true -> (176 <= fuel)%nat ->
  completes no_print (fun st' => first st' = false)
    (monitor_cycle dev regs args fuel now skip st).
Proof.
  intros Hf Hfuel. unfold monitor_cycle. rewrite Hf.
  eapply completes_bind with (Q := fun _ => True).
  - unfold Quint24DCMonitorRegisters. simpl.
    repeat (eapply completes_bind with (Q := fun _ => True);
            [apply monitor_range_first_completes; vm_compute in *; lia | intros ? _]).
    apply completes_ret. exact I.
  - intros prior' _. eapply completes_bind; [apply completes_emit; reflexivity |].
    intros _ _. apply completes_ret. reflexivity.
Qed.

End WarmUpPass.

Lemma device_of_healthy mem : healthy (device_of mem).
Proof.
  intros n addr count slave. eexists. split; [reflexivity |].
  repeat split. simpl. rewrite length_map, length_seq. reflexivity.
Qed.

(** ** Decoding *)

Lemma print_value_mapped reg regdict values prefix d v label w :
  reg_values regdict = Some (VDict d) -> value_of values = Some v ->
  dict_get v d = Some label ->
  print_value reg (InfoDict regdict) values prefix w =
  print [IStr (prefix +:+ reg +:+ ":"); IStr label] w.
Proof.
  intros Hd Hv Hl. unfold print_value. rewrite Hd, Hv, Hl. reflexivity.
Qed.

Lemma print_value_bool_generic reg regdict values prefix v w :
  type_is regdict "bool" = true -> value_of values = Some v ->
  match reg_values regdict with
  | Some (VDict d) => dict_get v d = None
  | Some (VFun _) => False
  | None => True
  end ->
  print_value reg (InfoDict regdict) values prefix w =
  print [IStr (prefix +:+ reg +:+ ":"); IStr (on_off v)] w.
Proof.
  intros Ht Hv Hm. unfold print_value. rewrite Hv.
  destruct (reg_values regdict) as [[d | f] |]; [rewrite Hm | contradiction |];
    rewrite Ht; unfold truthy, on_off; destruct (v =? 0); reflexivity.
Qed.

Lemma catalog_OUT_LX_Remote :
  dict_get "OUT_LX_Remote" Quint24DCRegisters = Some OUT_LX_Remote
  /\ find_addr Quint24DCRegisters 0x7400 = Some ("OUT_LX_Remote", OUT_LX_Remote).
Proof. split; reflexivity. Qed.

Lemma catalog_OUT_LUI_BatteryInstalledType :
  dict_get "OUT_LUI_BatteryInstalledType" Quint24DCRegisters
  = Some OUT_LUI_BatteryInstalledType
  /\ find_addr Quint24DCRegisters 0x7469
     = Some ("OUT_LUI_BatteryInstalledType", OUT_LUI_BatteryInstalledType).
Proof. split; reflexivity. Qed.

(** C8, as stated, fails: ["OUT_LX_Remote"] is a boolean register with the
    map [{0: "on", 1: "off"}]; for the raw value 2 the map has no entry and
    the decoder falls back to the generic rule (nonzero gives "on") although a
    map is given. *)
Lemma C8_generic_rule_despite_map :
  type_is OUT_LX_Remote "bool" = true
  /\ reg_values OUT_LX_Remote = Some (VDict [(0, "on"); (1, "off")])
  /\ dict_get 2 [(0, "on"); (1, "off")] = @None string
  /\ printed (print_value "OUT_LX_Remote" (InfoDict OUT_LX_Remote) (PList [2]) "")
     = [EvPrint [IStr "OUT_LX_Remote:"; IStr (on_off 2)]].
Proof. repeat split. Qed.

(** C8, amended. Decoding a boolean register honors its map whenever the
    map has an entry for the raw value (the map [{0: "on", 1: "off"}] with
    raw value 0 yields "on"), and falls back to the generic rule (zero yields
    "off", nonzero yields "on") when no map is given or the map has no entry
    for the raw value. *)
Theorem C8_bool_map_then_generic reg regdict values prefix v w :
  type_is regdict "bool" = true ->
  value_of values = Some v ->
  (forall d label,
     reg_values regdict = Some (VDict d) -> dict_get v d = Some label ->
     print_value reg (InfoDict regdict) values prefix w =
     print [IStr (prefix +:+ reg +:+ ":"); IStr label] w)
  /\ (forall d,
        reg_values regdict = Some (VDict d) -> dict_get v d = None ->
        print_value reg (InfoDict regdict) values prefix w =
        print [IStr (prefix +:+ reg +:+ ":"); IStr (on_off v)] w)
  /\ (reg_values regdict = None ->
      print_value reg (InfoDict regdict) values prefix w =
      print [IStr (prefix +:+ reg +:+ ":"); IStr (on_off v)] w)
  /\ printed (print_value "OUT_LX_Remote" (InfoDict OUT_LX_Remote) (PList [0]) "")
     = [EvPrint [IStr "OUT_LX_Remote:"; IStr "on"]].
Proof.
  intros Ht Hv. split; [| split; [| split]].
  - intros d label Hd Hl. eapply print_value_mapped; eassumption.
  - intros d Hd Hl. apply print_value_bool_generic; try assumption.
    rewrite Hd. exact Hl.
  - intros Hn. apply print_value_bool_generic; try assumption.
    rewrite Hn. exact I.
  - reflexivity.
Qed.

Lemma C8_bool_map_then_generic_witness :
  printed (print_value "OUT_LX_Remote" (InfoDict OUT_LX_Remote) (PList [1]) "")
  = [EvPrint [IStr "OUT_LX_Remote:"; IStr "off"]].
Proof.
  unfold printed.
  rewrite (proj1 (C8_bool_map_then_generic "OUT_LX_Remote" OUT_LX_Remote (PList [1])
                    "" 1 world0 eq_refl eq_refl)
             [(0, "on"); (1, "off")] "off" eq_refl eq_refl).
  reflexivity.
Defined.


(** ** dumpall *)

Lemma readRegister_answers dev w addr count words :
  count <> 0 -> answers dev w addr count words ->
  readRegister dev addr count w
  = (Val (Some words), after_call w (EvRead addr count slave_id) []).
Proof.
  intros Hc (resp & E & He & Hx & Hr). unfold readRegister.
  destruct (Z.eqb_spec count 0); [contradiction |].
  unfold mbind, M_bind, request. rewrite E, He, Hx, Hr. reflexivity.
Qed.

Lemma print_bits_appends value bits :
  only_emits (fun _ => True) (print_bits value bits).
Proof.
  induction bits as [| [bit descr] rest IH]; simpl; [apply only_emits_ret |].
  destruct value as [v |]; [| apply only_emits_raise].
  apply only_emits_bind; [| intros _; exact IH].
  destruct (_ =? _); [apply only_emits_emit; exact I | apply only_emits_ret].
Qed.

(** Decoding a catalog entry always starts with the line that names it. *)
Lemma print_value_dict_prints reg regdict values prefix v w :
  value_of values = Some v ->
  exists items evs,
    trace (snd (print_value reg (InfoDict regdict) values prefix w))
    = trace w ++ EvPrint (IStr (prefix +:+ reg +:+ ":") :: items) :: evs.
Proof.
  intros Hv. unfold print_value. rewrite Hv.
  destruct (match reg_values regdict with
            | Some (VDict d) => dict_get v d
            | _ => None
            end) as [label |]; [eexists _, []; reflexivity |].
  destruct (reg_values regdict) as [[d | f] |].
  2: eexists _, []; reflexivity.
  all: destruct (type_is regdict "bool"); [eexists _, []; reflexivity |];
       destruct (type_is regdict "int"); [eexists _, []; reflexivity |];
       destruct (type_is regdict "bits"); [| eexists _, []; reflexivity];
       unfold mbind, M_bind; simpl;
       (destruct (reg_bits regdict) as [bits |]; [| eexists _, []; reflexivity]);
       match goal with
       | |- context [print_bits ?x ?b ?w1] =>
           destruct (print_bits_appends x b w1) as (evs & Hc & _);
           exists [item_of (Some v)], evs; rewrite Hc; simpl;
           rewrite <- app_assoc; reflexivity
       end.
Qed.

(** ** Client calls in a trace *)

Lemma starts_with_bind {A B} ev P (m : M A) (f : A -> M B) :
  starts_with ev P m -> (forall a, only_emits P (f a)) -> starts_with ev P (m ≫= f).
Proof.
  intros Hm Hf w. destruct (Hm w) as (evs & Hc & HP).
  unfold mbind, M_bind. destruct (m w) as [[a | e |] w1]; simpl in *;
    try (exists evs; split; assumption).
  destruct (Hf a w1) as (evs' & Hc' & HP').
  exists (evs ++ evs'). split.
  - unfold continues in *. rewrite Hc', Hc, <- app_assoc. reflexivity.
  - apply Forall_app. split; assumption.
Qed.

Lemma failure_path_no_call {A} (msg : string) (r : A) :
  only_emits no_client_call (print [IStr msg];; emit EvClose;; mret r).
Proof.
  repeat (apply only_emits_bind; [| intros _]);
    [apply only_emits_emit | apply only_emits_emit | apply only_emits_ret];
    split; reflexivity.
Qed.

Lemma readRegister_starts dev addr count :
  count <> 0 ->
  starts_with (EvRead addr count slave_id) no_client_call (readRegister dev addr count).
Proof.
  intros Hc. unfold readRegister. destruct (Z.eqb_spec count 0); [contradiction |].
  apply starts_with_bind.
  - intros w. exists []. split; [reflexivity | constructor].
  - intros [e | e | resp]; [apply failure_path_no_call | apply only_emits_raise |].
    destruct (isError resp); [apply failure_path_no_call |].
    destruct (isExceptionResponse resp);
      [apply failure_path_no_call | apply only_emits_ret].
Qed.

Lemma writeRegister_starts dev addr value :
  starts_with (EvWrite addr [value] slave_id) no_client_call
    (writeRegister dev addr value).
Proof.
  unfold writeRegister. apply starts_with_bind.
  - intros w. exists []. split; [reflexivity | constructor].
  - intros [e | e | resp]; [apply failure_path_no_call | apply only_emits_raise |].
    destruct (isError resp); [apply failure_path_no_call |].
    destruct (isExceptionResponse resp);
      [apply failure_path_no_call | apply only_emits_ret].
Qed.

Lemma print_no_call items : only_emits no_client_call (print items).
Proof. apply only_emits_emit. split; reflexivity. Qed.

Lemma print_value_no_call reg info values prefix :
  only_emits no_client_call (print_value reg info values prefix).
Proof.
  unfold print_value. destruct info as [regdict | a]; [| apply print_no_call].
  assert (Hrest : forall value : option Z,
    only_emits no_client_call
      (if type_is regdict "bool" then
         print [IStr (prefix +:+ reg +:+ ":");
                IStr (if truthy value then "on" else "off")]
       else if type_is regdict "int" then
         print [IStr (prefix +:+ reg +:+ ":"); item_of value;
                IStr (unit_or_empty regdict)]
       else if type_is regdict "bits" then
         print [IStr (prefix +:+ reg +:+ ":"); item_of value];;
         match reg_bits regdict with
         | Some bits => print_bits value bits
         | None => raise KeyError
         end
       else
         print [IStr (prefix +:+ reg +:+ ":"); item_of value;
                IStr (unit_or_empty regdict)])).
  { intros value.
    destruct (type_is regdict "bool"); [apply print_no_call |].
    destruct (type_is regdict "int"); [apply print_no_call |].
    destruct (type_is regdict "bits"); [| apply print_no_call].
    apply only_emits_bind; [apply print_no_call | intros _].
    destruct (reg_bits regdict) as [bits |]; [| apply only_emits_raise].
    induction bits as [| [bit descr] rest IH]; simpl; [apply only_emits_ret |].
    destruct value as [v |]; [| apply only_emits_raise].
    apply only_emits_bind; [| intros _; exact IH].
    destruct (_ =? _); [apply print_no_call | apply only_emits_ret]. }
  cbv zeta.
  destruct (reg_values regdict) as [[d | f] |], (value_of values) as [v |];
    try apply Hrest; try apply print_no_call; try apply only_emits_raise.
  destruct (dict_get v d); [apply print_no_call | apply Hrest].
Qed.

Lemma catalog_OUT_LUDW_ActualAlarm :
  find_addr Quint24DCRegisters 0x7490 = Some ("OUT_LUDW_ActualAlarm", OUT_LUDW_ActualAlarm)
  /\ get_length OUT_LUDW_ActualAlarm = 2%nat.
Proof. split; reflexivity. Qed.

(** C7 on the code: at [0x7490], the address of the two-word alarm
    register, dumpall reads one word (count 1), decodes that word alone and
    moves on to [0x7492]; the alarm bit held by the second word is lost.
    dump reads both words of the same entry and reports the alarm. *)
Theorem C7_dumpall_reads_one_word :
  dumpall_body (device_of service_alarm_memory) Quint24DCRegisters 0x7490 world0
  = (Val 0x7492,
     {| calls := 1;
        trace := [EvRead 0x7490 1 192;
                  EvPrint [IStr "OUT_LUDW_ActualAlarm:"; IVal (PInt 0)]] |})
  /\ dump_entry (device_of service_alarm_memory) (thresholds None None)
       "OUT_LUDW_ActualAlarm" OUT_LUDW_ActualAlarm world0
     = (Val tt,
        {| calls := 1;
           trace := [EvRead 0x7490 2 192;
                     EvPrint [IStr "OUT_LUDW_ActualAlarm:"; IVal (PInt 65536)];
                     EvPrint [IStr " - service"]] |})
  /\ (forall dev regs i reg regdict w,
        find_addr regs i = Some (reg, regdict) ->
        exists evs,
          trace (snd (dumpall_body dev regs i w))
          = trace w ++ EvRead i 1 slave_id :: evs
          /\ Forall (fun ev => is_read ev = false) evs).
Proof.
  split; [reflexivity | split; [reflexivity |]].
  intros dev regs i reg regdict w Hf.
  assert (Hs : starts_with (EvRead i 1 slave_id) no_client_call
                 (dumpall_body dev regs i)).
  { unfold dumpall_body. rewrite Hf.
    apply starts_with_bind; [apply readRegister_starts; lia |].
    intros values. apply only_emits_bind; [apply print_value_no_call |].
    intros _. apply only_emits_ret. }
  destruct (Hs w) as (evs & Hc & HP). exists evs. split; [exact Hc |].
  eapply Forall_impl; [exact HP | intros ev [H _]; exact H].
Qed.

(** ** Failed reads *)

Lemma readRegister_failure dev addr count w :
  count <> 0 -> failure (dev (calls w) (EvRead addr count slave_id)) ->
  exists msg,
    readRegister dev addr count w
    = (Val None,
       after_call w (EvRead addr count slave_id)
         [EvPrint [IStr ("Received Modbus" +:+ msg)]; EvClose]).
Proof.
  intros Hc Hf. unfold readRegister. destruct (Z.eqb_spec count 0); [contradiction |].
  unfold mbind, M_bind, request, after_call. cbn [calls trace].
  destruct (dev (calls w) (EvRead addr count slave_id)) as [e | e | resp];
    [| contradiction |].
  - eexists ("Exception(" +:+ e +:+ ") from library"). simpl.
    rewrite <- !app_assoc. reflexivity.
  - destruct (isError resp) eqn:He.
    + eexists (" library error(" +:+ resp_repr resp +:+ ")"). simpl.
      rewrite <- !app_assoc. reflexivity.
    + destruct Hf as [Hf | Hf]; [congruence |]. rewrite Hf.
      eexists (" library exception (" +:+ resp_repr resp +:+ ")"). simpl.
      rewrite <- !app_assoc. reflexivity.
Qed.

Lemma writeRegister_failure dev addr value w :
  failure (dev (calls w) (EvWrite addr [value] slave_id)) ->
  exists msg,
    writeRegister dev addr value w
    = (Val None,
       after_call w (EvWrite addr [value] slave_id)
         [EvPrint [IStr ("Received Modbus" +:+ msg)]; EvClose]).
Proof.
  intros Hf. unfold writeRegister.
  unfold mbind, M_bind, request, after_call. cbn [calls trace].
  destruct (dev (calls w) (EvWrite addr [value] slave_id)) as [e | e | resp];
    [| contradiction |].
  - eexists ("Exception(" +:+ e +:+ ") from library"). simpl.
    rewrite <- !app_assoc. reflexivity.
  - destruct (isError resp) eqn:He.
    + eexists (" library error(" +:+ resp_repr resp +:+ ")"). simpl.
      rewrite <- !app_assoc. reflexivity.
    + destruct Hf as [Hf | Hf]; [congruence |]. rewrite Hf.
      eexists (" library exception (" +:+ resp_repr resp +:+ ")"). simpl.
      rewrite <- !app_assoc. reflexivity.
Qed.

(** In the monitor a failed read of a range ends in [TypeError]: the
    [None] of [readRegister] is handed to [list.extend]. *)
Lemma monitor_range_failed_read dev regs args fuel first_ now skip start end_ prior_ w :
  start < end_ -> failure (dev (calls w) (EvRead start 16 slave_id)) ->
  exists msg,
    monitor_range dev regs args (S fuel) first_ now skip (start, end_) prior_ w
    = (Exc TypeError,
       after_call w (EvRead start 16 slave_id)
         [EvPrint [IStr ("Received Modbus" +:+ msg)]; EvClose]).
Proof.
  intros Hlt Hf. unfold monitor_range. cbn [read_range length].
  destruct (Z.ltb_spec (Z.of_nat 0) (end_ - start)) as [_ | Hge]; [| simpl in Hge; lia].
  replace (start + Z.of_nat 0) with start by (simpl; lia).
  assert (Hf' : failure (dev (calls w) (EvRead start 16 slave_id))) by exact Hf.
  destruct (readRegister_failure dev start 16 w ltac:(lia) Hf') as (msg & E).
  exists msg. unfold mbind, M_bind.
  assert (E0 : readRegister dev start 0 w = readRegister dev start 16 w) by reflexivity.
  rewrite E0, E. reflexivity.
Qed.

(** C5 on the code: [readRegister] and [writeRegister] do turn a failure
    into [None] and a diagnostic line, and dump skips such a register; but
    the monitor hands the [None] to [values.extend], so a failed read raises
    [TypeError] out of the polling loop: the pass is not merely cut short,
    the loop ends with an exception. *)
Theorem C5_monitor_failed_read_raises (args : Args) (fuel : nat) (now : Z -> string)
    (skip : list Z) (st : MonState) :
  readRegister silent_device 0x6c00 0 world0
  = (Val None,
     {| calls := 1; trace := [EvRead 0x6c00 16 192; silent_diagnostic; EvClose] |})
  /\ writeRegister silent_device 0x3203 120 world0
     = (Val None,
        {| calls := 1;
           trace := [EvWrite 0x3203 [120] 192; silent_diagnostic; EvClose] |})
  /\ dump_entry silent_device args "COUNTER_BATTERY_MODE_EVENT"
       (entry 0x6c00 // set_length 2) world0
     = (Val tt,
        {| calls := 1; trace := [EvRead 0x6c00 2 192; silent_diagnostic; EvClose] |})
  /\ monitor_cycle silent_device Quint24DCRegisters args (S fuel) now skip st world0
     = (Exc TypeError,
        {| calls := 1; trace := [EvRead 0x6c00 16 192; silent_diagnostic; EvClose] |})
  /\ (forall dev addr count w,
        count <> 0 -> failure (dev (calls w) (EvRead addr count slave_id)) ->
        fst (readRegister dev addr count w) = Val None)
  /\ (forall dev addr value w,
        failure (dev (calls w) (EvWrite addr [value] slave_id)) ->
        fst (writeRegister dev addr value w) = Val None)
  /\ (forall dev regs first_ start end_ prior_ w,
        start < end_ -> failure (dev (calls w) (EvRead start 16 slave_id)) ->
        fst (monitor_range dev regs args (S fuel) first_ now skip (start, end_)
               prior_ w)
        = Exc TypeError).
Proof.
  do 4 (split; [reflexivity |]). split; [| split].
  - intros dev addr count w Hc Hf.
    destruct (readRegister_failure dev addr count w Hc Hf) as (msg & E).
    rewrite E. reflexivity.
  - intros dev addr value w Hf.
    destruct (writeRegister_failure dev addr value w Hf) as (msg & E).
    rewrite E. reflexivity.
  - intros dev regs first_ start end_ prior_ w Hlt Hf.
    destruct (monitor_range_failed_read dev regs args fuel first_ now skip start end_
                prior_ w Hlt Hf) as (msg & E).
    rewrite E. reflexivity.
Qed.

(** ** set *)

Lemma find_target_with_modes modes regs param param_addr :
  find_target (with_modes modes regs) param param_addr
  = option_map (fun kv => (fst kv, set_mode (modes (fst kv)) (snd kv)))
      (find_target regs param param_addr).
Proof.
  induction regs as [| [reg regdict] rest IH]; [reflexivity |].
  cbn [with_modes map find_target fst snd]. fold (with_modes modes rest).
  change (reg_addr (set_mode (modes reg) regdict)) with (reg_addr regdict).
  destruct (_ || _); [reflexivity | exact IH].
Qed.

Lemma find_target_name regs param :
  find_target regs param None
  = option_map (fun regdict => (param, regdict)) (dict_get param regs).
Proof.
  induction regs as [| [reg regdict] rest IH]; [reflexivity |].
  cbn [find_target dict_get].
  rewrite (bool_decide_eq_false_2 (None = Some (reg_addr regdict))) by discriminate.
  rewrite orb_false_r.
  destruct (decide (param = reg)) as [-> | Hne].
  - rewrite bool_decide_eq_true_2 by reflexivity. reflexivity.
  - rewrite bool_decide_eq_false_2 by exact Hne. exact IH.
Qed.

Lemma find_target_address regs param a reg regdict :
  dict_get param regs = None ->
  find_target regs param (Some a) = Some (reg, regdict) -> reg_addr regdict = a.
Proof.
  induction regs as [| [reg' regdict'] rest IH]; [discriminate |].
  cbn [find_target dict_get].
  destruct (decide (param = reg')) as [-> | Hne]; [discriminate |].
  rewrite (bool_decide_eq_false_2 _ Hne), orb_false_l.
  case_bool_decide as Ha.
  - intros _ H. inversion H; subst. congruence.
  - exact IH.
Qed.

Lemma set_action_resolved dev regs int0 param value_param value a :
  int0 value_param = Some value ->
  resolved_address regs param (int0 param) = Some a ->
  set_action dev regs int0 [param; value_param]
  = (writeRegister dev a value;; mret tt).
Proof.
  intros Hv Ha. unfold set_action, resolved_address in *. rewrite Hv.
  destruct (find_target regs param (int0 param)) as [[reg regdict] |].
  - inversion Ha. reflexivity.
  - rewrite Ha. reflexivity.
Qed.

(** C10. For every set target that resolves, by catalog name or as a
    number, with or without a catalog entry at that address, the program
    issues exactly one write, of the one-word list [[value]], to the resolved
    address, and no read.  A name resolves to its entry's address, a number
    that is no catalog name to itself.  The ["mode"] key is never consulted:
    replacing it in every entry changes nothing.  So
    [set TIME_LIMIT_MODE_CUSTOM_BUFFER_TIME 120], [set 0x3203 120] (marked
    "rw"), [set FW_VERSION 120] (not marked) and [set 0x7000 120] (no entry)
    each perform a single write. *)
Theorem C10_set_single_write dev regs int0 param value_param value a w :
  int0 value_param = Some value ->
  resolved_address regs param (int0 param) = Some a ->
  (exists evs,
     new_events (set_action dev regs int0 [param; value_param]) w
     = EvWrite a [value] slave_id :: evs
     /\ Forall no_client_call evs)
  /\ (forall regdict,
        int0 param = None -> dict_get param regs = Some regdict ->
        a = reg_addr regdict)
  /\ (forall n, int0 param = Some n -> dict_get param regs = None -> a = n)
  /\ (forall modes,
        set_action dev (with_modes modes regs) int0 [param; value_param]
        = set_action dev regs int0 [param; value_param])
  /\ printed (set_action (device_of (fun _ _ => 0)) Quint24DCRegisters int0_examples
                ["TIME_LIMIT_MODE_CUSTOM_BUFFER_TIME"; "120"])
     = [EvWrite 0x3203 [120] 192]
  /\ printed (set_action (device_of (fun _ _ => 0)) Quint24DCRegisters int0_examples
                ["0x3203"; "120"])
     = [EvWrite 0x3203 [120] 192]
  /\ printed (set_action (device_of (fun _ _ => 0)) Quint24DCRegisters int0_examples
                ["FW_VERSION"; "120"])
     = [EvWrite 0x1602 [120] 192]
  /\ printed (set_action (device_of (fun _ _ => 0)) Quint24DCRegisters int0_examples
                ["0x7000"; "120"])
     = [EvWrite 0x7000 [120] 192].
Proof.
  intros Hv Ha. split; [| split; [| split; [| split; [| repeat split]]]].
  - rewrite (set_action_resolved _ _ _ _ _ _ _ Hv Ha).
    assert (Hs : starts_with (EvWrite a [value] slave_id) no_client_call
                   (writeRegister dev a value;; mret tt)).
    { apply starts_with_bind; [apply writeRegister_starts |].
      intros _. apply only_emits_ret. }
    destruct (Hs w) as (evs & Hc & HP). exists evs. split; [| exact HP].
    apply new_events_continues. exact Hc.
  - intros regdict Hn Hd. unfold resolved_address in Ha.
    rewrite Hn, find_target_name, Hd in Ha. simpl in Ha. congruence.
  - intros n Hn Hd. unfold resolved_address in Ha. rewrite Hn in Ha.
    destruct (find_target regs param (Some n)) as [[reg regdict] |] eqn:E.
    + apply (find_target_address _ _ _ _ _ Hd) in E. congruence.
    + congruence.
  - intros modes. unfold set_action. rewrite Hv, find_target_with_modes.
    destruct (find_target regs param (int0 param)) as [[reg regdict] |];
      reflexivity.
Qed.

Lemma C10_set_single_write_witness :
  exists evs,
    new_events (set_action (device_of (fun _ _ => 0)) Quint24DCRegisters int0_examples
                  ["0x3203"; "120"]) world0
    = EvWrite 0x3203 [120] slave_id :: evs
    /\ Forall no_client_call evs.
Proof.
  apply (C10_set_single_write (device_of (fun _ _ => 0)) Quint24DCRegisters
           int0_examples "0x3203" "120" 120 0x3203 world0).
  - reflexivity.
  - reflexivity.
Defined.

(** ** Whole runs *)

(** Register [0x7401] turns from 0 to 1 between the first and the second
    pass (25 reads each): the first pass prints nothing, the second reports
    the change. *)
Example monitor_two_passes :
  filter (fun ev => is_read ev = false)
    (printed (monitor
                (device_of (fun n a => if (a =? 0x7401) && (25 <=? n)%nat then 1 else 0))
                Quint24DCRegisters (thresholds None None) 2 176
                (fun k _ => if (k =? 0)%nat then "12:00:00" else "12:00:01")))
  = [EvSleep; EvPrint [IStr "12:00:01 OUT_LX_BatteryMode:"; IStr "on"]; EvSleep].
Proof. vm_compute. reflexivity. Qed.

(** dumpall over a device in service mode: 255 reads, one per address but
    [0x7491], and for the alarm register the value of its first word only. *)
Example dumpall_service_alarm :
  let run := dumpall (device_of service_alarm_memory) Quint24DCRegisters 256 world0 in
  fst run = Val tt
  /\ calls (snd run) = 255%nat
  /\ EvPrint [IStr "OUT_LUDW_ActualAlarm:"; IVal (PInt 0)] ∈ trace (snd run)
  /\ EvPrint [IStr "0x7492"; IVal (PList [0])] ∈ trace (snd run)
  /\ EvRead 0x7491 1 192 ∉ trace (snd run).
Proof.
  cbv zeta. repeat split; try (vm_compute; reflexivity);
    apply (bool_decide_unpack _); vm_compute; exact I.
Qed.

(** * Further properties of the code *)

(** ** The client wrapper *)

(** X1. [readRegister] and [writeRegister] make exactly one client call,
    the read or the write they are named after (a count of 0 is sent as 16),
    and nothing else reaches the client; they close the client exactly when
    they return [None], and a successful call adds no other event. *)
Theorem X1_one_call_closed_iff_none dev addr count value w :
  (exists evs,
     snd (readRegister dev addr count w)
     = after_call w (EvRead addr (effective_count count) slave_id) evs
     /\ Forall no_client_call evs
     /\ (fst (readRegister dev addr count w) = Val None <-> EvClose ∈ evs)
     /\ (forall l, fst (readRegister dev addr count w) = Val (Some l) -> evs = []))
  /\ (exists evs,
        snd (writeRegister dev addr value w)
        = after_call w (EvWrite addr [value] slave_id) evs
        /\ Forall no_client_call evs
        /\ (fst (writeRegister dev addr value w) = Val None <-> EvClose ∈ evs)
        /\ (fst (writeRegister dev addr value w) = Val (Some true) -> evs = [])).
Proof.
  assert (Hnc : forall items, no_client_call (EvPrint items)) by (split; reflexivity).
  assert (Hcl : no_client_call EvClose) by (split; reflexivity).
  split.
  - unfold readRegister, effective_count, mbind, M_bind, request, after_call.
    cbn [calls trace].
    destruct (dev (calls w) _) as [e | e | resp]; cbn.
    + eexists [_; _]. rewrite <- !app_assoc. split; [reflexivity |].
      split; [repeat constructor |].
      split; [split; [intros _; set_solver | reflexivity] | discriminate].
    + exists []. split; [reflexivity |]. split; [constructor |].
      split; [split; [discriminate | set_solver] | discriminate].
    + destruct (isError resp); [| destruct (isExceptionResponse resp)]; cbn.
      * eexists [_; _]. rewrite <- !app_assoc. split; [reflexivity |].
        split; [repeat constructor |].
        split; [split; [intros _; set_solver | reflexivity] | discriminate].
      * eexists [_; _]. rewrite <- !app_assoc. split; [reflexivity |].
        split; [repeat constructor |].
        split; [split; [intros _; set_solver | reflexivity] | discriminate].
      * exists []. split; [reflexivity |]. split; [constructor |].
        split; [split; [discriminate | set_solver] | reflexivity].
  - unfold writeRegister, mbind, M_bind, request, after_call. cbn [calls trace].
    destruct (dev (calls w) _) as [e | e | resp]; cbn.
    + eexists [_; _]. rewrite <- !app_assoc. split; [reflexivity |].
      split; [repeat constructor |].
      split; [split; [intros _; set_solver | reflexivity] | discriminate].
    + exists []. split; [reflexivity |]. split; [constructor |].
      split; [split; [discriminate | set_solver] | discriminate].
    + destruct (isError resp); [| destruct (isExceptionResponse resp)]; cbn.
      * eexists [_; _]. rewrite <- !app_assoc. split; [reflexivity |].
        split; [repeat constructor |].
        split; [split; [intros _; set_solver | reflexivity] | discriminate].
      * eexists [_; _]. rewrite <- !app_assoc. split; [reflexivity |].
        split; [repeat constructor |].
        split; [split; [intros _; set_solver | reflexivity] | discriminate].
      * exists []. split; [reflexivity |]. split; [constructor |].
        split; [split; [discriminate | set_solver] | reflexivity].
Qed.

(** ** The decoder *)

Lemma bit_test (v bit : Z) :
  (Z.land (Z.shiftr v bit) 1 =? 1) = Z.testbit v bit.
Proof.
  change 1 with (Z.ones 1) at 1. rewrite Z.land_ones by lia.
  change (2 ^ 1) with 2. rewrite <- Z.bit0_mod.
  rewrite Z.shiftr_spec by lia. rewrite Z.add_0_l.
  destruct (Z.testbit v bit); reflexivity.
Qed.

Lemma print_bits_lines v bits w :
  print_bits (Some v) bits w
  = (Val tt, {| calls := calls w; trace := trace w ++ bit_lines v bits |}).
Proof.
  revert w. induction bits as [| [bit descr] rest IH]; intros w.
  - unfold bit_lines. simpl. rewrite app_nil_r. destruct w; reflexivity.
  - cbn [print_bits]. rewrite bit_test. unfold mbind, M_bind.
    unfold bit_lines. rewrite filter_cons. cbn [fst].
    destruct (Z.testbit v bit) eqn:Eb.
    + rewrite decide_True by reflexivity. cbn [print emit].
      rewrite IH. unfold bit_lines. cbn [calls trace map snd].
      rewrite <- app_assoc. reflexivity.
    + rewrite decide_False by discriminate. cbn [mret M_ret].
      rewrite IH. reflexivity.
Qed.

(** X2. For a register of type "bits" without value map, [print_value]
    prints the line with the raw value and then one line for every labelled
    bit that is set in the value, in the order of the entry's "bits" dict, and
    no line for any other bit. *)
Theorem X2_bits_lines reg regdict bits v prefix w :
  type_is regdict "bits" = true ->
  reg_values regdict = None ->
  reg_bits regdict = Some bits ->
  Forall (fun kv => 0 <= fst kv) bits ->
  print_value reg (InfoDict regdict) (PInt v) prefix w
  = (Val tt,
     {| calls := calls w;
        trace := trace w
                 ++ EvPrint [IStr (prefix +:+ reg +:+ ":"); IVal (PInt v)]
                 :: bit_lines v bits |}).
Proof.
  intros Ht Hv Hb _. unfold print_value. rewrite Hv. cbn [value_of].
  assert (Hbool : type_is regdict "bool" = false).
  { unfold type_is in *. destruct (reg_type regdict) as [t |]; [| discriminate].
    apply String.eqb_eq in Ht. subst t. reflexivity. }
  assert (Hint : type_is regdict "int" = false).
  { unfold type_is in *. destruct (reg_type regdict) as [t |]; [| discriminate].
    apply String.eqb_eq in Ht. subst t. reflexivity. }
  rewrite Hbool, Hint, Ht, Hb. unfold mbind, M_bind. cbn [print emit item_of].
  rewrite print_bits_lines. cbn [calls trace]. rewrite <- app_assoc. reflexivity.
Qed.

Lemma X2_bits_lines_witness :
  printed (print_value "OUT_LUDW_ActualAlarm" (InfoDict OUT_LUDW_ActualAlarm)
             (PInt 0x10201) "")
  = [EvPrint [IStr "OUT_LUDW_ActualAlarm:"; IVal (PInt 0x10201)];
     EvPrint [IStr " - end of life (SOH)"];
     EvPrint [IStr " - no battery"];
     EvPrint [IStr " - service"]].
Proof.
  unfold printed.
  rewrite (X2_bits_lines "OUT_LUDW_ActualAlarm" OUT_LUDW_ActualAlarm
             [ (0, "end of life (SOH)"); (4, "end of life (Resistance)");
               (5, "end of life (Resistance)"); (6, "end of life (Time)");
               (7, "end of life (Voltage)"); (9, "no battery");
               (10, "inconsistent technology"); (11, "overload cutoff");
               (12, "low battery (Voltage)"); (13, "low battery (Charge)");
               (14, "low battery (Time)"); (16, "service") ]
             0x10201 "" world0 eq_refl eq_refl eq_refl).
  - reflexivity.
  - repeat constructor; cbn; discriminate.
Defined.

Lemma print_value_total reg regdict values prefix v w :
  value_of values = Some v -> bits_key_present regdict ->
  fst (print_value reg (InfoDict regdict) values prefix w) = Val tt.
Proof.
  intros Hv Hb. unfold print_value. rewrite Hv.
  destruct (reg_values regdict) as [[d | f] |].
  2: reflexivity.
  1: destruct (dict_get v d); [reflexivity |].
  all: destruct (type_is regdict "bool"); [reflexivity |];
       destruct (type_is regdict "int"); [reflexivity |];
       destruct (type_is regdict "bits") eqn:Et; [| reflexivity];
       unfold mbind, M_bind; cbn [print emit];
       (destruct (reg_bits regdict) as [bits |] eqn:Eb; [| exfalso; exact (Hb Et Eb)]);
       rewrite print_bits_lines; reflexivity.
Qed.

Lemma catalog_bits_keys :
  Forall (fun kv => bits_key_present (snd kv)) Quint24DCRegisters.
Proof.
  unfold Quint24DCRegisters. cbv [dict_update pydict fold_left dict_set fst snd].
  repeat (rewrite ?decide_True by reflexivity; rewrite ?decide_False by discriminate).
  repeat constructor; intros H; cbv in H |- *; discriminate.
Qed.

Lemma dict_get_In {K V} `{EqDecision K} (k : K) (v : V) d :
  dict_get k d = Some v -> In (k, v) d.
Proof.
  induction d as [| [k' v'] d IH]; [discriminate |]. cbn [dict_get].
  destruct (decide (k = k')) as [-> | _].
  - intros H. inversion H. left. reflexivity.
  - intros H. right. apply IH. exact H.
Qed.

Lemma dict_get_NoDup {K V} `{EqDecision K} (k : K) (v : V) d :
  NoDup (map fst d) -> In (k, v) d -> dict_get k d = Some v.
Proof.
  induction d as [| [k' v'] d IH]; [intros _ [] |].
  cbn [map fst dict_get]. intros Hnd [Heq | Hin].
  - inversion Heq; subst. rewrite decide_True by reflexivity. reflexivity.
  - apply NoDup_cons in Hnd as [Hk Hnd].
    destruct (decide (k = k')) as [-> | _].
    + exfalso. apply Hk. apply list_elem_of_In.
      apply (in_map fst) in Hin. exact Hin.
    + apply IH; assumption.
Qed.

Lemma find_addr_In regs a reg regdict :
  find_addr regs a = Some (reg, regdict) -> In (reg, regdict) regs /\ reg_addr regdict = a.
Proof.
  induction regs as [| [reg' rd'] rest IH]; [discriminate |]. cbn [find_addr].
  destruct (Z.eqb_spec (reg_addr rd') a) as [Ha | _].
  - intros H. inversion H; subst. split; [left; reflexivity | reflexivity].
  - intros H. destruct (IH H) as [Hin Ha]. split; [right; exact Hin | exact Ha].
Qed.

Lemma find_addr_NoDup regs reg regdict :
  NoDup (map (fun kv => reg_addr (snd kv)) regs) -> In (reg, regdict) regs ->
  find_addr regs (reg_addr regdict) = Some (reg, regdict).
Proof.
  induction regs as [| [reg' rd'] rest IH]; [intros _ [] |].
  cbn [map snd find_addr]. intros Hnd [Heq | Hin].
  - inversion Heq; subst. rewrite Z.eqb_refl. reflexivity.
  - apply NoDup_cons in Hnd as [Ha Hnd].
    destruct (Z.eqb_spec (reg_addr rd') (reg_addr regdict)) as [E | _].
    + exfalso. apply Ha. apply list_elem_of_In. rewrite E.
      apply (in_map (fun kv => reg_addr (snd kv))) in Hin. exact Hin.
    + apply IH; assumption.
Qed.

Lemma catalog_names_NoDup : NoDup (map fst Quint24DCRegisters).
Proof. apply (bool_decide_unpack _). vm_compute. exact I. Qed.

Lemma catalog_addresses_NoDup :
  NoDup (map (fun kv => reg_addr (snd kv)) Quint24DCRegisters).
Proof. apply (bool_decide_unpack _). vm_compute. exact I. Qed.

(** X3. Decoding any list of words against any entry of the catalog never
    raises: [print_value] returns, and the first line it prints names the
    register. *)
Theorem X3_catalog_decoding_total reg regdict words prefix w :
  dict_get reg Quint24DCRegisters = Some regdict ->
  fst (print_value reg (InfoDict regdict) (PList words) prefix w) = Val tt
  /\ exists items evs,
       trace (snd (print_value reg (InfoDict regdict) (PList words) prefix w))
       = trace w ++ EvPrint (IStr (prefix +:+ reg +:+ ":") :: items) :: evs.
Proof.
  intros Hd. apply dict_get_In in Hd. split.
  - apply (print_value_total _ _ _ _ (assemble words)); [reflexivity |].
    pose proof catalog_bits_keys as Hall. rewrite Forall_forall in Hall.
    apply list_elem_of_In in Hd. exact (Hall _ Hd).
  - apply (print_value_dict_prints _ _ _ _ (assemble words)). reflexivity.
Qed.

Lemma X3_catalog_decoding_total_witness :
  fst (print_value "OUT_LUDW_ActualWarning"
         (InfoDict
            (entry 0x7494 // set_type "bits"
               // set_bits
                    [ (0, "end of life (SOH)"); (7, "inconsistent capacity");
                      (8, "less batteries"); (12, "low battery (Voltage)");
                      (13, "low battery (Charge)"); (14, "low battery (Time)");
                      (15, "service without battery registration") ]))
         (PList [0x0100; 7]) "" world0)
  = Val tt.
Proof.
  apply (X3_catalog_decoding_total "OUT_LUDW_ActualWarning" _ [0x0100; 7] "" world0).
  reflexivity.
Defined.

(** X4. In the catalog, lookup by name and lookup by address agree: the
    entry stored under a name is the one found at its address, and the entry
    found at an address is stored under its name and has that address.  No
    two entries share a name or an address. *)
Theorem X4_catalog_lookups_agree reg regdict :
  (dict_get reg Quint24DCRegisters = Some regdict ->
   find_addr Quint24DCRegisters (reg_addr regdict) = Some (reg, regdict))
  /\ (forall a,
        find_addr Quint24DCRegisters a = Some (reg, regdict) ->
        dict_get reg Quint24DCRegisters = Some regdict /\ reg_addr regdict = a)
  /\ NoDup (map fst Quint24DCRegisters)
  /\ NoDup (map (fun kv => reg_addr (snd kv)) Quint24DCRegisters).
Proof.
  split; [| split; [| split]].
  - intros Hd. apply find_addr_NoDup; [apply catalog_addresses_NoDup |].
    apply dict_get_In. exact Hd.
  - intros a Hf. apply find_addr_In in Hf as [Hin Ha]. split; [| exact Ha].
    apply dict_get_NoDup; [apply catalog_names_NoDup | exact Hin].
  - apply catalog_names_NoDup.
  - apply catalog_addresses_NoDup.
Qed.

(** ** Word assembly, continued *)

Lemma foldr_add_scale (g : nat -> Z) (c : Z) (l : list nat) :
  foldr Z.add 0 (map (fun i => g i * c) l) = c * foldr Z.add 0 (map g l).
Proof. induction l as [| i l IH]; simpl; [lia | rewrite IH; lia]. Qed.

Lemma weighted_sum_cons (w0 : Z) (words : list Z) :
  weighted_sum (w0 :: words) = w0 + 65536 * weighted_sum words.
Proof.
  unfold weighted_sum. cbn [length seq map foldr nth].
  rewrite <- seq_shift, map_map.
  rewrite <- (foldr_add_scale (fun i => nth i words 0 * 2 ^ (16 * Z.of_nat i)) 65536).
  change (16 * Z.of_nat 0) with 0. rewrite Z.pow_0_r.
  f_equal; [lia |]. f_equal. apply map_ext. intros i.
  cbn [nth]. replace (16 * Z.of_nat (S i)) with (16 * Z.of_nat i + 16) by lia.
  rewrite Z.pow_add_r by lia. change (2 ^ 16) with 65536. lia.
Qed.

Lemma weighted_sum_nonneg (words : list Z) :
  Forall word16 words -> 0 <= weighted_sum words.
Proof.
  induction 1 as [| w0 words Hw _ IH]; [vm_compute; discriminate |].
  rewrite weighted_sum_cons. unfold word16 in Hw. lia.
Qed.

Lemma weighted_sum_word (words : list Z) :
  Forall word16 words ->
  forall i, (i < length words)%nat ->
  Z.land (Z.shiftr (weighted_sum words) (16 * Z.of_nat i)) 0xFFFF = nth i words 0.
Proof.
  induction 1 as [| w0 words Hw Hws IH]; intros i Hi; [simpl in Hi; lia |].
  rewrite weighted_sum_cons. unfold word16 in Hw.
  change 0xFFFF with (Z.ones 16). rewrite Z.land_ones by lia.
  change (2 ^ 16) with 65536.
  destruct i as [| i].
  - cbn [nth]. change (16 * Z.of_nat 0) with 0. rewrite Z.shiftr_0_r.
    replace (w0 + 65536 * weighted_sum words)
      with (w0 + weighted_sum words * 65536) by lia.
    rewrite Z.mod_add by lia. apply Z.mod_small. lia.
  - cbn [nth]. replace (16 * Z.of_nat (S i)) with (16 + 16 * Z.of_nat i) by lia.
    rewrite <- Z.shiftr_shiftr by lia. rewrite (Z.shiftr_div_pow2 _ 16) by lia.
    change (2 ^ 16) with 65536.
    replace ((w0 + 65536 * weighted_sum words) / 65536) with (weighted_sum words).
    + rewrite <- (IH i) by (simpl in Hi; lia).
      change 0xFFFF with (Z.ones 16). rewrite Z.land_ones by lia. reflexivity.
    + replace (w0 + 65536 * weighted_sum words)
        with (w0 + weighted_sum words * 65536) by lia.
      rewrite Z.div_add by lia. rewrite (Z.div_small w0) by lia. lia.
Qed.

(** X5. The value assembled from [n] 16-bit words fits in [16*n] bits, and
    every word can be read back from it: word [i] is bits [16*i] to
    [16*i+15] of the value.  So two lists of the same length with the same
    value are the same list. *)
Theorem X5_assemble_words_recoverable (words : list Z) :
  Forall word16 words ->
  0 <= assemble words < 2 ^ (16 * Z.of_nat (length words))
  /\ (forall i, (i < length words)%nat ->
        Z.land (Z.shiftr (assemble words) (16 * Z.of_nat i)) 0xFFFF = nth i words 0)
  /\ (forall words',
        Forall word16 words' -> length words' = length words ->
        assemble words' = assemble words -> words' = words).
Proof.
  intros Hw. rewrite (assemble_sum _ Hw). split; [| split].
  - rewrite <- (or_words_sum _ Hw).
    apply (or_loop_invariant words (length words) Hw).
  - apply weighted_sum_word. exact Hw.
  - intros words' Hw' Hlen Heq. rewrite (assemble_sum _ Hw') in Heq.
    apply (nth_ext _ _ 0 0 Hlen). intros i Hi.
    rewrite <- (weighted_sum_word _ Hw' i Hi).
    rewrite <- (weighted_sum_word _ Hw i) by (rewrite <- Hlen; exact Hi).
    rewrite Heq. reflexivity.
Qed.

Lemma X5_assemble_words_recoverable_witness :
  Z.land (Z.shiftr (assemble [0x1234; 0x5678]) (16 * Z.of_nat 1)) 0xFFFF = 0x5678.
Proof.
  refine (proj1 (proj2 (X5_assemble_words_recoverable [0x1234; 0x5678] _)) 1%nat _).
  - repeat constructor; unfold word16; lia.
  - simpl. lia.
Defined.

(** ** Addresses in raw lines *)

Lemma hex02_parse (n : Z) : 0 <= n -> HexString.to_N (hex02 n) = Z.to_N n.
Proof.
  intros Hn. destruct n as [| p | p]; [reflexivity | | lia].
  unfold hex02. destruct (_ <? _)%nat.
  - change (HexString.to_N ("0x0" +:+ HexString.Raw.of_pos p ""))
      with (HexString.Raw.to_N (HexString.Raw.of_pos p "") 0%N).
    apply HexString.Raw.to_N_of_pos.
  - apply (HexString.to_N_of_N (Npos p)).
Qed.

(** X6. The text ["0x%02x" % addr] of a raw line determines the address:
    it reads back as [addr], so different addresses never print alike.
    Addresses below 16 are padded to two digits. *)
Theorem X6_hex02_determines_address (a b : Z) :
  0 <= a -> 0 <= b ->
  HexString.to_N (hex02 a) = Z.to_N a
  /\ (hex02 a = hex02 b -> a = b)
  /\ (a < 16 -> String.length (hex02 a) = 4%nat).
Proof.
  intros Ha Hb. split; [apply hex02_parse; exact Ha | split].
  - intros H. apply (f_equal HexString.to_N) in H.
    rewrite !hex02_parse in H by assumption. lia.
  - intros Hlt. destruct a as [| p | p]; [reflexivity | | lia].
    assert (H : (p < 16)%positive) by lia.
    do 4 (destruct p as [p | p |]; try reflexivity); lia.
Qed.

Lemma X6_hex02_determines_address_witness :
  HexString.to_N (hex02 0x7404) = Z.to_N 0x7404.
Proof.
  refine (proj1 (X6_hex02_determines_address 0x7404 5 _ _)); lia.
Defined.

(** ** The monitor walk in any pass *)

Lemma bind_val_inv {A B} (m : M A) (f : A -> M B) w b w' :
  (m ≫= f) w = (Val b, w') -> exists a w1, m w = (Val a, w1) /\ f a w1 = (Val b, w').
Proof.
  unfold mbind, M_bind. destruct (m w) as [[a | e |] w1]; try discriminate.
  intros H. exists a, w1. split; [reflexivity | exact H].
Qed.

Lemma sample_stores regs args st now start values idx w p1 w1 :
  sample regs args st now (start + Z.of_nat idx)
    (find_addr regs (start + Z.of_nat idx)) values idx w = (Val p1, w1) ->
  p1 = <[start + Z.of_nat idx := value_at regs start values idx]> (prior st).
Proof.
  unfold sample, value_at.
  destruct (find_addr regs (start + Z.of_nat idx)) as [[reg rd] |]; intros H;
    apply bind_val_inv in H as (u & w2 & _ & H); inversion H; reflexivity.
Qed.

Lemma walk_records regs args fuel first_ now skip start values :
  forall idx prior_ w prior' w',
  walk regs args fuel first_ now skip start values idx prior_ w = (Val prior', w') ->
  forall j, reaches regs start values idx j -> (j < length values)%nat ->
  start + Z.of_nat j ∉ skip ->
  prior' !! (start + Z.of_nat j) = Some (value_at regs start values j).
Proof.
  induction fuel as [| fuel IH]; intros idx prior_ w prior' w' H j Hr Hj Hskip;
    [discriminate |].
  rewrite walk_unfold in H.
  destruct (Nat.ltb_spec idx (length values)) as [Hlt | Hge].
  - cbv zeta in H. destruct Hr as [i | i j Hi Hr].
    + rewrite bool_decide_eq_false_2 in H by exact Hskip.
      apply bind_val_inv in H as (p1 & w1 & Hs & H).
      apply sample_stores in Hs. cbn [prior] in Hs. subst p1.
      destruct (idx_inc regs (start + Z.of_nat i)) as [| n] eqn:Einc.
      * rewrite Nat.add_0_r in H.
        apply (IH _ _ _ _ _ H i (reaches_here _ _ _ _) Hj Hskip).
      * rewrite (walk_frame _ _ _ _ _ _ _ _ _ _ _ _ _ H) by lia.
        apply lookup_insert_eq.
    + destruct (bool_decide _).
      * apply (IH _ _ _ _ _ H j Hr Hj Hskip).
      * apply bind_val_inv in H as (p1 & w1 & _ & H).
        apply (IH _ _ _ _ _ H j Hr Hj Hskip).
  - destruct Hr; lia.
Qed.

(** Addresses of the skip set keep whatever prior they had. *)
Lemma walk_skip_untouched regs args fuel first_ now skip start values :
  forall idx prior_ w prior' w',
  walk regs args fuel first_ now skip start values idx prior_ w = (Val prior', w') ->
  forall a, a ∈ skip -> prior' !! a = prior_ !! a.
Proof.
  induction fuel as [| fuel IH]; intros idx prior_ w prior' w' H a Ha; [discriminate |].
  rewrite walk_unfold in H. destruct (idx <? length values)%nat.
  - cbv zeta in H. case_bool_decide as Hs.
    + apply (IH _ _ _ _ _ H a Ha).
    + apply bind_val_inv in H as (p1 & w1 & Hsm & H).
      apply sample_stores in Hsm. cbn [prior] in Hsm. subst p1.
      rewrite (IH _ _ _ _ _ H a Ha).
      apply lookup_insert_ne. intros E. rewrite E in Hs. contradiction.
  - inversion H. reflexivity.
Qed.

(** X7. In every pass of the monitor, warm-up or not, the value derived at
    each position the walk reaches is stored as the new prior of its address,
    whether or not it was reported, unless the address is in the skip set;
    addresses of the skip set keep the prior they had (none, when the
    monitor started from the empty map). *)
Theorem X7_pass_stores_every_value regs args fuel first_ now skip start values
    prior_ w prior' w' :
  walk regs args fuel first_ now skip start values 0 prior_ w = (Val prior', w') ->
  (forall j, reaches regs start values 0 j -> (j < length values)%nat ->
     start + Z.of_nat j ∉ skip ->
     prior' !! (start + Z.of_nat j) = Some (value_at regs start values j))
  /\ (forall a, a ∈ skip -> prior' !! a = prior_ !! a)
  /\ (forall a, a < start -> prior' !! a = prior_ !! a).
Proof.
  intros H. split; [| split].
  - eapply walk_records. exact H.
  - eapply walk_skip_untouched. exact H.
  - intros a Ha. eapply walk_frame; [exact H | simpl; lia].
Qed.

Lemma X7_pass_stores_every_value_witness :
  let run := walk Quint24DCRegisters (thresholds None None) 4 false
               (fun _ => "12:00:00") [0x7401] 0x7400 [1; 2; 3] 0 ∅ world0 in
  match fst run with
  | Val prior' =>
      prior' !! 0x7400 = Some 1 /\ prior' !! 0x7401 = None /\ prior' !! 0x7402 = Some 3
  | _ => False
  end.
Proof.
  set (regs := Quint24DCRegisters). set (a := thresholds None None).
  set (now := fun _ : Z => "12:00:00").
  cbv zeta.
  destruct (walk regs a 4 false now [0x7401] 0x7400 [1; 2; 3] 0 ∅ world0)
    as [[prior' | e |] w'] eqn:E; cbn [fst];
    try (vm_compute in E; discriminate E).
  destruct (X7_pass_stores_every_value regs a 4 false now [0x7401] 0x7400 [1; 2; 3]
              ∅ world0 prior' w' E) as (Hrec & Hskip & _).
  split; [| split].
  - apply (Hrec 0%nat); [constructor | vm_compute; lia |].
    apply (bool_decide_unpack _). vm_compute. exact I.
  - rewrite (Hskip 0x7401); [reflexivity |].
    apply (bool_decide_unpack _). vm_compute. exact I.
  - apply (Hrec 2%nat); [| vm_compute; lia |].
    + apply reaches_step; [vm_compute; lia |].
      apply reaches_step; [vm_compute; lia |]. constructor.
    + apply (bool_decide_unpack _). vm_compute. exact I.
Defined.

Lemma reaches_unless_inside regs start values j :
  lengths_positive regs ->
  (forall i k, (i + k = j)%nat ->
               (0 < k < idx_inc regs (start + Z.of_nat i))%nat -> False) ->
  (j <= length values)%nat ->
  forall n i, (j - i <= n)%nat -> (i <= j)%nat -> reaches regs start values i j.
Proof.
  intros Hpos Hin Hj. induction n as [| n IH]; intros i Hn Hij.
  - replace i with j by lia. constructor.
  - destruct (Nat.eq_dec i j) as [-> | Hne]; [constructor |].
    pose proof (Hpos (start + Z.of_nat i)) as Hinc.
    destruct (Nat.le_gt_cases (i + idx_inc regs (start + Z.of_nat i)) j) as [Hle | Hgt].
    + apply reaches_step; [lia |]. apply IH; lia.
    + exfalso. apply (Hin i (j - i)%nat); lia.
Qed.

Lemma catalog_no_overlap : no_overlap Quint24DCRegisters.
Proof.
  assert (Hall : Forall (fun kv => forall k,
                   (0 < k < get_length (snd kv))%nat ->
                   find_addr Quint24DCRegisters (reg_addr (snd kv) + Z.of_nat k)
                   = None) Quint24DCRegisters).
  { unfold Quint24DCRegisters at 2.
    cbv [dict_update pydict fold_left dict_set fst snd].
    repeat (rewrite ?decide_True by reflexivity;
            rewrite ?decide_False by discriminate).
    repeat constructor; intros k Hk; cbn in Hk;
      try lia; (assert (k = 1%nat) by lia; subst k; reflexivity). }
  rewrite Forall_forall in Hall.
  intros addr k Hk. unfold idx_inc in Hk.
  destruct (find_addr Quint24DCRegisters addr) as [[reg rd] |] eqn:E; [| lia].
  apply find_addr_In in E as [Hin <-].
  apply (Hall (reg, rd)); [apply list_elem_of_In; exact Hin | exact Hk].
Qed.

(** X8. No catalog register inside a polled buffer is jumped over: a
    two-word register hides only its own second word, which has no entry of
    its own.  So after any pass every catalog register of the buffer that is
    not in the skip set has its assembled value as prior. *)
Theorem X8_catalog_registers_all_polled args fuel first_ now skip start values
    prior_ w prior' w' reg regdict j :
  walk Quint24DCRegisters args fuel first_ now skip start values 0 prior_ w
  = (Val prior', w') ->
  find_addr Quint24DCRegisters (start + Z.of_nat j) = Some (reg, regdict) ->
  (j < length values)%nat ->
  start + Z.of_nat j ∉ skip ->
  reaches Quint24DCRegisters start values 0 j
  /\ prior' !! (start + Z.of_nat j)
     = Some (assemble (take (get_length regdict) (drop j values))).
Proof.
  intros H Hf Hj Hskip.
  assert (Hr : reaches Quint24DCRegisters start values 0 j).
  { apply (reaches_unless_inside _ _ _ _ Quint24DC_lengths_positive) with (n := j);
      try lia.
    intros i k Hik Hk.
    pose proof (catalog_no_overlap (start + Z.of_nat i) k Hk) as Hnone.
    replace (start + Z.of_nat i + Z.of_nat k) with (start + Z.of_nat j) in Hnone
      by lia.
    congruence. }
  split; [exact Hr |].
  rewrite (walk_records _ _ _ _ _ _ _ _ _ _ _ _ _ H j Hr Hj Hskip).
  unfold value_at. rewrite Hf. reflexivity.
Qed.

Lemma X8_catalog_registers_all_polled_witness :
  let run := walk Quint24DCRegisters (thresholds None None) 5 true
               (fun _ => "12:00:00") [] 0x748f [9; 0; 1; 7] 0 ∅ world0 in
  match fst run with
  | Val prior' => prior' !! 0x7490 = Some 65536
  | _ => False
  end.
Proof.
  set (a := thresholds None None). set (now := fun _ : Z => "12:00:00").
  cbv zeta.
  destruct (walk Quint24DCRegisters a 5 true now [] 0x748f [9; 0; 1; 7] 0 ∅ world0)
    as [[prior' | e |] w'] eqn:E; cbn [fst];
    try (vm_compute in E; discriminate E).
  apply (X8_catalog_registers_all_polled a 5 true now [] 0x748f [9; 0; 1; 7] ∅ world0
           prior' w' "OUT_LUDW_ActualAlarm" OUT_LUDW_ActualAlarm 1 E).
  - reflexivity.
  - vm_compute. lia.
  - apply (bool_decide_unpack _). vm_compute. exact I.
Defined.

(** ** A pass over an unchanged buffer *)

Lemma compute_show_same args v : compute_show args (Some v) v = Val false.
Proof.
  unfold compute_show. rewrite bool_decide_eq_true_2 by reflexivity. cbn [negb andb].
  destruct (min_change_rel args), (min_change_abs args); reflexivity.
Qed.

Lemma sample_unchanged regs args p now start values idx w :
  p !! (start + Z.of_nat idx) = Some (value_at regs start values idx) ->
  sample regs args {| prior := p; first := false |} now (start + Z.of_nat idx)
    (find_addr regs (start + Z.of_nat idx)) values idx w
  = (Val p, w).
Proof.
  unfold sample, value_at. intros Hp.
  destruct (find_addr regs (start + Z.of_nat idx)) as [[reg rd] |];
    cbn [first prior]; rewrite Hp, compute_show_same;
    unfold lift, mbind, M_bind, pass; cbn [mret M_ret];
    rewrite insert_id by exact Hp; reflexivity.
Qed.

Lemma walk_unchanged regs args first_ now now' skip start values :
  forall fuel idx prior0 w0 r w0' p w,
  walk regs args fuel first_ now skip start values idx prior0 w0 = (Val r, w0') ->
  (forall j, reaches regs start values idx j -> (j < length values)%nat ->
     start + Z.of_nat j ∉ skip ->
     p !! (start + Z.of_nat j) = Some (value_at regs start values j)) ->
  walk regs args fuel false now' skip start values idx p w = (Val p, w).
Proof.
  induction fuel as [| fuel IH]; intros idx prior0 w0 r w0' p w H0 Hinv;
    [discriminate |].
  rewrite walk_unfold in H0 |- *.
  destruct (Nat.ltb_spec idx (length values)) as [Hlt | Hge]; [| reflexivity].
  cbv zeta in H0 |- *.
  assert (Hnext : forall j,
            reaches regs start values (idx + idx_inc regs (start + Z.of_nat idx)) j ->
            (j < length values)%nat -> start + Z.of_nat j ∉ skip ->
            p !! (start + Z.of_nat j) = Some (value_at regs start values j)).
  { intros j Hr. apply Hinv. apply reaches_step; assumption. }
  case_bool_decide as Hs.
  - apply (IH _ _ _ _ _ _ _ H0 Hnext).
  - apply bind_val_inv in H0 as (p1 & w1 & _ & H0).
    unfold mbind, M_bind.
    rewrite sample_unchanged by (apply Hinv; [constructor | exact Hlt | exact Hs]).
    apply (IH _ _ _ _ _ _ _ H0 Hnext).
Qed.

(** X9. No false positives: when a pass over a buffer has completed, a
    following pass over the same buffer reports nothing and leaves the priors
    as they are, whatever thresholds are configured. *)
Theorem X9_unchanged_buffer_is_silent regs args fuel first_ now now' skip start values
    prior_ w prior' w' w2 :
  walk regs args fuel first_ now skip start values 0 prior_ w = (Val prior', w') ->
  walk regs args fuel false now' skip start values 0 prior' w2 = (Val prior', w2).
Proof.
  intros H. eapply walk_unchanged; [exact H |].
  intros j Hr Hj Hs. apply (walk_records _ _ _ _ _ _ _ _ _ _ _ _ _ H j Hr Hj Hs).
Qed.

Lemma X9_unchanged_buffer_is_silent_witness :
  let run := walk Quint24DCRegisters (thresholds (Some py_0_05) (Some 10%float)) 4 true
               (fun _ => "12:00:00") [] 0x7400 [1; 2; 3] 0 ∅ world0 in
  match fst run with
  | Val prior' =>
      walk Quint24DCRegisters (thresholds (Some py_0_05) (Some 10%float)) 4 false
        (fun _ => "12:00:01") [] 0x7400 [1; 2; 3] 0 prior' world0
      = (Val prior', world0)
  | _ => False
  end.
Proof.
  cbv zeta.
  destruct (walk Quint24DCRegisters (thresholds (Some py_0_05) (Some 10%float)) 4 true
              (fun _ => "12:00:00") [] 0x7400 [1; 2; 3] 0 ∅ world0)
    as [[prior' | e |] w'] eqn:E; cbn [fst];
    try (vm_compute in E; discriminate E).
  exact (X9_unchanged_buffer_is_silent _ _ _ _ _ _ _ _ _ _ _ _ _ world0 E).
Defined.

(** ** Filling the buffer of a range *)

Lemma batches_nonpos n : n <= 0 -> batches n = 0%nat.
Proof.
  intros Hn. unfold batches.
  assert ((n + 15) / 16 <= 0) by (apply Z.lt_succ_r, Z.div_lt_upper_bound; lia).
  lia.
Qed.

Lemma batches_pos n : 0 < n -> batches n = S (batches (n - 16)).
Proof.
  intros Hn. unfold batches.
  replace (n + 15) with (n - 16 + 15 + 1 * 16) by lia.
  rewrite Z.div_add by lia.
  assert (0 <= (n - 16 + 15) / 16) by (apply Z.div_pos; lia).
  lia.
Qed.

Lemma readRegister_healthy_exact dev addr w :
  healthy dev ->
  exists l,
    readRegister dev addr 0 w = (Val (Some l), after_call w (EvRead addr 16 slave_id) [])
    /\ length l = 16%nat.
Proof.
  intros Hdev. destruct (Hdev (calls w) addr 16 slave_id) as (resp & E & He & Hx & Hl).
  exists (registers resp). split; [| exact Hl].
  unfold readRegister. change (0 =? 0) with true. cbv iota.
  unfold mbind, M_bind, request. rewrite E, He, Hx. reflexivity.
Qed.

Lemma read_range_batches dev start end_ :
  healthy dev ->
  forall fuel values w,
  (batches (end_ - start - Z.of_nat (length values)) < fuel)%nat ->
  exists values',
    read_range dev fuel start end_ values w
    = (Val values',
       {| calls := calls w + batches (end_ - start - Z.of_nat (length values));
          trace := trace w
            ++ map (fun k => EvRead (start + Z.of_nat (length values)
                                     + 16 * Z.of_nat k) 16 slave_id)
                 (seq 0 (batches (end_ - start - Z.of_nat (length values)))) |})
    /\ length values'
       = (length values + 16 * batches (end_ - start - Z.of_nat (length values)))%nat.
Proof.
  intros Hdev. induction fuel as [| fuel IH]; intros values w Hfuel; [lia |].
  cbn [read_range].
  destruct (Z.ltb_spec (Z.of_nat (length values)) (end_ - start)) as [Hlt | Hge].
  - rewrite batches_pos in * by lia.
    destruct (readRegister_healthy_exact dev (start + Z.of_nat (length values)) w Hdev)
      as (l & E & Hl).
    unfold mbind, M_bind. rewrite E.
    assert (Hlen : length (values ++ l) = (length values + 16)%nat)
      by (rewrite length_app, Hl; reflexivity).
    destruct (IH (values ++ l)
                (after_call w (EvRead (start + Z.of_nat (length values)) 16 slave_id) []))
      as (values' & E' & Hl').
    { rewrite Hlen. replace (end_ - start - Z.of_nat (length values + 16))
        with (end_ - start - Z.of_nat (length values) - 16) by lia. lia. }
    rewrite Hlen in E', Hl'.
    replace (end_ - start - Z.of_nat (length values + 16))
      with (end_ - start - Z.of_nat (length values) - 16) in E', Hl' by lia.
    exists values'. split; [| lia]. rewrite E'. f_equal. unfold after_call.
    cbn [calls trace seq map]. f_equal; [lia |].
    rewrite <- app_assoc. cbn [app]. f_equal. f_equal.
    + f_equal. lia.
    + rewrite <- seq_shift, map_map. apply map_ext. intros k. f_equal. lia.
  - rewrite batches_nonpos by lia. exists values. split; [| lia].
    cbn [mret M_ret seq map]. rewrite Nat.add_0_r, app_nil_r. destruct w; reflexivity.
Qed.

(** X10. With a device that answers every read in full, the buffer of a
    range [(start, end)] is filled by reads of 16 words at [start],
    [start+16], ... until at least [end - start] words are there: the number
    of reads is [end - start] divided by 16 and rounded up, the buffer holds
    16 words per read (it may reach beyond [end]), and nothing is printed.
    An empty range costs no read. *)
Theorem X10_range_read_in_batches dev fuel start end_ w :
  healthy dev ->
  (batches (end_ - start) < fuel)%nat ->
  exists values,
    read_range dev fuel start end_ [] w
    = (Val values,
       {| calls := calls w + batches (end_ - start);
          trace := trace w
            ++ map (fun k => EvRead (start + 16 * Z.of_nat k) 16 slave_id)
                 (seq 0 (batches (end_ - start))) |})
    /\ length values = (16 * batches (end_ - start))%nat
    /\ (end_ <= start -> values = []).
Proof.
  intros Hdev Hfuel.
  destruct (read_range_batches dev start end_ Hdev fuel [] w) as (values & E & Hl).
  { cbn [length]. rewrite Z.sub_0_r. exact Hfuel. }
  cbn [length] in E, Hl. rewrite Z.sub_0_r in E, Hl.
  exists values. split; [| split].
  - rewrite E. f_equal. f_equal. f_equal. apply map_ext. intros k. f_equal. lia.
  - lia.
  - intros Hle. rewrite batches_nonpos in Hl by lia.
    destruct values; [reflexivity | discriminate].
Qed.

Lemma X10_range_read_in_batches_witness :
  exists values,
    read_range (device_of (fun _ a => a)) 11 0x7400 0x74a0 [] world0
    = (Val values,
       {| calls := 0 + batches (0x74a0 - 0x7400);
          trace := [] ++ map (fun k => EvRead (0x7400 + 16 * Z.of_nat k) 16 slave_id)
                           (seq 0 (batches (0x74a0 - 0x7400))) |})
    /\ length values = (16 * batches (0x74a0 - 0x7400))%nat
    /\ (0x74a0 <= 0x7400 -> values = []).
Proof.
  apply (X10_range_read_in_batches (device_of (fun _ a => a)) 11 0x7400 0x74a0 world0).
  - apply device_of_healthy.
  - vm_compute. lia.
Defined.

(** X11. With a device that answers every read with an empty register
    list, the loop that fills the buffer of a non-empty range never ends: no
    amount of fuel lets it return. *)
Theorem X11_empty_answers_never_fill dev start end_ fuel w :
  answers_nothing dev -> start < end_ ->
  fst (read_range dev fuel start end_ [] w) = OutOfFuel.
Proof.
  intros Hdev Hlt. revert w. induction fuel as [| fuel IH]; intros w; [reflexivity |].
  cbn [read_range length].
  destruct (Z.ltb_spec (Z.of_nat 0) (end_ - start)) as [_ | Hge]; [| simpl in Hge; lia].
  set (a := start + Z.of_nat 0).
  destruct (Hdev (calls w) a 16 slave_id) as (resp & E & He & Hx & Hr).
  assert (Hread : readRegister dev a 0 w
                  = (Val (Some []), after_call w (EvRead a 16 slave_id) [])).
  { unfold readRegister, mbind, M_bind, request. change (0 =? 0) with true.
    cbv iota. rewrite E, He, Hx, Hr. reflexivity. }
  unfold mbind, M_bind. rewrite Hread. cbn [app]. apply IH.
Qed.

Lemma X11_empty_answers_never_fill_witness :
  fst (read_range
         (fun _ _ => Responds {| isError := false; isExceptionResponse := false;
                                 registers := []; resp_repr := "" |})
         1000 0x6c00 0x6c50 [] world0)
  = OutOfFuel.
Proof.
  apply X11_empty_answers_never_fill.
  - intros n addr count slave. eexists. repeat split.
  - reflexivity.
Defined.

(** ** Actions that only read *)

Lemma only_emits_impl {A} (P P' : Event -> Prop) (m : M A) :
  (forall ev, P ev -> P' ev) -> only_emits P m -> only_emits P' m.
Proof.
  intros HPP H w. destruct (H w) as (evs & Hc & HP).
  exists evs. split; [exact Hc | eapply Forall_impl; eauto].
Qed.

Lemma readRegister_no_write dev addr count :
  only_emits no_write (readRegister dev addr count).
Proof.
  unfold readRegister. apply only_emits_bind; [apply only_emits_request; reflexivity |].
  assert (Hfail : forall msg, only_emits no_write
            (print [IStr msg];; emit EvClose;; mret (@None (list Z)))).
  { intros msg. eapply only_emits_impl; [| apply failure_path_no_call].
    intros ev [_ H]. exact H. }
  intros [e | e | resp]; [apply Hfail | apply only_emits_raise |].
  destruct (isError resp); [apply Hfail |].
  destruct (isExceptionResponse resp); [apply Hfail | apply only_emits_ret].
Qed.

Lemma print_value_no_write reg info values prefix :
  only_emits no_write (print_value reg info values prefix).
Proof.
  eapply only_emits_impl; [| apply print_value_no_call]. intros ev [_ H]. exact H.
Qed.

Lemma sample_no_write regs args st now addr cur values idx :
  only_emits no_write (sample regs args st now addr cur values idx).
Proof.
  unfold sample. destruct cur as [[reg rd] |].
  - apply only_emits_bind; [| intros _; apply only_emits_ret].
    destruct (first st); [apply only_emits_ret |].
    apply only_emits_bind; [intros w; exists []; split;
                            [symmetry; apply app_nil_r | constructor] |].
    intros [|]; [apply print_value_no_write | apply only_emits_ret].
  - apply only_emits_bind; [| intros _; apply only_emits_ret].
    destruct (first st); [apply only_emits_ret |].
    apply only_emits_bind; [intros w; exists []; split;
                            [symmetry; apply app_nil_r | constructor] |].
    intros [|]; [apply print_value_no_write | apply only_emits_ret].
Qed.

Lemma walk_no_write regs args first_ now skip start values :
  forall fuel idx prior_,
  only_emits no_write (walk regs args fuel first_ now skip start values idx prior_).
Proof.
  induction fuel as [| fuel IH]; intros idx prior_; [apply only_emits_fuel |].
  rewrite walk_unfold. destruct (_ <? _)%nat; [| apply only_emits_ret].
  cbv zeta. destruct (bool_decide _); [apply IH |].
  apply only_emits_bind; [apply sample_no_write | intros p; apply IH].
Qed.

Lemma read_range_no_write dev start end_ :
  forall fuel values, only_emits no_write (read_range dev fuel start end_ values).
Proof.
  induction fuel as [| fuel IH]; intros values; [apply only_emits_fuel |].
  cbn [read_range]. destruct (_ <? _); [| apply only_emits_ret].
  apply only_emits_bind; [apply readRegister_no_write |].
  intros [words |]; [apply IH | apply only_emits_raise].
Qed.

Lemma monitor_cycle_no_write dev regs args fuel now skip st :
  only_emits no_write (monitor_cycle dev regs args fuel now skip st).
Proof.
  unfold monitor_cycle. apply only_emits_bind.
  - generalize (prior st). induction Quint24DCMonitorRegisters as [| [s e] rest IH];
      intros p; cbn [monitor_ranges]; [apply only_emits_ret |].
    apply only_emits_bind; [| exact IH].
    unfold monitor_range. apply only_emits_bind; [apply read_range_no_write |].
    intros values. apply walk_no_write.
  - intros p. apply only_emits_bind; [apply only_emits_emit; reflexivity |].
    intros _. apply only_emits_ret.
Qed.

Lemma dump_entry_no_write dev args reg regdict :
  only_emits no_write (dump_entry dev args reg regdict).
Proof.
  unfold dump_entry. apply only_emits_bind; [apply readRegister_no_write |].
  intros [[| x l] |]; try apply only_emits_ret.
  destruct (raw args); [apply only_emits_emit; reflexivity | apply print_value_no_write].
Qed.

Lemma dumpall_body_no_write dev regs i : only_emits no_write (dumpall_body dev regs i).
Proof.
  unfold dumpall_body. apply only_emits_bind; [apply readRegister_no_write |].
  intros values. destruct (find_addr regs i) as [[reg rd] |].
  - apply only_emits_bind; [apply print_value_no_write | intros _; apply only_emits_ret].
  - apply only_emits_bind; [| intros _; apply only_emits_ret].
    destruct (bool_decide _); [apply only_emits_ret | apply print_value_no_write].
Qed.

(** X12. dump, dumpall and monitor only read: whatever the device answers
    and however long they run, none of them ever issues a write to the
    client. *)
Theorem X12_read_only_actions dev regs args :
  (forall w, Forall no_write (new_events (dump dev regs args) w))
  /\ (forall fuel w, Forall no_write (new_events (dumpall dev regs fuel) w))
  /\ (forall n fuel now w, Forall no_write (new_events (monitor dev regs args n fuel now) w)).
Proof.
  split; [| split].
  - intros w. apply only_emits_new_events. unfold dump.
    induction regs as [| [reg rd] rest IH]; cbn [dump_from]; [apply only_emits_ret |].
    apply only_emits_bind; [apply dump_entry_no_write | intros _; exact IH].
  - intros fuel w. apply only_emits_new_events. unfold dumpall.
    generalize 0x7400. induction fuel as [| fuel IH]; intros i;
      [apply only_emits_fuel |].
    cbn [dumpall_loop]. destruct (_ <? _); [| apply only_emits_ret].
    apply only_emits_bind; [apply dumpall_body_no_write | exact IH].
  - intros n fuel now w. apply only_emits_new_events. unfold monitor.
    apply only_emits_bind.
    + unfold monitor_skip_addr. generalize (skip_addr_arg args).
      induction default_skip as [| [name | a] rest IH]; intros skip;
        cbn [extend_default_skip]; [apply only_emits_ret | | apply IH].
      destruct (dict_get name regs); [apply IH | apply only_emits_raise].
    + intros skip. generalize 0%nat, {| prior := ∅; first := true |}.
      induction n as [| n IH]; intros k st; cbn [monitor_cycles];
        [apply only_emits_ret |].
      apply only_emits_bind; [apply monitor_cycle_no_write | intros st'; apply IH].
Qed.

(** ** The skip set *)

Lemma extend_default_skip_app regs entries :
  forall skip w,
  extend_default_skip regs skip entries w
  = match extend_default_skip regs [] entries w with
    | (Val l, w') => (Val (skip ++ l), w')
    | (Exc e, w') => (Exc e, w')
    | (OutOfFuel, w') => (OutOfFuel, w')
    end.
Proof.
  induction entries as [| [name | a] rest IH]; intros skip w; cbn [extend_default_skip].
  - cbn. rewrite app_nil_r. reflexivity.
  - destruct (dict_get name regs) as [rd |]; [| reflexivity].
    rewrite (IH (skip ++ [reg_addr rd])), (IH ([] ++ [reg_addr rd])).
    destruct (extend_default_skip regs [] rest w) as [[l | e |] w']; try reflexivity.
    rewrite <- app_assoc. reflexivity.
  - rewrite (IH (skip ++ [a])), (IH ([] ++ [a])).
    destruct (extend_default_skip regs [] rest w) as [[l | e |] w']; try reflexivity.
    rewrite <- app_assoc. reflexivity.
Qed.

(** X13. The monitor's skip set is the [--skip-addr] addresses followed by
    the thirteen default addresses; all five default names resolve in the
    catalog, so building it never fails and touches nothing.  A default name
    missing from a catalog would raise [KeyError] before any client call. *)
Theorem X13_skip_set args w :
  monitor_skip_addr Quint24DCRegisters args w
  = (Val (skip_addr_arg args
          ++ [0x6c0c; 0x6c10; 0x7430; 0x7477; 0x7431;
              0x740b; 0x740c; 0x740d; 0x7432; 0x743c; 0x743d; 0x746c; 0x7478]),
     w)
  /\ (forall regs skip name rest,
        dict_get name regs = None ->
        extend_default_skip regs skip (inl name :: rest) w = (Exc KeyError, w)).
Proof.
  split.
  - unfold monitor_skip_addr. rewrite extend_default_skip_app. reflexivity.
  - intros regs skip name rest Hn. cbn [extend_default_skip]. rewrite Hn. reflexivity.
Qed.

(** ** dump *)

Lemma bit_lines_no_call v bits : Forall no_client_call (bit_lines v bits).
Proof.
  unfold bit_lines. apply Forall_forall. intros ev Hin.
  apply list_elem_of_In, in_map_iff in Hin as (kv & <- & _). split; reflexivity.
Qed.

(** Decoding a list or an integer against a sound entry returns, prints
    only, and makes no client call. *)
Lemma print_value_shape reg regdict values prefix v w :
  value_of values = Some v -> bits_key_present regdict ->
  exists evs,
    print_value reg (InfoDict regdict) values prefix w
    = (Val tt, {| calls := calls w; trace := trace w ++ evs |})
    /\ Forall no_client_call evs.
Proof.
  intros Hv Hb. unfold print_value. rewrite Hv.
  assert (Hone : forall items,
            exists evs,
              print items w = (Val tt, {| calls := calls w; trace := trace w ++ evs |})
              /\ Forall no_client_call evs).
  { intros items. exists [EvPrint items]. split; [reflexivity |].
    repeat constructor. }
  destruct (reg_values regdict) as [[d | f] |].
  2: apply Hone.
  1: destruct (dict_get v d); [apply Hone |].
  all: destruct (type_is regdict "bool"); [apply Hone |];
       destruct (type_is regdict "int"); [apply Hone |];
       destruct (type_is regdict "bits") eqn:Et; [| apply Hone];
       (destruct (reg_bits regdict) as [bits |] eqn:Eb; [| exfalso; exact (Hb Et Eb)]);
       unfold mbind, M_bind; cbn [print emit]; rewrite print_bits_lines;
       cbn [calls trace]; rewrite <- app_assoc;
       eexists; split; [reflexivity |];
       constructor; [split; reflexivity | apply bit_lines_no_call].
Qed.

Lemma filter_reads_no_call evs :
  Forall no_client_call evs -> filter (fun ev => is_read ev = true) evs = [].
Proof.
  induction 1 as [| ev evs [Hr _] _ IH]; [reflexivity |].
  rewrite filter_cons, decide_False by (rewrite Hr; discriminate). exact IH.
Qed.

Lemma readRegister_modbus_only dev addr count w :
  modbus_only dev ->
  exists r evs,
    readRegister dev addr count w
    = (Val r, after_call w (EvRead addr (effective_count count) slave_id) evs)
    /\ Forall no_client_call evs.
Proof.
  intros Hdev. unfold readRegister, effective_count, mbind, M_bind, request, after_call.
  cbn [calls trace].
  pose proof (Hdev (calls w)
                (EvRead addr (if count =? 0 then 16 else count) slave_id)) as Hno.
  destruct (dev (calls w) _) as [e | e | resp]; cbn.
  - eexists None, [_; _]. rewrite <- !app_assoc. split; [reflexivity | repeat constructor].
  - exfalso. exact (Hno e eq_refl).
  - destruct (isError resp); [| destruct (isExceptionResponse resp)]; cbn.
    + eexists None, [_; _]. rewrite <- !app_assoc.
      split; [reflexivity | repeat constructor].
    + eexists None, [_; _]. rewrite <- !app_assoc.
      split; [reflexivity | repeat constructor].
    + eexists (Some (registers resp)), []. split; [reflexivity | constructor].
Qed.

Lemma dump_entry_shape dev args reg regdict w :
  modbus_only dev -> bits_key_present regdict ->
  exists evs,
    dump_entry dev args reg regdict w
    = (Val tt, after_call w (entry_read (reg, regdict)) evs)
    /\ Forall no_client_call evs.
Proof.
  intros Hdev Hb. unfold dump_entry, entry_read. cbn [snd].
  destruct (readRegister_modbus_only dev (reg_addr regdict)
              (Z.of_nat (get_length regdict)) w Hdev) as (r & evs & E & HP).
  unfold mbind, M_bind. rewrite E.
  destruct r as [[| x l] |]; try (exists evs; split; [reflexivity | exact HP]).
  destruct (raw args).
  - exists (evs ++ [EvPrint [IStr (reg +:+ ":"); IVal (PList (x :: l));
                             IStr (unit_or_empty regdict)]]).
    split.
    + unfold print, emit, after_call. cbn [calls trace].
      rewrite <- app_assoc. reflexivity.
    + apply Forall_app. split; [exact HP | repeat constructor].
  - destruct (print_value_shape reg regdict (PList (x :: l)) "" (assemble (x :: l))
                (after_call w (EvRead (reg_addr regdict)
                                 (effective_count (Z.of_nat (get_length regdict)))
                                 slave_id) evs)
                eq_refl Hb) as (evs' & E' & HP').
    exists (evs ++ evs'). split.
    + rewrite E'. unfold after_call. cbn [calls trace].
      rewrite <- app_assoc. reflexivity.
    + apply Forall_app. split; assumption.
Qed.

(** X14. With a client library that raises nothing but [ModbusException]
    and a catalog whose "bits" entries carry their labels, dump always runs to
    the end: it makes exactly one read per catalog entry, in catalog order, at
    the entry's address and of the entry's length, and a failed or empty read
    only leaves that entry out. *)
Theorem X14_dump_reads_each_entry_once dev regs args w :
  modbus_only dev ->
  Forall (fun kv => bits_key_present (snd kv)) regs ->
  exists evs,
    dump dev regs args w
    = (Val tt, {| calls := calls w + length regs; trace := trace w ++ evs |})
    /\ filter (fun ev => is_read ev = true) evs = map entry_read regs
    /\ Forall no_write evs.
Proof.
  intros Hdev Hregs. unfold dump. revert w.
  induction Hregs as [| [reg rd] rest Hb _ IH]; intros w.
  - exists []. cbn. rewrite Nat.add_0_r, app_nil_r. destruct w.
    repeat split; constructor.
  - cbn [dump_from]. destruct (dump_entry_shape dev args reg rd w Hdev Hb)
      as (evs1 & E1 & HP1).
    unfold mbind, M_bind. rewrite E1.
    destruct (IH (after_call w (entry_read (reg, rd)) evs1)) as (evs2 & E2 & Hf2 & Hw2).
    rewrite E2. exists ((entry_read (reg, rd) :: evs1) ++ evs2).
    split; [| split].
    + unfold after_call. cbn [calls trace length]. f_equal. f_equal; [lia |].
      rewrite <- app_assoc. reflexivity.
    + rewrite filter_app, filter_cons, decide_True by reflexivity.
      rewrite (filter_reads_no_call _ HP1), Hf2. reflexivity.
    + apply Forall_app. split; [| exact Hw2]. constructor; [reflexivity |].
      eapply Forall_impl; [exact HP1 | intros ev [_ H]; exact H].
Qed.

Lemma X14_dump_reads_each_entry_once_witness :
  exists evs,
    dump silent_device Quint24DCRegisters (thresholds None None) world0
    = (Val tt, {| calls := 0 + length Quint24DCRegisters; trace := [] ++ evs |})
    /\ filter (fun ev => is_read ev = true) evs = map entry_read Quint24DCRegisters
    /\ Forall no_write evs.
Proof.
  apply (X14_dump_reads_each_entry_once silent_device Quint24DCRegisters
           (thresholds None None) world0).
  - intros n ev e. discriminate.
  - apply catalog_bits_keys.
Defined.

(** ** dumpall, continued *)

(** [m] returns or raises without a client call of its own and without
    running out of fuel. *)
Lemma print_value_calls reg info values prefix w :
  calls (snd (print_value reg info values prefix w)) = calls w
  /\ fst (print_value reg info values prefix w) <> OutOfFuel.
Proof.
  assert (Hbits : forall value bits w0,
            calls (snd (print_bits value bits w0)) = calls w0
            /\ fst (print_bits value bits w0) <> OutOfFuel).
  { intros [v |] bits w0.
    - rewrite print_bits_lines. split; [reflexivity | discriminate].
    - destruct bits as [| [bit descr] rest]; split; try reflexivity; discriminate. }
  unfold print_value. destruct info as [regdict | a];
    [| split; [reflexivity | discriminate]].
  cbv zeta.
  assert (Hrest : forall value : option Z,
    let m :=
      (if type_is regdict "bool" then
         print [IStr (prefix +:+ reg +:+ ":");
                IStr (if truthy value then "on" else "off")]
       else if type_is regdict "int" then
         print [IStr (prefix +:+ reg +:+ ":"); item_of value;
                IStr (unit_or_empty regdict)]
       else if type_is regdict "bits" then
         print [IStr (prefix +:+ reg +:+ ":"); item_of value];;
         match reg_bits regdict with
         | Some bits => print_bits value bits
         | None => raise KeyError
         end
       else
         print [IStr (prefix +:+ reg +:+ ":"); item_of value;
                IStr (unit_or_empty regdict)]) in
    calls (snd (m w)) = calls w /\ fst (m w) <> OutOfFuel).
  { intros value. cbv zeta.
    destruct (type_is regdict "bool"); [split; [reflexivity | discriminate] |].
    destruct (type_is regdict "int"); [split; [reflexivity | discriminate] |].
    destruct (type_is regdict "bits"); [| split; [reflexivity | discriminate]].
    unfold mbind, M_bind. cbn [print emit].
    destruct (reg_bits regdict) as [bits |]; [| split; [reflexivity | discriminate]].
    match goal with
    | |- context [print_bits ?x ?b ?w1] =>
        destruct (Hbits x b w1) as [Hc Hf]; split; [exact Hc | exact Hf]
    end. }
  destruct (reg_values regdict) as [[d | f] |], (value_of values) as [v |];
    try apply Hrest; try (split; [reflexivity | discriminate]).
  destruct (dict_get v d); [split; [reflexivity | discriminate] | apply Hrest].
Qed.

Lemma readRegister_calls dev addr count w :
  calls (snd (readRegister dev addr count w)) = S (calls w)
  /\ fst (readRegister dev addr count w) <> OutOfFuel.
Proof.
  unfold readRegister, mbind, M_bind, request.
  destruct (dev (calls w) _) as [e | e | resp]; cbn;
    [split; [reflexivity | discriminate] .. |].
  destruct (isError resp); [| destruct (isExceptionResponse resp)]; cbn;
    split; try reflexivity; discriminate.
Qed.

Lemma dumpall_body_progress dev regs i w r w' :
  lengths_positive regs ->
  dumpall_body dev regs i w = (r, w') ->
  calls w' = S (calls w)
  /\ match r with
     | Val i' => i < i'
     | Exc _ => True
     | OutOfFuel => False
     end.
Proof.
  intros Hpos H. unfold dumpall_body, mbind, M_bind in H.
  destruct (readRegister_calls dev i 1 w) as [Hc Hf].
  destruct (readRegister dev i 1 w) as [[values | e |] w1]; cbn [fst snd] in *;
    [| inversion H; subst; split; [exact Hc | exact I] | contradiction].
  pose proof (Hpos i) as Hinc. unfold idx_inc in Hinc.
  destruct (find_addr regs i) as [[reg rd] |].
  - destruct (print_value_calls reg (InfoDict rd) (pyval_of values) "" w1) as [Hc' Hf'].
    destruct (print_value reg (InfoDict rd) (pyval_of values) "" w1)
      as [[[] | e |] w2]; cbn [fst snd mret M_ret] in *.
    + inversion H; subst. split; [congruence | lia].
    + inversion H; subst. split; [congruence | exact I].
    + contradiction.
  - destruct (bool_decide _); cbn [mret M_ret] in H.
    + inversion H; subst. split; [exact Hc | lia].
    + destruct (print_value_calls (last_reg regs) (InfoAddr i) (pyval_of values) "" w1)
        as [Hc' Hf'].
      destruct (print_value (last_reg regs) (InfoAddr i) (pyval_of values) "" w1)
        as [[[] | e |] w2]; cbn [fst snd] in *.
      * inversion H; subst. split; [congruence | lia].
      * inversion H; subst. split; [congruence | exact I].
      * contradiction.
Qed.

Lemma dumpall_loop_ends dev regs :
  lengths_positive regs ->
  forall fuel i w,
  (Z.to_nat (0x7500 - i) < fuel)%nat ->
  fst (dumpall_loop dev regs fuel i w) <> OutOfFuel
  /\ (calls (snd (dumpall_loop dev regs fuel i w)) <= calls w + Z.to_nat (0x7500 - i))%nat.
Proof.
  intros Hpos. induction fuel as [| fuel IH]; intros i w Hfuel; [lia |].
  cbn [dumpall_loop].
  destruct (Z.ltb_spec i 0x7500) as [Hlt | Hge];
    [| split; [discriminate | cbn; lia]].
  unfold mbind, M_bind.
  destruct (dumpall_body dev regs i w) as [r w1] eqn:E.
  destruct (dumpall_body_progress dev regs i w r w1 Hpos E) as [Hc Hr].
  destruct r as [i' | e |]; cbn [fst snd];
    [| split; [discriminate | lia] | contradiction].
  destruct (IH i' w1) as [Hf Hcalls]; [lia |]. split; [exact Hf | lia].
Qed.

(** X15. When every catalog entry occupies at least one word, dumpall ends
    for any device: the address grows with every turn, so 257 turns are enough
    and at most 256 reads are made. *)
Theorem X15_dumpall_ends dev regs fuel w :
  lengths_positive regs -> (257 <= fuel)%nat ->
  fst (dumpall dev regs fuel w) <> OutOfFuel
  /\ (calls (snd (dumpall dev regs fuel w)) <= calls w + 256)%nat.
Proof.
  intros Hpos Hfuel. unfold dumpall.
  destruct (dumpall_loop_ends dev regs Hpos fuel 0x7400 w) as [Hf Hc];
    [vm_compute in *; lia |].
  split; [exact Hf |]. change (Z.to_nat (0x7500 - 0x7400)) with 256%nat in Hc. exact Hc.
Qed.

Lemma X15_dumpall_ends_witness :
  fst (dumpall silent_device Quint24DCRegisters 257 world0) <> OutOfFuel
  /\ (calls (snd (dumpall silent_device Quint24DCRegisters 257 world0)) <= 0 + 256)%nat.
Proof.
  apply (X15_dumpall_ends silent_device Quint24DCRegisters 257 world0).
  - apply Quint24DC_lengths_positive.
  - apply le_n.
Defined.

(** X16. dumpall prints a failed read as if it were data: at an address
    without catalog entry the line shows the address and [None] (only the
    exact answer [[65535]] is suppressed), and at a boolean register without
    callable the line says "off".  In both cases the scan goes on. *)
Theorem X16_dumpall_prints_failed_reads dev regs i w :
  failure (dev (calls w) (EvRead i 1 slave_id)) ->
  exists msg,
    (find_addr regs i = None ->
     dumpall_body dev regs i w
     = (Val (i + 1),
        after_call w (EvRead i 1 slave_id)
          [EvPrint [IStr ("Received Modbus" +:+ msg)]; EvClose;
           EvPrint [IStr (hex02 i); IVal PNone]]))
    /\ (forall reg regdict,
          find_addr regs i = Some (reg, regdict) ->
          type_is regdict "bool" = true ->
          (forall f, reg_values regdict <> Some (VFun f)) ->
          dumpall_body dev regs i w
          = (Val (i + Z.of_nat (get_length regdict) - 1 + 1),
             after_call w (EvRead i 1 slave_id)
               [EvPrint [IStr ("Received Modbus" +:+ msg)]; EvClose;
                EvPrint [IStr (reg +:+ ":"); IStr "off"]])).
Proof.
  intros Hf. destruct (readRegister_failure dev i 1 w ltac:(lia) Hf) as (msg & E).
  exists msg. split.
  - intros Hn. unfold dumpall_body, mbind, M_bind. rewrite E, Hn.
    rewrite bool_decide_eq_false_2 by discriminate.
    unfold print_value, print, emit, after_call. cbn [calls trace pyval_of mret M_ret].
    rewrite <- ?app_assoc. reflexivity.
  - intros reg rd Hfound Ht Hv. unfold dumpall_body, mbind, M_bind. rewrite E, Hfound.
    unfold print_value. cbn [pyval_of value_of].
    destruct (reg_values rd) as [[d | f] |]; [| exfalso; exact (Hv f eq_refl) |];
      rewrite Ht; unfold print, emit, after_call, truthy;
      cbn [calls trace mret M_ret]; rewrite <- ?app_assoc; reflexivity.
Qed.

Lemma X16_dumpall_prints_failed_reads_witness :
  exists msg,
    (find_addr Quint24DCRegisters 0x7404 = None ->
     dumpall_body silent_device Quint24DCRegisters 0x7404 world0
     = (Val (0x7404 + 1),
        after_call world0 (EvRead 0x7404 1 slave_id)
          [EvPrint [IStr ("Received Modbus" +:+ msg)]; EvClose;
           EvPrint [IStr (hex02 0x7404); IVal PNone]]))
    /\ (forall reg regdict,
          find_addr Quint24DCRegisters 0x7404 = Some (reg, regdict) ->
          type_is regdict "bool" = true ->
          (forall f, reg_values regdict <> Some (VFun f)) ->
          dumpall_body silent_device Quint24DCRegisters 0x7404 world0
          = (Val (0x7404 + Z.of_nat (get_length regdict) - 1 + 1),
             after_call world0 (EvRead 0x7404 1 slave_id)
               [EvPrint [IStr ("Received Modbus" +:+ msg)]; EvClose;
                EvPrint [IStr (reg +:+ ":"); IStr "off"]])).
Proof.
  apply (X16_dumpall_prints_failed_reads silent_device Quint24DCRegisters 0x7404 world0).
  exact I.
Defined.

(** ** set, continued *)

(** X17. set reaches the client only when it has exactly two parameters,
    the value parses and the target resolves.  Otherwise it ends before any
    client call: with "wrong parameter" on the error stream and exit status 1
    for a wrong parameter count, with [ValueError] for an unparsable value,
    and with "error, register not found" and exit status 1 for a target that
    is neither a catalog name nor a number. *)
Theorem X17_set_rejections dev regs int0 w :
  (forall params,
     length params <> 2%nat ->
     set_action dev regs int0 params w
     = (Exc (SystemExit 1),
        {| calls := calls w; trace := trace w ++ [EvPrintErr [IStr "wrong parameter"]] |}))
  /\ (forall param value_param,
        int0 value_param = None ->
        set_action dev regs int0 [param; value_param] w = (Exc ValueError, w))
  /\ (forall param value_param value,
        int0 value_param = Some value ->
        resolved_address regs param (int0 param) = None ->
        set_action dev regs int0 [param; value_param] w
        = (Exc (SystemExit 1),
           {| calls := calls w;
              trace := trace w ++ [EvPrint [IStr "error, register not found"]] |})).
Proof.
  split; [| split].
  - intros [| p [| v [| x rest]]] Hlen; try reflexivity. contradiction.
  - intros param value_param Hv. unfold set_action. rewrite Hv. reflexivity.
  - intros param value_param value Hv Hr. unfold set_action, resolved_address in *.
    rewrite Hv. destruct (find_target regs param (int0 param)) as [[reg rd] |];
      [discriminate |]. rewrite Hr. reflexivity.
Qed.

Lemma X17_set_rejections_witness :
  set_action silent_device Quint24DCRegisters int0_examples ["0x3203"] world0
  = (Exc (SystemExit 1),
     {| calls := 0; trace := [EvPrintErr [IStr "wrong parameter"]] |})
  /\ set_action silent_device Quint24DCRegisters int0_examples ["0x3203"; "a lot"] world0
     = (Exc ValueError, world0)
  /\ set_action silent_device Quint24DCRegisters int0_examples ["NO_SUCH_NAME"; "120"]
       world0
     = (Exc (SystemExit 1),
        {| calls := 0; trace := [EvPrint [IStr "error, register not found"]] |}).
Proof.
  destruct (X17_set_rejections silent_device Quint24DCRegisters int0_examples world0)
    as (Hcount & Hvalue & Htarget).
  split; [| split].
  - apply (Hcount ["0x3203"]). simpl. lia.
  - apply (Hvalue "0x3203" "a lot"). reflexivity.
  - apply (Htarget "NO_SUCH_NAME" "120" 120); reflexivity.
Defined.

(** X18. A write that fails does not change how set ends: the diagnostic
    is printed and the client closed, and set still returns normally, with
    no retry and no error status. *)
Theorem X18_set_ignores_write_failure dev regs int0 param value_param value a w :
  int0 value_param = Some value ->
  resolved_address regs param (int0 param) = Some a ->
  failure (dev (calls w) (EvWrite a [value] slave_id)) ->
  exists msg,
    set_action dev regs int0 [param; value_param] w
    = (Val tt,
       after_call w (EvWrite a [value] slave_id)
         [EvPrint [IStr ("Received Modbus" +:+ msg)]; EvClose]).
Proof.
  intros Hv Ha Hf. rewrite (set_action_resolved _ _ _ _ _ _ _ Hv Ha).
  destruct (writeRegister_failure dev a value w Hf) as (msg & E).
  exists msg. unfold mbind, M_bind. rewrite E. reflexivity.
Qed.

Lemma X18_set_ignores_write_failure_witness :
  exists msg,
    set_action silent_device Quint24DCRegisters int0_examples ["0x3203"; "120"] world0
    = (Val tt,
       after_call world0 (EvWrite 0x3203 [120] slave_id)
         [EvPrint [IStr ("Received Modbus" +:+ msg)]; EvClose]).
Proof.
  apply (X18_set_ignores_write_failure silent_device Quint24DCRegisters int0_examples
           "0x3203" "120" 120 0x3203 world0).
  - reflexivity.
  - reflexivity.
  - exact I.
Defined.

(** ** get *)

(** X19. get of a target that names or addresses a catalog entry makes one
    read, of the entry's length at the entry's address, and decodes the
    answer with the entry; when the read succeeds no second read follows,
    whatever the answer holds. *)
Theorem X19_get_entry_reads_once dev regs int0 read_none param reg regdict words w :
  find_target regs param (int0 param) = Some (reg, regdict) ->
  Z.of_nat (get_length regdict) <> 0 ->
  answers dev w (reg_addr regdict) (Z.of_nat (get_length regdict)) words ->
  get_param dev regs int0 read_none param w
  = print_value reg (InfoDict regdict) (PList words) ""
      (after_call w
         (EvRead (reg_addr regdict) (Z.of_nat (get_length regdict)) slave_id) []).
Proof.
  intros Hf Hc Ha. unfold get_param. rewrite Hf. unfold mbind, M_bind.
  rewrite (readRegister_answers dev w _ _ words Hc Ha). cbn [pyval_of].
  destruct (print_value reg (InfoDict regdict) (PList words) "" _) as [[[] | e |] w1];
    reflexivity.
Qed.

Lemma X19_get_entry_reads_once_witness :
  get_param (device_of service_alarm_memory) Quint24DCRegisters int0_examples
    (mret None) "OUT_LUDW_ActualAlarm" world0
  = print_value "OUT_LUDW_ActualAlarm" (InfoDict OUT_LUDW_ActualAlarm) (PList [0; 1]) ""
      (after_call world0 (EvRead 0x7490 2 slave_id) []).
Proof.
  apply (X19_get_entry_reads_once (device_of service_alarm_memory) Quint24DCRegisters
           int0_examples (mret None) "OUT_LUDW_ActualAlarm" "OUT_LUDW_ActualAlarm"
           OUT_LUDW_ActualAlarm [0; 1] world0).
  - reflexivity.
  - vm_compute. discriminate.
  - eexists. repeat split; reflexivity.
Defined.

(** X20. get of a number that is no catalog address reads one word there
    and prints the raw line: the address in hexadecimal and the list the
    client returned. *)
Theorem X20_get_raw_read dev regs int0 read_none param a word_list w :
  find_target regs param (int0 param) = None ->
  int0 param = Some a ->
  answers dev w a 1 word_list ->
  get_param dev regs int0 read_none param w
  = (Val tt,
     after_call w (EvRead a 1 slave_id)
       [EvPrint [IStr (hex02 a); IVal (PList word_list)]]).
Proof.
  intros Hf Hi Ha. unfold get_param. rewrite Hf, Hi. unfold mbind, M_bind.
  cbn [mret M_ret snd fst].
  rewrite (readRegister_answers dev w a 1 word_list ltac:(lia) Ha).
  unfold print_value, print, emit, after_call. cbn [calls trace pyval_of].
  rewrite <- app_assoc. reflexivity.
Qed.

Lemma X20_get_raw_read_witness :
  get_param (device_of (fun _ _ => 7)) Quint24DCRegisters int0_examples
    (mret None) "0x7000" world0
  = (Val tt,
     after_call world0 (EvRead 0x7000 1 slave_id)
       [EvPrint [IStr (hex02 0x7000); IVal (PList [7])]]).
Proof.
  apply (X20_get_raw_read (device_of (fun _ _ => 7)) Quint24DCRegisters int0_examples
           (mret None) "0x7000" 0x7000 [7] world0).
  - reflexivity.
  - reflexivity.
  - eexists. repeat split; reflexivity.
Defined.

(** X21. get of a target that is not a number never ends normally when the
    target is no catalog name, or when the read of its entry fails: the
    search leaves [values] at [None], and the raw line cannot be formatted
    for the address [None]. *)
Theorem X21_get_name_without_value_raises dev regs int0 read_none param w :
  int0 param = None ->
  match find_target regs param None with
  | None => True
  | Some (_, regdict) =>
      Z.of_nat (get_length regdict) <> 0
      /\ failure (dev (calls w)
                    (EvRead (reg_addr regdict) (Z.of_nat (get_length regdict)) slave_id))
  end ->
  returned (get_param dev regs int0 read_none param w) = false.
Proof.
  intros Hi Hcase. unfold returned, get_param. rewrite Hi.
  destruct (find_target regs param None) as [[reg regdict] |].
  - destruct Hcase as [Hc Hf].
    destruct (readRegister_failure dev _ _ w Hc Hf) as (msg & E).
    unfold mbind, M_bind. rewrite E. cbn [pyval_of].
    destruct (print_value reg (InfoDict regdict) PNone "" _) as [[[] | e |] w1];
      cbn [mret M_ret snd fst]; try reflexivity.
    destruct (read_none w1) as [[v | e |] w2]; reflexivity.
  - unfold mbind, M_bind. cbn [mret M_ret snd fst].
    destruct (read_none w) as [[v | e |] w2]; reflexivity.
Qed.

Lemma X21_get_name_without_value_raises_witness :
  returned (get_param silent_device Quint24DCRegisters int0_examples (mret None)
              "OUT_LUDW_ActualAlarm" world0) = false.
Proof.
  apply (X21_get_name_without_value_raises silent_device Quint24DCRegisters
           int0_examples (mret None) "OUT_LUDW_ActualAlarm" world0).
  - reflexivity.
  - vm_compute. split; [discriminate | exact I].
Defined.

(** X22. When get addresses a catalog entry by number and the read of the
    entry fails, get goes on after the decoder as if no entry had matched: a
    second read, of one word, at the number given. *)
Theorem X22_get_failed_read_reads_again dev regs int0 read_none param a reg regdict w :
  int0 param = Some a ->
  find_target regs param (Some a) = Some (reg, regdict) ->
  Z.of_nat (get_length regdict) <> 0 ->
  failure (dev (calls w)
             (EvRead (reg_addr regdict) (Z.of_nat (get_length regdict)) slave_id)) ->
  exists msg,
    get_param dev regs int0 read_none param w
    = (print_value reg (InfoDict regdict) PNone "";;
       values ← readRegister dev a 1;
       print_value reg (InfoAddr a) (pyval_of values) "")
        (after_call w
           (EvRead (reg_addr regdict) (Z.of_nat (get_length regdict)) slave_id)
           [EvPrint [IStr ("Received Modbus" +:+ msg)]; EvClose]).
Proof.
  intros Hi Hf Hc Hfail. unfold get_param. rewrite Hi, Hf.
  destruct (readRegister_failure dev _ _ w Hc Hfail) as (msg & E).
  exists msg. unfold mbind, M_bind. rewrite E. cbn [pyval_of].
  destruct (print_value reg (InfoDict regdict) PNone "" _) as [[[] | e |] w1];
    reflexivity.
Qed.

Lemma X22_get_failed_read_reads_again_witness :
  exists msg,
    get_param silent_device Quint24DCRegisters int0_examples (mret None) "0x3203" world0
    = (print_value "TIME_LIMIT_MODE_CUSTOM_BUFFER_TIME" (InfoDict TIME_LIMIT_MODE_CUSTOM_BUFFER_TIME) PNone "";;
       values ← readRegister silent_device 0x3203 1;
       print_value "TIME_LIMIT_MODE_CUSTOM_BUFFER_TIME" (InfoAddr 0x3203) (pyval_of values) "")
        (after_call world0 (EvRead 0x3203 1 slave_id)
           [EvPrint [IStr ("Received Modbus" +:+ msg)]; EvClose]).
Proof.
  apply (X22_get_failed_read_reads_again silent_device Quint24DCRegisters int0_examples
           (mret None) "0x3203" 0x3203 "TIME_LIMIT_MODE_CUSTOM_BUFFER_TIME"
           TIME_LIMIT_MODE_CUSTOM_BUFFER_TIME world0).
  - reflexivity.
  - reflexivity.
  - vm_compute. discriminate.
  - exact I.
Defined.

Lemma get_loop_rounds dev regs int0 read_none params fuel :
  forall count w,
    0 <= count -> (Z.to_nat count < fuel)%nat ->
    get_loop dev regs int0 read_none fuel count params w
    = rounds (Z.to_nat count) (get_round dev regs int0 read_none params) w.
Proof.
  induction fuel as [| fuel IH]; intros count w Hr Hfuel; [lia |].
  cbn [get_loop]. destruct (Z.eqb_spec count 0) as [-> | Hne]; [reflexivity |].
  assert (Hpos : (0 <? count) = true) by (apply Z.ltb_lt; lia). rewrite Hpos.
  assert (Hs : Z.to_nat count = S (Z.to_nat (count - 1))) by lia.
  rewrite Hs. cbn [rounds].
  specialize (IH (count - 1)).
  unfold get_round, mbind, M_bind in *.
  destruct (get_params dev regs int0 read_none params w) as [[[] | e |] w1];
    try reflexivity.
  destruct (emit EvSleep w1) as [[[] | e |] w2] eqn:Es; try reflexivity.
  apply IH; lia.
Qed.

(** X23. With a repeat count that is not negative, get runs that many
    rounds, each one every parameter in order and then one sleep, and stops;
    without [--repeat] it is one round. *)
Theorem X23_get_repeats dev regs int0 read_none fuel repeat_arg params w :
  params <> [] ->
  0 <= default 1%Z repeat_arg ->
  (Z.to_nat (default 1%Z repeat_arg) < fuel)%nat ->
  get_action dev regs int0 read_none fuel repeat_arg params w
  = rounds (Z.to_nat (default 1%Z repeat_arg))
      (get_round dev regs int0 read_none params) w.
Proof.
  intros Hp Hr Hfuel. unfold get_action.
  destruct params as [| p rest]; [contradiction |].
  apply get_loop_rounds; assumption.
Qed.

Lemma X23_get_repeats_witness :
  get_action (device_of (fun _ _ => 7)) Quint24DCRegisters int0_examples (mret None)
    5 None ["0x7000"] world0
  = rounds (Z.to_nat (default 1%Z None))
      (get_round (device_of (fun _ _ => 7)) Quint24DCRegisters int0_examples
         (mret None) ["0x7000"]) world0.
Proof.
  apply (X23_get_repeats (device_of (fun _ _ => 7)) Quint24DCRegisters int0_examples
           (mret None) 5 None ["0x7000"] world0).
  - discriminate.
  - vm_compute. discriminate.
  - vm_compute. lia.
Defined.

Lemma get_loop_negative dev regs int0 read_none params fuel :
  forall count w,
    count < 0 ->
    returned (get_loop dev regs int0 read_none fuel count params w) = false.
Proof.
  induction fuel as [| fuel IH]; intros count w Hr; [reflexivity |].
  cbn [get_loop]. destruct (Z.eqb_spec count 0) as [-> | Hne]; [lia |].
  assert (Hneg : (0 <? count) = false) by (apply Z.ltb_ge; lia). rewrite Hneg.
  specialize (IH count). unfold returned, mbind, M_bind in *.
  destruct (get_params dev regs int0 read_none params w) as [[[] | e |] w1];
    try reflexivity.
  destruct (emit EvSleep w1) as [[[] | e |] w2] eqn:Es; try reflexivity.
  apply IH; assumption.
Qed.

(** X24. With a negative repeat count the count is never changed, so the
    get loop has no normal end: however many steps are allowed, get does not
    return. *)
Theorem X24_get_negative_repeat_never_returns dev regs int0 read_none fuel repeat params
    w :
  repeat < 0 ->
  returned (get_action dev regs int0 read_none fuel (Some repeat) params w) = false.
Proof.
  intros Hr. unfold get_action.
  destruct params as [| p rest]; [reflexivity |].
  apply get_loop_negative; assumption.
Qed.

Lemma X24_get_negative_repeat_never_returns_witness :
  returned (get_action (device_of (fun _ _ => 7)) Quint24DCRegisters int0_examples
              (mret None) 1000 (Some (-1)) ["0x7000"] world0) = false.
Proof.
  apply (X24_get_negative_repeat_never_returns (device_of (fun _ _ => 7))
           Quint24DCRegisters int0_examples (mret None) 1000 (-1) ["0x7000"] world0).
  lia.
Defined.

(** ** The monitor loop *)

(** Decoding against a sound entry adds the same lines in every world. *)
Lemma print_value_events reg regdict values prefix v w :
  value_of values = Some v -> bits_key_present regdict ->
  print_value reg (InfoDict regdict) values prefix w
  = (Val tt,
     {| calls := calls w;
        trace := trace w ++ printed (print_value reg (InfoDict regdict) values prefix) |}).
Proof.
  intros Hv Hb. unfold printed, print_value. rewrite Hv.
  destruct (reg_values regdict) as [[d | f] |].
  2: reflexivity.
  1: destruct (dict_get v d); [reflexivity |].
  all: destruct (type_is regdict "bool"); [reflexivity |];
       destruct (type_is regdict "int"); [reflexivity |];
       destruct (type_is regdict "bits") eqn:Et; [| reflexivity];
       (destruct (reg_bits regdict) as [bits |] eqn:Eb; [| exfalso; exact (Hb Et Eb)]);
       unfold mbind, M_bind; cbn [print emit]; rewrite !print_bits_lines;
       cbn [calls trace snd world0 app]; rewrite <- app_assoc; reflexivity.
Qed.

Lemma find_addr_decodable regs addr reg regdict :
  decodable regs -> find_addr regs addr = Some (reg, regdict) ->
  bits_key_present regdict.
Proof.
  intros Hdec Hf. apply find_addr_In in Hf as [Hin _].
  unfold decodable in Hdec. rewrite Forall_forall in Hdec.
  apply (Hdec (reg, regdict)). apply list_elem_of_In. exact Hin.
Qed.

(** *** Values of register words *)

Lemma weighted_sum_bound (words : list Z) :
  Forall word16 words -> weighted_sum words < 2 ^ (16 * Z.of_nat (length words)).
Proof.
  induction 1 as [| w0 words Hw _ IH]; [vm_compute; reflexivity |].
  rewrite weighted_sum_cons. cbn [length].
  replace (16 * Z.of_nat (S (length words))) with (16 + 16 * Z.of_nat (length words))
    by lia.
  rewrite Z.pow_add_r by lia. change (2 ^ 16) with 65536.
  unfold word16 in Hw. nia.
Qed.

Lemma value_at_range regs start values j :
  lengths_bounded regs -> Forall word16 values ->
  0 <= value_at regs start values j < 2 ^ 1008.
Proof.
  intros Hmax Hw. unfold value_at. pose proof (Hmax (start + Z.of_nat j)) as Hinc.
  unfold idx_inc in Hinc.
  destruct (find_addr regs (start + Z.of_nat j)) as [[reg rd] |].
  - assert (Hsub : Forall word16 (take (get_length rd) (drop j values)))
      by (apply Forall_take, Forall_drop; exact Hw).
    rewrite (assemble_sum _ Hsub).
    pose proof (weighted_sum_nonneg _ Hsub). pose proof (weighted_sum_bound _ Hsub) as Hb.
    split; [assumption |].
    eapply Z.lt_le_trans; [exact Hb |].
    apply Z.pow_le_mono_r; [lia |]. rewrite length_take. lia.
  - destruct (nth_in_or_default j values 0) as [Hin | ->].
    + rewrite Forall_forall in Hw. apply list_elem_of_In, Hw in Hin.
      unfold word16 in Hin. split; [lia |].
      eapply Z.lt_le_trans; [apply Hin |]. vm_compute. discriminate.
    + split; [lia | vm_compute; reflexivity].
Qed.

Lemma values_fit (p v : Z) :
  0 <= p < 2 ^ 1008 -> 0 <= v < 2 ^ 1008 -> p <> 0 -> quotient_fits p v.
Proof.
  intros Hp Hv Hp0. unfold quotient_fits.
  assert (Hb : 2 ^ 1008 <= overflow_bound) by (vm_compute; discriminate).
  remember (2 ^ 1008) as B. remember overflow_bound as C.
  rewrite (Z.abs_eq p) by lia. nia.
Qed.

(** *** The positions of a walk *)

Section Visited.

Variable regs : Catalog.
Hypothesis Hpos : lengths_positive regs.

Lemma visited_bounds start len fuel :
  forall idx j, In j (visited regs start len fuel idx) -> (idx <= j < len)%nat.
Proof.
  induction fuel as [| fuel IH]; intros idx j Hin; [destruct Hin |].
  cbn [visited] in Hin.
  destruct (Nat.ltb_spec idx len) as [Hlt | Hge]; [| destruct Hin].
  destruct Hin as [<- | Hin]; [lia |].
  apply IH in Hin. pose proof (Hpos (start + Z.of_nat idx)). lia.
Qed.

Lemma visited_fuel start len :
  forall fuel fuel' idx,
  (len - idx <= fuel)%nat -> (len - idx <= fuel')%nat ->
  visited regs start len fuel idx = visited regs start len fuel' idx.
Proof.
  induction fuel as [| fuel IH]; intros fuel' idx Hf Hf'.
  - destruct fuel' as [| fuel']; [reflexivity |]. cbn [visited].
    destruct (Nat.ltb_spec idx len); [lia | reflexivity].
  - destruct fuel' as [| fuel'].
    + cbn [visited]. destruct (Nat.ltb_spec idx len); [lia | reflexivity].
    + cbn [visited]. destruct (Nat.ltb_spec idx len) as [Hlt | Hge]; [| reflexivity].
      pose proof (Hpos (start + Z.of_nat idx)).
      f_equal. apply IH; lia.
Qed.

Lemma visited_reaches start values fuel :
  forall idx j, In j (visited regs start (length values) fuel idx) ->
  reaches regs start values idx j.
Proof.
  induction fuel as [| fuel IH]; intros idx j Hin; [destruct Hin |].
  cbn [visited] in Hin.
  destruct (Nat.ltb_spec idx (length values)) as [Hlt | Hge]; [| destruct Hin].
  destruct Hin as [<- | Hin]; [constructor |].
  apply reaches_step; [exact Hlt |]. apply IH. exact Hin.
Qed.

End Visited.

Section Walk.

Variable regs : Catalog.
Variable args : Args.
Variable skip : list Z.
Hypothesis Hpos : lengths_positive regs.

(** After the warm-up, one sample against the value of the pass before. *)
Lemma sample_events now start before values idx prior_ w :
  lengths_bounded regs -> decodable regs ->
  Forall word16 before -> Forall word16 values ->
  prior_ !! (start + Z.of_nat idx) = Some (value_at regs start before idx) ->
  sample regs args {| prior := prior_; first := false |} (now (start + Z.of_nat idx))
    (start + Z.of_nat idx) (find_addr regs (start + Z.of_nat idx)) values idx w
  = (Val (<[start + Z.of_nat idx := value_at regs start values idx]> prior_),
     {| calls := calls w;
        trace := trace w
                 ++ report_at regs (report_rule args) now start before values idx |}).
Proof.
  intros Hmax Hdec Hb Hv Hp.
  pose proof (value_at_range regs start before idx Hmax Hb) as Hpr.
  pose proof (value_at_range regs start values idx Hmax Hv) as Hvr.
  assert (Hsv : sample_value (find_addr regs (start + Z.of_nat idx)) values idx
                = value_at regs start values idx).
  { unfold sample_value, value_at.
    destruct (find_addr regs (start + Z.of_nat idx)) as [[reg rd] |]; reflexivity. }
  rewrite (sample_after_warmup regs args {| prior := prior_; first := false |}
             _ _ _ values idx w (value_at regs start before idx) eq_refl Hp
             (proj1 Hpr)).
  2: { intros Hp0. rewrite Hsv. apply values_fit; assumption. }
  cbv zeta. rewrite Hsv. cbn [prior]. unfold report_at, report_lines.
  destruct (report_rule args _ _).
  - unfold mbind, M_bind.
    destruct (find_addr regs (start + Z.of_nat idx)) as [[reg rd] |] eqn:Ef.
    + rewrite (print_value_events reg rd (PInt _) _ _ w eq_refl
                 (find_addr_decodable _ _ _ _ Hdec Ef)).
      reflexivity.
    + reflexivity.
  - rewrite app_nil_r. destruct w; reflexivity.
Qed.

Lemma walk_events now start before values first_ :
  (first_ = false ->
   lengths_bounded regs /\ decodable regs
   /\ Forall word16 before /\ Forall word16 values) ->
  forall fuel idx prior_ w,
  (length values - idx < fuel)%nat ->
  (first_ = false ->
   forall j, In j (visited regs start (length values) fuel idx) ->
     start + Z.of_nat j ∉ skip ->
     prior_ !! (start + Z.of_nat j) = Some (value_at regs start before j)) ->
  exists prior',
    walk regs args fuel first_ now skip start values idx prior_ w
    = (Val prior',
       {| calls := calls w;
          trace := trace w ++
            if first_ then []
            else flat_map (report_at regs (report_rule args) now start before values)
                   (filter (fun j => start + Z.of_nat j ∉ skip)
                      (visited regs start (length values) fuel idx)) |}).
Proof.
  intros Hwarm. induction fuel as [| fuel IH]; intros idx prior_ w Hfuel Hprior; [lia |].
  rewrite walk_unfold. cbn [visited] in Hprior |- *.
  destruct (Nat.ltb_spec idx (length values)) as [Hlt | Hge].
  - cbv zeta. pose proof (Hpos (start + Z.of_nat idx)) as Hinc.
    rewrite filter_cons.
    assert (Hnext : forall p1 : gmap Z Z,
              (forall a, a <> start + Z.of_nat idx -> p1 !! a = prior_ !! a) ->
              first_ = false ->
              forall j,
                In j (visited regs start (length values) fuel
                        (idx + idx_inc regs (start + Z.of_nat idx))) ->
                start + Z.of_nat j ∉ skip ->
                p1 !! (start + Z.of_nat j) = Some (value_at regs start before j)).
    { intros p1 Hp1 Hf j Hin Hs. rewrite Hp1.
      - apply (Hprior Hf); [right; exact Hin | exact Hs].
      - apply (visited_bounds regs Hpos) in Hin. lia. }
    case_bool_decide as Hs.
    + rewrite decide_False by (intros H; exact (H Hs)).
      apply IH; [lia |]. apply Hnext. reflexivity.
    + rewrite decide_True by exact Hs. cbn [flat_map].
      unfold mbind, M_bind.
      destruct first_.
      * rewrite sample_first by reflexivity. cbn [prior].
        apply IH; [lia |]. intros Hf. discriminate Hf.
      * destruct (Hwarm eq_refl) as (Hmax & Hdec & Hb & Hv).
        rewrite (sample_events now start before values idx prior_ w Hmax Hdec Hb Hv).
        2: { apply (Hprior eq_refl); [left; reflexivity | exact Hs]. }
        match goal with
        | |- context [walk _ _ _ _ _ _ _ _ _ ?p1 ?w1] =>
            destruct (IH (idx + idx_inc regs (start + Z.of_nat idx))%nat p1 w1)
              as (prior' & E)
        end.
        { lia. }
        { apply Hnext. intros a Ha. apply lookup_insert_ne. congruence. }
        exists prior'. rewrite E. cbn [calls trace].
        rewrite <- app_assoc. reflexivity.
  - exists prior_. cbn [mret M_ret]. rewrite filter_nil. cbn [flat_map].
    destruct first_; rewrite app_nil_r; destruct w; reflexivity.
Qed.

(** Above its buffer a walk leaves [prior] alone. *)
Lemma walk_frame_above fuel first_ now start values :
  forall idx prior_ w prior' w',
  walk regs args fuel first_ now skip start values idx prior_ w = (Val prior', w') ->
  forall a, start + Z.of_nat (length values) <= a -> prior' !! a = prior_ !! a.
Proof.
  induction fuel as [| fuel IH]; intros idx prior_ w prior' w' H a Ha;
    [discriminate |].
  rewrite walk_unfold in H.
  destruct (Nat.ltb_spec idx (length values)) as [Hlt | Hge].
  - cbv zeta in H. destruct (bool_decide _).
    + apply (IH _ _ _ _ _ H a Ha).
    + apply bind_val_inv in H as (p1 & w1 & Hs & H).
      apply sample_stores in Hs. cbn [prior] in Hs. subst p1.
      rewrite (IH _ _ _ _ _ H a Ha). apply lookup_insert_ne. lia.
  - inversion H. reflexivity.
Qed.

End Walk.

(** *** The buffer of a range *)

Lemma flat_map_map {A B C} (f : B -> list C) (g : A -> B) (l : list A) :
  flat_map f (map g l) = flat_map (fun x => f (g x)) l.
Proof. induction l as [| x l IH]; [reflexivity |]. cbn. rewrite IH. reflexivity. Qed.

Lemma flat_map_length_const {A B} (f : A -> list B) (n : nat) (l : list A) :
  (forall x, length (f x) = n) -> length (flat_map f l) = (n * length l)%nat.
Proof.
  intros Hf. induction l as [| x l IH]; cbn; [lia |].
  rewrite length_app, Hf, IH. lia.
Qed.

Section Buffer.

Variable dev : Transport.
Hypothesis Hdev : healthy dev.

Lemma delivered_length n addr : length (delivered dev n addr) = 16%nat.
Proof.
  unfold delivered. destruct (Hdev n addr 16 slave_id) as (resp & E & _ & _ & Hl).
  rewrite E. exact Hl.
Qed.

Lemma delivered_words n addr : sends_words dev -> Forall word16 (delivered dev n addr).
Proof.
  intros Hw. unfold delivered.
  destruct (dev n (EvRead addr 16 slave_id)) as [e | e | resp] eqn:E;
    try constructor.
  exact (Hw _ _ _ E).
Qed.

Lemma buffer_length c range :
  length (buffer dev c range) = (16 * batches (snd range - fst range))%nat.
Proof.
  unfold buffer. rewrite (flat_map_length_const _ 16), length_seq; [reflexivity |].
  intros k. apply delivered_length.
Qed.

Lemma buffer_words c range : sends_words dev -> Forall word16 (buffer dev c range).
Proof.
  intros Hw. unfold buffer. apply Forall_forall. intros x Hin.
  apply list_elem_of_In, in_flat_map in Hin as (k & _ & Hin).
  pose proof (delivered_words (c + k) (fst range + 16 * Z.of_nat k) Hw) as Hd.
  rewrite Forall_forall in Hd. apply Hd, list_elem_of_In. exact Hin.
Qed.

Lemma readRegister_delivers addr w :
  readRegister dev addr 0 w
  = (Val (Some (delivered dev (calls w) addr)), after_call w (EvRead addr 16 slave_id) []).
Proof.
  unfold delivered. destruct (Hdev (calls w) addr 16 slave_id) as (resp & E & He & Hx & _).
  unfold readRegister. change (0 =? 0) with true. cbv iota.
  unfold mbind, M_bind, request. rewrite E, He, Hx. reflexivity.
Qed.

Lemma read_range_delivers start end_ :
  forall fuel values w,
  (batches (end_ - start - Z.of_nat (length values)) < fuel)%nat ->
  read_range dev fuel start end_ values w
  = (Val (values
          ++ flat_map (fun k => delivered dev (calls w + k)
                                  (start + Z.of_nat (length values) + 16 * Z.of_nat k))
               (seq 0 (batches (end_ - start - Z.of_nat (length values))))),
     {| calls := calls w + batches (end_ - start - Z.of_nat (length values));
        trace := trace w
          ++ map (fun k => EvRead (start + Z.of_nat (length values) + 16 * Z.of_nat k)
                             16 slave_id)
               (seq 0 (batches (end_ - start - Z.of_nat (length values)))) |}).
Proof.
  induction fuel as [| fuel IH]; intros values w Hfuel; [lia |].
  cbn [read_range].
  destruct (Z.ltb_spec (Z.of_nat (length values)) (end_ - start)) as [Hlt | Hge].
  - rewrite batches_pos in * by lia.
    unfold mbind, M_bind. rewrite readRegister_delivers.
    set (l := delivered dev (calls w) (start + Z.of_nat (length values))).
    assert (Hlen : length (values ++ l) = (length values + 16)%nat)
      by (rewrite length_app; unfold l; rewrite delivered_length; reflexivity).
    rewrite IH.
    2: { rewrite Hlen. replace (end_ - start - Z.of_nat (length values + 16))
           with (end_ - start - Z.of_nat (length values) - 16) by lia. lia. }
    rewrite Hlen.
    replace (end_ - start - Z.of_nat (length values + 16))
      with (end_ - start - Z.of_nat (length values) - 16) by lia.
    unfold after_call. cbn [calls trace seq map flat_map].
    rewrite <- seq_shift, map_map, flat_map_map, <- !app_assoc. cbn [app].
    change (Z.of_nat 0) with 0. rewrite Z.mul_0_r, Z.add_0_r, Nat.add_0_r. fold l.
    rewrite (flat_map_ext
               (fun x => delivered dev (calls w + S x)
                           (start + Z.of_nat (length values) + 16 * Z.of_nat (S x)))
               (fun k => delivered dev (S (calls w) + k)
                           (start + Z.of_nat (length values + 16) + 16 * Z.of_nat k)))
      by (intros k; f_equal; lia).
    rewrite (map_ext
               (fun x => EvRead (start + Z.of_nat (length values) + 16 * Z.of_nat (S x))
                           16 slave_id)
               (fun k => EvRead (start + Z.of_nat (length values + 16) + 16 * Z.of_nat k)
                           16 slave_id))
      by (intros k; f_equal; lia).
    rewrite (Nat.add_succ_r (calls w)). reflexivity.
  - rewrite batches_nonpos by lia. cbn [mret M_ret seq map flat_map].
    rewrite Nat.add_0_r, !app_nil_r. destruct w; reflexivity.
Qed.

Lemma read_range_buffer fuel range w :
  (batches (snd range - fst range) < fuel)%nat ->
  read_range dev fuel (fst range) (snd range) [] w
  = (Val (buffer dev (calls w) range),
     {| calls := calls w + batches (snd range - fst range);
        trace := trace w ++ range_reads range |}).
Proof.
  intros Hfuel. rewrite read_range_delivers by (cbn [length]; rewrite Z.sub_0_r; exact Hfuel).
  cbn [length app]. rewrite Z.sub_0_r. unfold buffer, range_reads.
  f_equal; [f_equal | f_equal; f_equal].
  - apply flat_map_ext. intros k. f_equal. lia.
  - apply map_ext. intros k. f_equal. lia.
Qed.

End Buffer.

(** *** Passes over the ranges *)

Section Pass.

Variable dev : Transport.
Variable regs : Catalog.
Variable args : Args.
Variable skip : list Z.
Variable fuel : nat.
Hypothesis Hdev : healthy dev.
Hypothesis Hpos : lengths_positive regs.

Lemma sampled_visited start len fuel' j :
  (len <= fuel')%nat ->
  In j (sampled regs skip start len)
  <-> In j (visited regs start len fuel' 0) /\ start + Z.of_nat j ∉ skip.
Proof.
  intros Hf. unfold sampled.
  rewrite (visited_fuel regs Hpos start len len fuel' 0) by lia.
  rewrite <- !list_elem_of_In, list_elem_of_filter. tauto.
Qed.

Lemma monitor_range_events now first_ range c_prev prior_ w :
  (first_ = false -> warm_conditions dev regs) ->
  (16 * batches (snd range - fst range) < fuel)%nat ->
  (first_ = false ->
   forall j, In j (sampled regs skip (fst range) (length (buffer dev c_prev range))) ->
     prior_ !! (fst range + Z.of_nat j)
     = Some (value_at regs (fst range) (buffer dev c_prev range) j)) ->
  exists prior',
    monitor_range dev regs args fuel first_ now skip range prior_ w
    = (Val prior',
       {| calls := calls w + batches (snd range - fst range);
          trace := trace w ++ range_reads range
            ++ (if negb first_
                then range_reports regs (report_rule args) skip now (fst range)
                       (buffer dev c_prev range) (buffer dev (calls w) range)
                else []) |})
    /\ (forall j, In j (sampled regs skip (fst range)
                          (length (buffer dev (calls w) range))) ->
          prior' !! (fst range + Z.of_nat j)
          = Some (value_at regs (fst range) (buffer dev (calls w) range) j))
    /\ (forall a, a < fst range -> prior' !! a = prior_ !! a)
    /\ (forall a, fst range + 16 * Z.of_nat (batches (snd range - fst range)) <= a ->
          prior' !! a = prior_ !! a).
Proof.
  intros Hwarm Hfuel Hprior. destruct range as [start end_]. cbn [fst snd] in *.
  unfold monitor_range, mbind, M_bind.
  pose proof (read_range_buffer dev Hdev fuel (start, end_) w) as Hread.
  cbn [fst snd] in Hread. rewrite Hread by lia. clear Hread.
  set (values := buffer dev (calls w) (start, end_)).
  set (before := buffer dev c_prev (start, end_)) in *.
  assert (Hlen : length values = (16 * batches (end_ - start))%nat)
    by apply (buffer_length dev Hdev).
  assert (Hlenb : length before = (16 * batches (end_ - start))%nat)
    by apply (buffer_length dev Hdev).
  match goal with
  | |- context [walk _ _ _ _ _ _ _ _ _ _ ?x] => set (w1 := x)
  end.
  destruct (walk_events regs args skip Hpos now start before values first_)
    with (fuel := fuel) (idx := 0%nat) (prior_ := prior_) (w := w1) as (prior' & E).
  { intros Hf. destruct (Hwarm Hf) as (Hwords & Hmax & Hdec).
    repeat split; try assumption; apply buffer_words; exact Hwords. }
  { lia. }
  { intros Hf j Hin Hs. apply (Hprior Hf).
    rewrite Hlenb, <- Hlen. apply (sampled_visited start (length values) fuel j); [lia |].
    split; assumption. }
  exists prior'. split; [| split; [| split]].
  - rewrite E. unfold w1. cbn [calls trace]. f_equal. f_equal.
    rewrite <- app_assoc. f_equal. f_equal.
    destruct first_; [reflexivity |]. cbn [negb]. unfold range_reports, sampled.
    rewrite (visited_fuel regs Hpos start (length values) (length values) fuel 0)
      by lia.
    reflexivity.
  - intros j Hin.
    apply (sampled_visited start (length values) fuel j) in Hin as [Hin Hs]; [| lia].
    apply (walk_records _ _ _ _ _ _ _ _ _ _ _ _ _ E j); [| | exact Hs].
    + eapply visited_reaches. exact Hin.
    + apply (visited_bounds regs Hpos) in Hin. lia.
  - intros a Ha. apply (walk_frame _ _ _ _ _ _ _ _ _ _ _ _ _ E). simpl. lia.
  - intros a Ha. apply (walk_frame_above _ _ _ _ _ _ _ _ _ _ _ _ _ E). lia.
Qed.

Lemma baseline_agree ranges lower :
  forall c (p p1 : gmap Z Z),
  Forall (fun range => lower <= fst range) ranges ->
  (forall a, lower <= a -> p1 !! a = p !! a) ->
  baseline dev regs skip ranges c p -> baseline dev regs skip ranges c p1.
Proof.
  induction ranges as [| range rest IH]; intros c p p1 Hl Hagree Hb; [exact I |].
  apply Forall_cons in Hl as [Hl Hrest]. destruct Hb as [Hhere Hb].
  split.
  - intros j Hin. rewrite Hagree by lia. apply Hhere. exact Hin.
  - apply (IH _ p); assumption.
Qed.

Lemma monitor_ranges_events now first_ :
  (first_ = false -> warm_conditions dev regs) ->
  forall ranges c_prev prior_ w,
  separated ranges ->
  Forall (fun range => (16 * batches (snd range - fst range) < fuel)%nat) ranges ->
  (first_ = false -> baseline dev regs skip ranges c_prev prior_) ->
  exists prior',
    monitor_ranges dev regs args fuel first_ now skip ranges prior_ w
    = (Val prior',
       {| calls := calls w + reads_per_pass ranges;
          trace := trace w
            ++ ranges_events dev regs (report_rule args) skip now (negb first_) ranges
                 c_prev (calls w) |})
    /\ baseline dev regs skip ranges (calls w) prior'
    /\ (forall a, Forall (fun range => a < fst range) ranges ->
          prior' !! a = prior_ !! a).
Proof.
  intros Hwarm.
  induction ranges as [| range rest IH]; intros c_prev prior_ w Hsep Hfuel Hbase.
  - exists prior_. cbn. rewrite Nat.add_0_r, app_nil_r.
    split; [destruct w; reflexivity | split; [exact I | reflexivity]].
  - destruct Hsep as [Hlater Hsep]. apply Forall_cons in Hfuel as [Hf Hfuel].
    destruct (monitor_range_events now first_ range c_prev prior_ w Hwarm Hf)
      as (prior1 & E1 & Hrec & Hbelow & Habove).
    { intros Hfirst. apply (Hbase Hfirst). }
    match type of E1 with _ = (_, ?x) => set (w1 := x) in * end.
    destruct (IH (c_prev + batches (snd range - fst range))%nat prior1 w1 Hsep Hfuel)
      as (prior' & E2 & Hb2 & Hframe).
    { intros Hfirst.
      apply (baseline_agree rest
               (fst range + 16 * Z.of_nat (batches (snd range - fst range)))
               _ prior_); [exact Hlater | exact Habove | apply (Hbase Hfirst)]. }
    exists prior'. split; [| split].
    + cbn [monitor_ranges ranges_events reads_per_pass foldr]. unfold mbind, M_bind.
      rewrite E1, E2. unfold w1. cbn [calls trace]. f_equal.
      f_equal; [unfold reads_per_pass; cbn [foldr]; lia |].
      rewrite <- !app_assoc. reflexivity.
    + split; [| exact Hb2].
      intros j Hin. rewrite Hframe; [apply Hrec; exact Hin |].
      assert (Hj : (j < length (buffer dev (calls w) range))%nat).
      { apply (sampled_visited _ _ (length (buffer dev (calls w) range))) in Hin
          as [Hin _]; [| lia].
        apply (visited_bounds regs Hpos) in Hin. lia. }
      rewrite (buffer_length dev Hdev) in Hj.
      eapply Forall_impl; [exact Hlater |]. cbn beta. intros later Hl. lia.
    + intros a Ha. apply Forall_cons in Ha as [Ha Hrest].
      rewrite Hframe by exact Hrest. apply Hbelow. exact Ha.
Qed.

Hypothesis Hfuel : (176 <= fuel)%nat.

Lemma monitor_ranges_separated : separated Quint24DCMonitorRegisters.
Proof. repeat split; repeat constructor; vm_compute; discriminate. Qed.

Lemma monitor_cycle_events now st c_prev w :
  (first st = false -> warm_conditions dev regs) ->
  (first st = false ->
   baseline dev regs skip Quint24DCMonitorRegisters c_prev (prior st)) ->
  exists prior',
    monitor_cycle dev regs args fuel now skip st w
    = (Val {| prior := prior'; first := false |},
       {| calls := calls w + reads_per_pass Quint24DCMonitorRegisters;
          trace := trace w
            ++ pass_events dev regs (report_rule args) skip now (negb (first st))
                 Quint24DCMonitorRegisters c_prev (calls w) |})
    /\ baseline dev regs skip Quint24DCMonitorRegisters (calls w) prior'.
Proof.
  intros Hwarm Hbase.
  destruct (monitor_ranges_events now (first st) Hwarm Quint24DCMonitorRegisters c_prev
              (prior st) w monitor_ranges_separated) as (prior' & E & Hb & _).
  { repeat constructor; cbn [fst snd]; vm_compute; lia. }
  { exact Hbase. }
  exists prior'. split; [| exact Hb].
  unfold monitor_cycle, mbind, M_bind. rewrite E. unfold pass_events, emit.
  cbn [calls trace]. rewrite <- app_assoc. reflexivity.
Qed.


End Pass.

(** *** The whole run *)





Lemma monitor_skip_set args w :
  monitor_skip_addr Quint24DCRegisters args w = (Val (skip_set args), w).
Proof. unfold monitor_skip_addr. rewrite extend_default_skip_app. reflexivity. Qed.




Lemma ranges_events_cold dev regs rule skip now ranges :
  forall c_prev c,
  ranges_events dev regs rule skip now false ranges c_prev c
  = flat_map range_reads ranges.
Proof.
  induction ranges as [| range rest IH]; intros c_prev c; [reflexivity |].
  cbn [ranges_events flat_map]. rewrite IH. reflexivity.
Qed.

(** The first pass of the monitor with a device that answers: the 25 reads
    and the sleep, and a state that holds every value of the pass. *)
Lemma monitor_first_pass dev args fuel now w :
  healthy dev -> (176 <= fuel)%nat ->
  exists st,
    monitor dev Quint24DCRegisters args 1 fuel now w
    = (Val st,
       {| calls := calls w + 25;
          trace := trace w ++ flat_map range_reads Quint24DCMonitorRegisters
                   ++ [EvSleep] |})
    /\ first st = false
    /\ baseline dev Quint24DCRegisters (skip_set args) Quint24DCMonitorRegisters
         (calls w) (prior st).
Proof.
  intros Hdev Hfuel.
  destruct (monitor_cycle_events dev Quint24DCRegisters args (skip_set args) fuel
              Hdev Quint24DC_lengths_positive Hfuel (now 0%nat)
              {| prior := ∅; first := true |} 0%nat w) as (prior' & E & Hb).
  { intros H. discriminate H. }
  { intros H. discriminate H. }
  exists {| prior := prior'; first := false |}. split; [| split; [reflexivity | exact Hb]].
  unfold monitor, mbind, M_bind. rewrite monitor_skip_set. cbn [monitor_cycles].
  unfold mbind, M_bind. rewrite E. cbn [mret M_ret first negb].
  unfold pass_events. rewrite ranges_events_cold. reflexivity.
Qed.






(** C3. During the first polling pass no value is reported, whatever the
    thresholds and whatever the device does: every event of the pass is a
    client call, the sleep, or the diagnostic of a failed read; this holds
    for the pass taken by itself and for the monitor action cut after its
    first pass.  The walk of a range's buffer adds no event and records the
    value of every position it reaches outside the skip set as the prior.
    [first] stays true for all ranges of the pass and is false once the pass
    has completed.  With a device that answers every read the pass does
    complete, printing nothing, and the state it leaves holds, for every
    sampled position of every range, the value observed in this pass
    ([baseline]); the monitor action cut after its first pass consists of
    the 25 reads and the sleep and leaves such a state, with [first] false. *)
Theorem C3_warmup_never_reports dev regs args fuel now skip st :
  first st = true ->
  (forall w, Forall no_report
               (new_events (monitor_cycle dev regs args fuel now skip st) w))
  /\ (forall start values prior_ w,
        snd (walk regs args fuel true now skip start values 0 prior_ w) = w)
  /\ (forall start values prior_ w prior' w',
        walk regs args fuel true now skip start values 0 prior_ w = (Val prior', w') ->
        forall j, reaches regs start values 0 j -> (j < length values)%nat ->
        start + Z.of_nat j ∉ skip ->
        prior' !! (start + Z.of_nat j) = Some (value_at regs start values j))
  /\ (forall w st' w',
        monitor_cycle dev regs args fuel now skip st w = (Val st', w') ->
        first st' = false)
  /\ (healthy dev -> lengths_positive regs -> (176 <= fuel)%nat ->
      forall w, exists st' w',
        monitor_cycle dev regs args fuel now skip st w = (Val st', w')
        /\ first st' = false
        /\ Forall no_print
             (new_events (monitor_cycle dev regs args fuel now skip st) w)
        /\ baseline dev regs skip Quint24DCMonitorRegisters (calls w) (prior st'))
  /\ (forall clock_ w,
        Forall no_report (new_events (monitor dev regs args 1 fuel clock_) w))
  /\ (healthy dev -> (176 <= fuel)%nat ->
      forall clock_ w, exists st',
        monitor dev Quint24DCRegisters args 1 fuel clock_ w
        = (Val st',
           {| calls := calls w + 25;
              trace := trace w ++ flat_map range_reads Quint24DCMonitorRegisters
                       ++ [EvSleep] |})
        /\ first st' = false
        /\ baseline dev Quint24DCRegisters (skip_set args) Quint24DCMonitorRegisters
             (calls w) (prior st')).
Proof.
  intros Hf. split; [| split; [| split; [| split; [| split; [| split]]]]].
  - intros w. apply only_emits_new_events.
    apply monitor_cycle_first_no_report. exact Hf.
  - intros start values prior_ w. apply walk_first_silent.
  - intros start values prior_ w prior' w' H. eapply walk_first_records. exact H.
  - intros w st' w'. apply monitor_cycle_flag.
  - intros Hdev Hregs Hfuel w.
    destruct (monitor_cycle_first_completes dev regs args Hdev Hregs fuel now skip
                st Hf Hfuel w) as (st' & w' & evs & E & Hst & Hc & HP).
    destruct (monitor_cycle_events dev regs args skip fuel Hdev Hregs Hfuel now st
                0%nat w) as (prior' & E' & Hb).
    { intros H. congruence. }
    { intros H. congruence. }
    exists st', w'. split; [exact E | split; [exact Hst | split]].
    + rewrite (new_events_continues _ _ evs); [exact HP | rewrite E; exact Hc].
    + rewrite E in E'. inversion E'. exact Hb.
  - intros clock_ w. apply only_emits_new_events. apply monitor_first_pass_no_report.
  - intros Hdev Hfuel clock_ w. apply monitor_first_pass; assumption.
Qed.

Lemma C3_warmup_never_reports_witness :
  first initial_state = true
  /\ exists st' w',
       monitor_cycle (device_of (fun n a => a + Z.of_nat n)) Quint24DCRegisters
         (thresholds None None) 176 (fun _ => "12:00:00") [] initial_state world0
       = (Val st', w')
       /\ first st' = false
       /\ Forall no_print
            (new_events
               (monitor_cycle (device_of (fun n a => a + Z.of_nat n))
                  Quint24DCRegisters (thresholds None None) 176
                  (fun _ => "12:00:00") [] initial_state) world0)
       /\ baseline (device_of (fun n a => a + Z.of_nat n)) Quint24DCRegisters []
            Quint24DCMonitorRegisters (calls world0) (prior st').
Proof.
  split; [reflexivity |].
  apply (C3_warmup_never_reports (device_of (fun n a => a + Z.of_nat n))
           Quint24DCRegisters (thresholds None None) 176 (fun _ => "12:00:00") []
           initial_state eq_refl).
  - apply device_of_healthy.
  - apply Quint24DC_lengths_positive.
  - apply le_n.
Defined.

(** ** The scan of dumpall as a whole *)

Section ScanRun.

Variable dev : Transport.
Variable regs : Catalog.
Hypothesis Hdev : healthy dev.
Hypothesis Hdec : decodable regs.
Hypothesis Hpos : lengths_positive regs.

Lemma scanned_fuel :
  forall fuel fuel' i,
  (Z.to_nat (0x7500 - i) <= fuel)%nat -> (Z.to_nat (0x7500 - i) <= fuel')%nat ->
  scanned regs fuel i = scanned regs fuel' i.
Proof.
  induction fuel as [| fuel IH]; intros fuel' i Hf Hf'.
  - destruct fuel' as [| fuel']; [reflexivity |]. cbn [scanned].
    destruct (Z.ltb_spec i 0x7500); [lia | reflexivity].
  - destruct fuel' as [| fuel']; cbn [scanned];
      destruct (Z.ltb_spec i 0x7500) as [Hlt | Hge]; try reflexivity; try lia.
    pose proof (Hpos i). f_equal. apply IH; lia.
Qed.

Lemma readRegister_one i w :
  readRegister dev i 1 w
  = (Val (Some (answer dev (calls w) i)), after_call w (EvRead i 1 slave_id) []).
Proof.
  unfold answer. destruct (Hdev (calls w) i 1 slave_id) as (resp & E & He & Hx & _).
  apply readRegister_answers; [lia |]. exists resp. rewrite E. repeat split; assumption.
Qed.

(** One turn of the scan: the read, the lines of the address, and the step
    over the words of its entry. *)
Lemma dumpall_body_scan i w :
  dumpall_body dev regs i w
  = (Val (i + Z.of_nat (idx_inc regs i)),
     {| calls := S (calls w);
        trace := trace w
                 ++ EvRead i 1 slave_id :: scan_lines regs i (answer dev (calls w) i) |}).
Proof.
  unfold dumpall_body, mbind, M_bind. rewrite readRegister_one.
  unfold scan_lines, idx_inc. set (words := answer dev (calls w) i).
  cbn [pyval_of].
  destruct (find_addr regs i) as [[reg rd] |] eqn:Ef.
  - rewrite (print_value_events reg rd (PList words) "" _ _ eq_refl
               (find_addr_decodable _ _ _ _ Hdec Ef)).
    unfold after_call. cbv zeta. cbn [calls trace mret M_ret]. rewrite <- app_assoc.
    replace (i + Z.of_nat (get_length rd) - 1 + 1) with (i + Z.of_nat (get_length rd))
      by lia.
    reflexivity.
  - case_bool_decide as Hs.
    + rewrite bool_decide_eq_true_2 by congruence.
      unfold after_call. cbn [mret M_ret]. reflexivity.
    + rewrite bool_decide_eq_false_2 by congruence.
      unfold print_value, print, emit, after_call. cbn [calls trace mret M_ret].
      rewrite <- app_assoc. reflexivity.
Qed.

Lemma dumpall_loop_scan :
  forall fuel i w,
  (Z.to_nat (0x7500 - i) < fuel)%nat ->
  dumpall_loop dev regs fuel i w
  = (Val tt,
     {| calls := calls w + length (scanned regs fuel i);
        trace := trace w ++ scan_events dev regs (calls w) (scanned regs fuel i) |}).
Proof.
  induction fuel as [| fuel IH]; intros i w Hfuel; [lia |].
  cbn [dumpall_loop scanned].
  destruct (Z.ltb_spec i 0x7500) as [Hlt | Hge].
  - unfold mbind, M_bind. rewrite dumpall_body_scan. pose proof (Hpos i).
    rewrite IH by lia. cbn [calls trace length scan_events].
    rewrite <- app_assoc. cbn [app]. f_equal. f_equal. lia.
  - cbn [mret M_ret length scan_events]. rewrite Nat.add_0_r, app_nil_r.
    destruct w; reflexivity.
Qed.

End ScanRun.

(** C6. In dumpall, an address without catalog entry whose single read
    word is [0xFFFF] gives no output, any other word there gives a raw line,
    and at a catalog address the word [0xFFFF] is decoded and printed like
    any other.  With a device that answers every read, the whole scan is
    [scan_events] over the addresses it reads: for each of them the read and
    then [scan_lines] of the answer.  The scan reads every address from
    [0x7400] to [0x74ff] except [0x7491], the second word of the alarm
    register, so a word there gives no line.  In whole runs: [0x7404] has no
    entry, and gives nothing for [0xFFFF] and a raw line for [0x1234];
    [0x7435] maps 65535 to "not initialized" and [0x7401] is a boolean
    without a map. *)
Theorem C6_sentinel_only_unmatched dev regs fuel w :
  healthy dev -> decodable regs -> lengths_positive regs -> (257 <= fuel)%nat ->
  dumpall dev regs fuel w
  = (Val tt,
     {| calls := calls w + length (scanned regs 256 0x7400);
        trace := trace w ++ scan_events dev regs (calls w) (scanned regs 256 0x7400) |})
  /\ (forall i, find_addr regs i = None -> scan_lines regs i [65535] = [])
  /\ (forall i word,
        find_addr regs i = None -> word <> 65535 ->
        scan_lines regs i [word] = [EvPrint [IStr (hex02 i); IVal (PList [word])]])
  /\ (forall i reg regdict,
        find_addr regs i = Some (reg, regdict) ->
        exists items evs,
          scan_lines regs i [65535] = EvPrint (IStr (reg +:+ ":") :: items) :: evs)
  /\ scanned Quint24DCRegisters 256 0x7400
     = filter (fun i => i <> 0x7491) (map (fun k => 0x7400 + Z.of_nat k) (seq 0 256))
  /\ output_at 0x7404 (printed (dumpall (holding 0x7404 0xFFFF) Quint24DCRegisters 257))
     = []
  /\ output_at 0x7404 (printed (dumpall (holding 0x7404 0x1234) Quint24DCRegisters 257))
     = [EvPrint [IStr "0x7404"; IVal (PList [0x1234])]]
  /\ output_at 0x7435 (printed (dumpall (holding 0x7435 0xFFFF) Quint24DCRegisters 257))
     = [EvPrint [IStr "OUT_LUI_SocStateOfCharge:"; IStr "not initialized"]]
  /\ output_at 0x7401 (printed (dumpall (holding 0x7401 0xFFFF) Quint24DCRegisters 257))
     = [EvPrint [IStr "OUT_LX_BatteryMode:"; IStr "on"]]
  /\ filter (fun ev => ev = EvRead 0x7491 1 slave_id)
       (printed (dumpall (holding 0x7491 0x1234) Quint24DCRegisters 257))
     = [].
Proof.
  intros Hdev Hdec Hpos Hfuel. split; [| split; [| split; [| split; [| split]]]].
  - unfold dumpall. rewrite (dumpall_loop_scan dev regs Hdev Hdec Hpos) by (simpl; lia).
    rewrite (scanned_fuel regs Hpos fuel 256 0x7400) by (simpl; lia). reflexivity.
  - intros i Hn. unfold scan_lines. rewrite Hn. reflexivity.
  - intros i word Hn Hw. unfold scan_lines. rewrite Hn.
    rewrite bool_decide_eq_false_2 by congruence. reflexivity.
  - intros i reg regdict Hf. unfold scan_lines, printed. rewrite Hf.
    destruct (print_value_dict_prints reg regdict (PList [65535]) "" 65535 world0
                eq_refl) as (items & evs & Ht).
    exists items, evs. exact Ht.
  - vm_compute. reflexivity.
  - repeat split; vm_compute; reflexivity.
Qed.

Lemma C6_sentinel_only_unmatched_witness :
  dumpall (holding 0x7404 0x1234) Quint24DCRegisters 257 world0
  = (Val tt,
     {| calls := calls world0 + length (scanned Quint24DCRegisters 256 0x7400);
        trace := trace world0
                 ++ scan_events (holding 0x7404 0x1234) Quint24DCRegisters
                      (calls world0) (scanned Quint24DCRegisters 256 0x7400) |}).
Proof.
  apply (C6_sentinel_only_unmatched (holding 0x7404 0x1234) Quint24DCRegisters 257
           world0).
  - apply device_of_healthy.
  - apply catalog_bits_keys.
  - apply Quint24DC_lengths_positive.
  - apply le_n.
Defined.
